(** * PaperScout: the arXiv client and the library tools

    A shallow embedding of [src/lib/arxiv.ts] (identifier normalisation,
    query URL construction, Atom entry parsing, fetch by id), of the
    tools of [src/tools.ts] (search, summarize, save, list, remove) and of
    the storage helpers of [src/lib/storage.ts], with the properties the
    specification states about them.

    JavaScript strings are sequences of 16-bit code units; they are modelled
    as lists of [N].  What the code calls outside the repository (the XML
    parser, the network, the language model, the clock) appears as explicit
    arguments that carry the outcome.  The two SQL tables are lists of rows
    inside the agent, next to what the statements leave to the SQL engine:
    the order of rows saved at the same time, and whether a statement
    whose failure the tools pass over throws. *)

From Stdlib Require Import Ascii String DecimalString.
From Stdlib Require Import List NArith Bool Arith Lia Permutation Sorted.
Import ListNotations.

Set Implicit Arguments.

(* ===================================================================== *)
(** * JavaScript strings                                                  *)
(* ===================================================================== *)

Module Js.

Definition code_unit := N.
Definition jsstring := list code_unit.

(** An ASCII literal as a JavaScript string. *)
Definition js (s : string) : jsstring :=
  map N_of_ascii (list_ascii_of_string s).

Fixpoint str_eqb (a b : jsstring) : bool :=
  match a, b with
  | [], [] => true
  | x :: a', y :: b' => N.eqb x y && str_eqb a' b'
  | _, _ => false
  end.

Definition is_empty (s : jsstring) : bool :=
  match s with [] => true | _ :: _ => false end.

(** JavaScript truthiness of a string: only the empty string is falsy. *)
Definition truthy (s : jsstring) : bool := negb (is_empty s).

(** Truthiness of [string | undefined]. *)
Definition truthy_opt (o : option jsstring) : bool :=
  match o with Some s => truthy s | None => false end.

(** [\d] *)
Definition is_digit (c : code_unit) : bool :=
  (48 <=? c)%N && (c <=? 57)%N.

(** The characters [.] does not match: LF, CR, U+2028, U+2029. *)
Definition is_line_terminator (c : code_unit) : bool :=
  (c =? 10)%N || (c =? 13)%N || (c =? 8232)%N || (c =? 8233)%N.

(** [\s], which is also what [trim] removes: WhiteSpace and
    LineTerminator of ECMAScript. *)
Definition is_white_space (c : code_unit) : bool :=
  ((9 <=? c)%N && (c <=? 13)%N) || (c =? 32)%N || (c =? 160)%N
  || (c =? 5760)%N || ((8192 <=? c)%N && (c <=? 8202)%N)
  || (c =? 8232)%N || (c =? 8233)%N || (c =? 8239)%N || (c =? 8287)%N
  || (c =? 12288)%N || (c =? 65279)%N.

(** Case folding of the [i] flag (without the [u] flag): a code unit is
    upper-cased, and a non-ASCII code unit never folds to an ASCII one,
    so against an ASCII pattern only the 26 letters fold. *)
Definition fold_case (c : code_unit) : code_unit :=
  if (97 <=? c)%N && (c <=? 122)%N then (c - 32)%N else c.

Definition ci_eqb (p c : code_unit) : bool :=
  (fold_case p =? fold_case c)%N.

(** The rest of [s] after the literal [pat], matched case-insensitively
    at the start of [s]. *)
Fixpoint strip_prefix_ci (pat s : jsstring) : option jsstring :=
  match pat with
  | [] => Some s
  | p :: pat' =>
      match s with
      | [] => None
      | c :: s' => if ci_eqb p c then strip_prefix_ci pat' s' else None
      end
  end.

(** [s] is exactly [pat], case-insensitively. *)
Definition matches_ci (pat s : jsstring) : bool :=
  match strip_prefix_ci pat s with
  | Some [] => true
  | _ => false
  end.

(** A lazy [(.+?)] followed by a tail that must reach the end of the
    input: the capture grows one code unit at a time, and stops at the
    first position where [accept] takes all that is left.  [.] does not
    step over a line terminator. *)
Section LazyDots.
Variable B : Type.
Variable accept : jsstring -> option B.

Fixpoint lazy_dots (acc rest : jsstring) : option (jsstring * B) :=
  match accept rest with
  | Some b => Some (acc, b)
  | None =>
      match rest with
      | [] => None
      | c :: rest' =>
          if is_line_terminator c then None
          else lazy_dots (acc ++ [c]) rest'
      end
  end.

Definition dot_plus_lazy (s : jsstring) : option (jsstring * B) :=
  match s with
  | [] => None
  | c :: rest => if is_line_terminator c then None else lazy_dots [c] rest
  end.
End LazyDots.

(** [Number.parseInt(ds, 10)] on a string of decimal digits, as the exact
    integer the digits denote.  The JavaScript number is that integer
    when it is below 2^53 and the nearest double above; what is stated
    about a parsed number is stated below 2^53. *)
Definition digit_value (c : code_unit) : N := (c - 48)%N.

Definition parseInt10 (ds : jsstring) : N :=
  fold_left (fun acc c => (10 * acc + digit_value c)%N) ds 0%N.

End Js.

(* ===================================================================== *)
(** * src/lib/arxiv.ts                                                    *)
(* ===================================================================== *)

Module Arxiv.
Import Js.

(** [NormalizedArxivId]: [version] and [versioned] are optional fields.
    [version] is a JavaScript number; the model keeps the exact value of
    the digits, which is the number below 2^53. *)
Record NormalizedArxivId := mkNormalized {
  canonical : jsstring;
  version : option N;
  versioned : option jsstring
}.

(** The tail of [/arxiv\.org\/(?:abs|pdf)\/(.+?)(?:\.pdf)?$/i] after the
    capture: an optional [.pdf], then the end of the input. *)
Definition accept_pdf_end (rest : jsstring) : option unit :=
  if matches_ci (js ".pdf") rest || is_empty rest then Some tt else None.

(** The regular expression tried at the start of [s]. *)
Definition url_match_here (s : jsstring) : option jsstring :=
  let after :=
    match strip_prefix_ci (js "arxiv.org/abs/") s with
    | Some r => Some r
    | None => strip_prefix_ci (js "arxiv.org/pdf/") s
    end in
  match after with
  | Some r =>
      match dot_plus_lazy accept_pdf_end r with
      | Some (cap, _) => Some cap
      | None => None
      end
  | None => None
  end.

(** [idOrUrl.match(/arxiv\.org\/(?:abs|pdf)\/(.+?)(?:\.pdf)?$/i)]: the
    leftmost start position where the expression matches; the result is
    capture group 1. *)
Fixpoint urlMatch (s : jsstring) : option jsstring :=
  match url_match_here s with
  | Some cap => Some cap
  | None =>
      match s with
      | [] => None
      | _ :: s' => urlMatch s'
      end
  end.

(** The tail of [/^(.+?)(?:v(\d+))?$/] after the capture: an optional
    [v] and digits (capture group 2), then the end of the input. *)
Definition accept_version_end (rest : jsstring) : option (option jsstring) :=
  match rest with
  | [] => Some None
  | c :: ds =>
      if (c =? 118)%N && truthy ds && forallb is_digit ds
      then Some (Some ds) else None
  end.

(** [id.match(/^(.+?)(?:v(\d+))?$/)]: capture groups 1 and 2. *)
Definition versionMatch (id : jsstring) : option (jsstring * option jsstring) :=
  dot_plus_lazy accept_version_end id.

Definition normalizeArxivId (idOrUrl : jsstring) : NormalizedArxivId :=
  let id :=
    match urlMatch idOrUrl with
    | Some cap => cap
    | None => idOrUrl
    end in
  match versionMatch id with
  | None => mkNormalized id None None
  | Some (canonical, versionStr) =>
      match versionStr with
      | Some ds =>
          if truthy ds
          then mkNormalized canonical (Some (parseInt10 ds)) (Some id)
          else mkNormalized canonical None None
      | None => mkNormalized canonical None None
      end
  end.

(** ** URL encoding *)

(** Upper-case hexadecimal digit. *)
Definition hex_digit (n : N) : code_unit :=
  if (n <? 10)%N then (48 + n)%N else (55 + n)%N.

Definition percent_byte (b : N) : jsstring :=
  [37%N; hex_digit (b / 16); hex_digit (b mod 16)].

(** UTF-8 octets of a code point. *)
Definition utf8_encode (cp : N) : list N :=
  if (cp <? 128)%N then [cp]
  else if (cp <? 2048)%N then
    [(192 + cp / 64)%N; (128 + cp mod 64)%N]
  else if (cp <? 65536)%N then
    [(224 + cp / 4096)%N; (128 + (cp / 64) mod 64)%N; (128 + cp mod 64)%N]
  else
    [(240 + cp / 262144)%N; (128 + (cp / 4096) mod 64)%N;
     (128 + (cp / 64) mod 64)%N; (128 + cp mod 64)%N].

Definition is_high_surrogate (c : code_unit) : bool :=
  (55296 <=? c)%N && (c <=? 56319)%N.
Definition is_low_surrogate (c : code_unit) : bool :=
  (56320 <=? c)%N && (c <=? 57343)%N.

Definition surrogate_pair (hi lo : code_unit) : N :=
  (65536 + (hi - 55296) * 1024 + (lo - 56320))%N.

Definition is_alnum (c : code_unit) : bool :=
  ((48 <=? c)%N && (c <=? 57)%N) || ((65 <=? c)%N && (c <=? 90)%N)
  || ((97 <=? c)%N && (c <=? 122)%N).

(** The characters [encodeURIComponent] leaves alone:
    letters, digits and [- _ . ! ~ * ' ( )]. *)
Definition uri_unreserved (c : code_unit) : bool :=
  is_alnum c || existsb (N.eqb c) [45; 95; 46; 33; 126; 42; 39; 40; 41]%N.

(** [encodeURIComponent]: [None] is the URIError thrown on a lone
    surrogate. *)
Fixpoint encodeURIComponent (s : jsstring) : option jsstring :=
  match s with
  | [] => Some []
  | c :: s' =>
      if uri_unreserved c then option_map (cons c) (encodeURIComponent s')
      else if is_low_surrogate c then None
      else if is_high_surrogate c then
        match s' with
        | lo :: s'' =>
            if is_low_surrogate lo then
              option_map
                (app (flat_map percent_byte (utf8_encode (surrogate_pair c lo))))
                (encodeURIComponent s'')
            else None
        | [] => None
        end
      else
        option_map (app (flat_map percent_byte (utf8_encode c)))
                   (encodeURIComponent s')
  end.

(** The code points of a string as [URLSearchParams] sees it (a
    USVString): a lone surrogate becomes U+FFFD. *)
Fixpoint scalar_values (s : jsstring) : list N :=
  match s with
  | [] => []
  | c :: s' =>
      if is_high_surrogate c then
        match s' with
        | lo :: s'' =>
            if is_low_surrogate lo
            then surrogate_pair c lo :: scalar_values s''
            else 65533%N :: scalar_values s'
        | [] => [65533%N]
        end
      else if is_low_surrogate c then 65533%N :: scalar_values s'
      else c :: scalar_values s'
  end.

(** The application/x-www-form-urlencoded byte serializer: letters,
    digits and [* - . _] stay, a space becomes [+], every other octet is
    percent-encoded. *)
Definition form_encode_byte (b : N) : jsstring :=
  if is_alnum b || existsb (N.eqb b) [42; 45; 46; 95]%N then [b]
  else if (b =? 32)%N then [43%N]
  else percent_byte b.

Definition form_urlencode (s : jsstring) : jsstring :=
  flat_map form_encode_byte (flat_map utf8_encode (scalar_values s)).

(** [URLSearchParams.toString()] of a list of name and value pairs. *)
Fixpoint URLSearchParams_toString (params : list (jsstring * jsstring))
  : jsstring :=
  match params with
  | [] => []
  | [(k, v)] => form_urlencode k ++ [61%N] ++ form_urlencode v
  | (k, v) :: rest =>
      form_urlencode k ++ [61%N] ++ form_urlencode v ++ [38%N]
      ++ URLSearchParams_toString rest
  end.

(** [Array.prototype.join]. *)
Fixpoint join (sep : jsstring) (l : list jsstring) : jsstring :=
  match l with
  | [] => []
  | [x] => x
  | x :: rest => x ++ sep ++ join sep rest
  end.

(** [n.toString()] for a non-negative integer below 10^21: all its
    decimal digits.  (From 10^21 on JavaScript prints an exponent; what is
    stated about the digits of a number is stated below 10^21.) *)
Definition number_toString (n : N) : jsstring :=
  js (DecimalString.NilZero.string_of_uint (N.to_uint n)).

(** ** buildArxivQueryUrl *)

Inductive SortBy := relevance | lastUpdatedDate | submittedDate.
Inductive SortOrder := ascending | descending.

Definition SortBy_string (s : SortBy) : jsstring :=
  match s with
  | relevance => js "relevance"
  | lastUpdatedDate => js "lastUpdatedDate"
  | submittedDate => js "submittedDate"
  end.

Definition SortOrder_string (s : SortOrder) : jsstring :=
  match s with
  | ascending => js "ascending"
  | descending => js "descending"
  end.

(** [ArxivSearchOptions]; [maxResults] and [start] are non-negative
    integers. *)
Record ArxivSearchOptions := mkOptions {
  maxResults : option N;
  start : option N;
  sortBy : option SortBy;
  sortOrder : option SortOrder;
  categories : option (list jsstring)
}.

Definition no_options : ArxivSearchOptions :=
  mkOptions None None None None None.

Definition or_default {A} (o : option A) (d : A) : A :=
  match o with Some a => a | None => d end.

(** The value given to [params.set("search_query", ...)]; [None] when
    [encodeURIComponent] throws. *)
Definition search_query_value (query : jsstring) (options : ArxivSearchOptions)
  : option jsstring :=
  let searchQuery :=
    match categories options with
    | Some ((_ :: _) as cats) =>
        let categoryFilter :=
          join (js "+OR+") (map (fun cat => js "cat:" ++ cat) cats) in
        option_map
          (fun q => js "(" ++ q ++ js ")+AND+(" ++ categoryFilter ++ js ")")
          (encodeURIComponent query)
    | _ => encodeURIComponent query
    end in
  option_map (fun q => js "all:" ++ q) searchQuery.

Definition buildArxivQueryUrl (query : jsstring) (options : ArxivSearchOptions)
  : option jsstring :=
  match search_query_value query options with
  | None => None
  | Some search_query =>
      let params :=
        [ (js "search_query", search_query);
          (js "start", number_toString (or_default (start options) 0%N));
          (js "max_results",
            number_toString (or_default (maxResults options) 10%N));
          (js "sortBy", SortBy_string (or_default (sortBy options) relevance));
          (js "sortOrder",
            SortOrder_string (or_default (sortOrder options) descending)) ] in
      Some (js "https://export.arxiv.org/api/query?"
            ++ URLSearchParams_toString params)
  end.

(** ** Atom feed entries

    The object [XMLParser.parse] returns, with the fields the code reads
    and the types its casts give them ([string | undefined], arrays of
    objects with optional string attributes). *)

(** What the parser returns for an element.  The parser is created with
    its default value parsing, so the text of an element comes back as a
    string only when it does not read as a number or a boolean; an
    element with attributes or children comes back as an object, a
    repeated one as an array.  [NotText] stands for every value that is
    not a string. *)
Inductive TagValue :=
| Text (s : jsstring)
| NotText.

(** The string behind a field, when the field holds one. *)
Definition text_of (v : option TagValue) : option jsstring :=
  match v with
  | Some (Text s) => Some s
  | _ => None
  end.

Record AtomAuthor := mkAuthor { name : option jsstring }.

(** Attributes are not value-parsed: they are strings. *)
Record AtomLink := mkLink {
  href : option jsstring;   (* "@_href" *)
  rel : option jsstring;    (* "@_rel" *)
  type : option jsstring    (* "@_type" *)
}.

Record AtomCategory := mkCategory { term : option jsstring }.

(** An entry of the feed.  [parseEntry] calls string methods on [id],
    [title] and [summary] ([match], [replace]), so what it does depends
    on whether they are strings: these three fields are [TagValue]s.
    [published], [updated] and the author names are only tested for
    truthiness and copied; they are taken to be text. *)
Record AtomEntry := mkEntry {
  id_element : option TagValue;
  title_element : option TagValue;
  entry_published : option jsstring;
  entry_updated : option jsstring;
  summary_element : option TagValue;
  entry_author : option (list AtomAuthor);
  entry_link : option (list AtomLink);
  entry_category : option (list AtomCategory)
}.

(** The fields as the casts [as string | undefined] announce them. *)
Definition entry_id (e : AtomEntry) : option jsstring :=
  text_of (id_element e).
Definition entry_title (e : AtomEntry) : option jsstring :=
  text_of (title_element e).
Definition entry_summary (e : AtomEntry) : option jsstring :=
  text_of (summary_element e).

Record AtomFeed := mkFeed { feed_entry : option (list AtomEntry) }.

Record XmlDocument := mkDocument { feed : option AtomFeed }.

(** [parser.parse(xml)] either throws or returns a document. *)
Inductive XmlParseOutcome :=
| XmlThrows
| XmlParsed (doc : XmlDocument).

Record ArxivPaper := mkPaper {
  arxivId : jsstring;
  arxivIdVersioned : option jsstring;
  paper_version : option N;
  paper_title : jsstring;
  authors : list jsstring;
  paper_published : jsstring;
  paper_updated : option jsstring;
  paper_abstract : jsstring;
  paper_url : jsstring;
  paper_categories : option (list jsstring);
  pdfUrl : option jsstring
}.

(** [s.replace(/\s+/g, " ")]: every maximal run of white space becomes
    one space. *)
Fixpoint collapse_white_space (s : jsstring) : jsstring :=
  match s with
  | [] => []
  | c :: s' =>
      if is_white_space c then
        match s' with
        | c' :: _ =>
            if is_white_space c' then collapse_white_space s'
            else 32%N :: collapse_white_space s'
        | [] => [32%N]
        end
      else c :: collapse_white_space s'
  end.

Fixpoint trim_start (s : jsstring) : jsstring :=
  match s with
  | c :: s' => if is_white_space c then trim_start s' else s
  | [] => []
  end.

(** [s.trim()] *)
Definition trim (s : jsstring) : jsstring :=
  rev (trim_start (rev (trim_start s))).

Definition clean_text (s : jsstring) : jsstring :=
  trim (collapse_white_space s).

Definition opt_is (o : option jsstring) (lit : jsstring) : bool :=
  match o with Some s => str_eqb s lit | None => false end.

(** One turn of the loop over [entry.link], on the pair [(url, pdfUrl)]. *)
Definition link_step (st : jsstring * option jsstring) (l : AtomLink)
  : jsstring * option jsstring :=
  let '(url, pdf) := st in
  let url' :=
    if opt_is (rel l) (js "alternate") && opt_is (type l) (js "text/html")
    then or_default (href l) url
    else url in
  let pdf' :=
    if opt_is (type l) (js "application/pdf") then href l else pdf in
  (url', pdf').

Definition resolve_links (idElement : jsstring) (links : option (list AtomLink))
  : jsstring * option jsstring :=
  match links with
  | Some ls => fold_left link_step ls (idElement, None)
  | None => (idElement, None)
  end.

(** The truthy strings among optional ones, in order. *)
Definition truthy_values (l : list (option jsstring)) : list jsstring :=
  flat_map (fun o => match o with
                     | Some s => if truthy s then [s] else []
                     | None => []
                     end) l.

(** [parseEntry].  [None] is the [null] returned when a required field
    is missing, and also the TypeError thrown when [id], [title] or
    [summary] is not a string ([idOrUrl.match], [title.replace] and
    [abstract?.replace] are not functions then): [parseArxivAtom] calls
    [parseEntry] inside [try] and skips the entry in both cases. *)
Definition parseEntry (entry : AtomEntry) : option ArxivPaper :=
  match id_element entry with
  | None => None
  | Some NotText => None
  | Some (Text idElement) =>
      if negb (truthy idElement) then None else
      let normalizedId := normalizeArxivId idElement in
      match title_element entry with
      | None => None
      | Some NotText => None
      | Some (Text title) =>
          if negb (truthy title) then None else
          let cleanTitle := clean_text title in
          let authors :=
            match entry_author entry with
            | Some authorElements => truthy_values (map name authorElements)
            | None => []
            end in
          match entry_published entry with
          | None => None
          | Some published =>
              if negb (truthy published) then None else
              let updated := entry_updated entry in
              match
                match summary_element entry with
                | Some (Text abstract) => Some (clean_text abstract)
                | Some NotText => None
                | None => Some []
                end
              with
              | None => None
              | Some cleanAbstract =>
                  let '(url, pdfUrl) :=
                    resolve_links idElement (entry_link entry) in
                  let categories :=
                    match entry_category entry with
                    | Some categoryElements =>
                        truthy_values (map term categoryElements)
                    | None => []
                    end in
                  Some (mkPaper (canonical normalizedId)
                                (versioned normalizedId)
                                (version normalizedId)
                                cleanTitle authors published updated
                                cleanAbstract url
                                (match categories with
                                 | [] => None
                                 | _ :: _ => Some categories
                                 end)
                                pdfUrl)
              end
          end
      end
  end.

(** [parseArxivAtom], given what [parser.parse] does on the input.  The
    loop keeps the entries [parseEntry] returns a paper for; its [catch]
    skips an entry on which [parseEntry] throws. *)
Definition parseArxivAtom (parse : jsstring -> XmlParseOutcome)
    (xml : jsstring) : list ArxivPaper :=
  match parse xml with
  | XmlThrows => []
  | XmlParsed parsed =>
      match feed parsed with
      | None => []
      | Some feed =>
          match feed_entry feed with
          | None => []
          | Some entries =>
              flat_map (fun entry =>
                          match parseEntry entry with
                          | Some paper => [paper]
                          | None => []
                          end) entries
          end
      end
  end.

(** ** Fetching *)

(** What [fetchImpl(url)] does: it rejects, or resolves to a response
    with its [ok] flag, its status and the text its body reads as.
    ([response.text()] is read for an OK response only, and is taken to
    resolve: its rejection is an error of neither class of the module,
    which the fetch functions and the tools let through.) *)
Inductive FetchOutcome :=
| Rejects
| Responds (ok : bool) (status : N) (text : jsstring).

(** The result of an async function that may throw one of the two error
    classes of the module. *)
Inductive Fetched (A : Type) :=
| ArxivNetworkError
| ArxivHttpError (status : N)
| Returned (a : A).
Arguments ArxivNetworkError {A}.
Arguments ArxivHttpError {A} status.

(** [fetchArxivPaperById] as the tools call it, without options (no
    delay before the request): one request, for the canonical id. *)
Definition fetch_url_by_id (arxivId : jsstring) : jsstring :=
  js "https://export.arxiv.org/api/query?id_list="
  ++ canonical (normalizeArxivId arxivId).

Definition fetchArxivPaperById
    (fetchImpl : jsstring -> FetchOutcome)
    (parse : jsstring -> XmlParseOutcome)
    (arxivId : jsstring) : Fetched (option ArxivPaper) :=
  match fetchImpl (fetch_url_by_id arxivId) with
  | Rejects => ArxivNetworkError
  | Responds ok status xml =>
      if negb ok then ArxivHttpError status
      else Returned (hd_error (parseArxivAtom parse xml))
  end.

End Arxiv.

(* ===================================================================== *)
(** * src/tools.ts                                                        *)
(* ===================================================================== *)

Module Tools.
Import Js Arxiv.

Definition SUMMARY_PROMPT_VERSION : jsstring := js "v1".

Definition summaryKey (arxivId : jsstring) : jsstring :=
  arxivId ++ js ":" ++ SUMMARY_PROMPT_VERSION.

(** ** The agent: two SQL tables and the synced state *)

(** A row of [saved_papers].  The two JSON columns hold an array of
    strings written with [JSON.stringify] and read with [JSON.parse]; the
    model keeps the array. *)
Record SavedPaperRow := mkRow {
  arxiv_id : jsstring;
  title : jsstring;
  authors_json : list jsstring;
  published : jsstring;
  updated : jsstring;
  abstract : jsstring;
  url : jsstring;
  tags_json : list jsstring;
  saved_at : N
}.

(** A row of [paper_summaries]; its key column is also named
    [arxiv_id] in the schema. *)
Record SummaryRow := mkSummaryRow {
  summary_key : jsstring;
  summary_md : jsstring;
  created_at : N
}.

Record LibraryPreviewItem := mkPreviewItem {
  preview_arxivId : jsstring;
  preview_title : jsstring;
  preview_savedAt : N;
  preview_tags : list jsstring
}.

Record Preferences := mkPreferences {
  defaultMaxResults : N;
  recencyDays : N;
  pref_categories : list jsstring
}.

(** The SQL engine behind [agent.sql], as far as the statements leave
    its behaviour open.

    SQL does not say in which order [ORDER BY saved_at DESC] returns rows
    with equal [saved_at]: [list_before a b] tells whether the engine
    puts [a] before [b] in the result of the query of [listSavedPapers],
    [preview_before] the same for the query of [updateLibraryPreview]
    (the one with [LIMIT 10]).

    A statement may throw.  [throws] tells so for the three statements
    whose failure the tools catch and pass over; the other statements
    are taken to succeed (the tools report their failure as an error
    result). *)
Inductive Statement := SelectPreview | SelectSummary | InsertSummary.

Record Sql := mkSql {
  list_before : SavedPaperRow -> SavedPaperRow -> bool;
  preview_before : SavedPaperRow -> SavedPaperRow -> bool;
  throws : Statement -> bool
}.

Record Agent := mkAgent {
  saved_papers : list SavedPaperRow;
  paper_summaries : list SummaryRow;
  preferences : Preferences;
  libraryPreview : list LibraryPreviewItem;
  sql : Sql
}.

(** What a tool call finds outside the agent: the network, the XML
    parser, the language model (called on the prompt built from a paper;
    [None] when generation fails) and the clock. *)
Record World := mkWorld {
  fetchImpl : jsstring -> FetchOutcome;
  xml_parse : jsstring -> XmlParseOutcome;
  generateText : ArxivPaper -> option jsstring;
  now : N
}.

(** What a tool call leaves behind: its result, the agent after it, the
    URLs it requested and the papers it asked the model to summarize. *)
Record Outcome (R : Type) := mkOutcome {
  result : R;
  agent_after : Agent;
  requests : list jsstring;
  generations : list ArxivPaper
}.

(** ** SQL statements *)

Definition has_id (id : jsstring) (row : SavedPaperRow) : bool :=
  str_eqb (arxiv_id row) id.

(** [SELECT ... FROM saved_papers WHERE arxiv_id = id]; the statements
    are taken to succeed, and keys to be equal when their code units are. *)
Definition select_by_id (id : jsstring) (table : list SavedPaperRow)
  : list SavedPaperRow :=
  filter (has_id id) table.

(** [INSERT INTO saved_papers]: [arxiv_id] is the primary key, so the
    statement throws ([None]) when the key is taken. *)
Definition insert_row (row : SavedPaperRow) (table : list SavedPaperRow)
  : option (list SavedPaperRow) :=
  if existsb (has_id (arxiv_id row)) table then None
  else Some (table ++ [row]).

Definition with_tags (row : SavedPaperRow) (tags : list jsstring)
  : SavedPaperRow :=
  mkRow (arxiv_id row) (title row) (authors_json row) (published row)
        (updated row) (abstract row) (url row) tags (saved_at row).

(** [UPDATE saved_papers SET tags_json = tags WHERE arxiv_id = id] *)
Definition update_tags (id : jsstring) (tags : list jsstring)
    (table : list SavedPaperRow) : list SavedPaperRow :=
  map (fun row => if has_id id row then with_tags row tags else row) table.

(** [DELETE FROM saved_papers WHERE arxiv_id = id] *)
Definition delete_by_id (id : jsstring) (table : list SavedPaperRow)
  : list SavedPaperRow :=
  filter (fun row => negb (has_id id row)) table.

Section OrderBy.
(** The engine's choice between rows with equal [saved_at]. *)
Variable before : SavedPaperRow -> SavedPaperRow -> bool.

Fixpoint insert_desc (row : SavedPaperRow) (sorted : list SavedPaperRow)
  : list SavedPaperRow :=
  match sorted with
  | [] => [row]
  | r :: rest =>
      if (saved_at r <? saved_at row)%N
         || ((saved_at r =? saved_at row)%N && before row r)
      then row :: sorted
      else r :: insert_desc row rest
  end.

(** [ORDER BY saved_at DESC]: the rows of the table by decreasing
    [saved_at], rows with equal [saved_at] as the engine chooses. *)
Definition order_by_saved_at_desc (table : list SavedPaperRow)
  : list SavedPaperRow :=
  fold_right insert_desc [] table.
End OrderBy.

(** [SELECT summary_md FROM paper_summaries WHERE arxiv_id = key] *)
Definition select_summary (key : jsstring) (table : list SummaryRow)
  : list SummaryRow :=
  filter (fun row => str_eqb (summary_key row) key) table.

(** [INSERT OR REPLACE INTO paper_summaries] *)
Definition insert_or_replace_summary (row : SummaryRow)
    (table : list SummaryRow) : list SummaryRow :=
  filter (fun r => negb (str_eqb (summary_key r) (summary_key row))) table
  ++ [row].

(** ** updateLibraryPreview *)

Definition preview_of_row (row : SavedPaperRow) : LibraryPreviewItem :=
  mkPreviewItem (arxiv_id row) (title row) (saved_at row) (tags_json row).

(** The whole body is inside [try]: when it throws (the query fails), the
    error is logged and the state is left as it is. *)
Definition updateLibraryPreview (agent : Agent) : Agent :=
  if throws (sql agent) SelectPreview then agent
  else
    let recent :=
      firstn 10 (order_by_saved_at_desc (preview_before (sql agent))
                                        (saved_papers agent)) in
    mkAgent (saved_papers agent) (paper_summaries agent) (preferences agent)
            (map preview_of_row recent) (sql agent).

Definition with_saved_papers (agent : Agent) (table : list SavedPaperRow)
  : Agent :=
  mkAgent table (paper_summaries agent) (preferences agent)
          (libraryPreview agent) (sql agent).

Definition with_paper_summaries (agent : Agent) (table : list SummaryRow)
  : Agent :=
  mkAgent (saved_papers agent) table (preferences agent)
          (libraryPreview agent) (sql agent).

(** ** Error messages *)

Definition msg_network : jsstring :=
  js "Failed to connect to arXiv. Please try again later.".

Definition msg_http (status : N) : jsstring :=
  js "arXiv returned an error (HTTP " ++ number_toString status
  ++ js "). Please try again.".

Definition msg_not_found (id : jsstring) : jsstring :=
  js "Paper with arXiv ID '" ++ id
  ++ js "' not found. Please check the ID and try again.".

Definition msg_not_in_library (id : jsstring) : jsstring :=
  js "Paper with arXiv ID '" ++ id ++ js "' not found in library".

(** ** summarizePaper *)

Record SummarizePaperResult := mkSummarizeResult {
  summarize_arxivId : jsstring;
  summarize_title : option jsstring;
  summaryMd : jsstring;
  cached : bool;
  summarize_error : option jsstring
}.

(** The cache lookup and the cache write are each inside a [try] of
    their own: a lookup that throws counts as a miss, a write that throws
    is logged and the summary is returned all the same. *)
Definition summarizePaper (w : World) (agent : Agent) (arxivId : jsstring)
  : Outcome SummarizePaperResult :=
  let cacheKey := summaryKey arxivId in
  let cached :=
    if throws (sql agent) SelectSummary then []
    else select_summary cacheKey (paper_summaries agent) in
  match cached with
  | hit :: _ =>
      mkOutcome (mkSummarizeResult arxivId None (summary_md hit) true None)
                agent [] []
  | [] =>
      let request := fetch_url_by_id arxivId in
      let failed title message :=
        mkSummarizeResult arxivId title [] false (Some message) in
      match fetchArxivPaperById (fetchImpl w) (xml_parse w) arxivId with
      | ArxivNetworkError =>
          mkOutcome (failed None msg_network) agent [request] []
      | ArxivHttpError status =>
          mkOutcome (failed None (msg_http status)) agent [request] []
      | Returned None =>
          mkOutcome (failed None (msg_not_found arxivId)) agent [request] []
      | Returned (Some paper) =>
          match generateText w paper with
          | None =>
              mkOutcome
                (failed (Some (paper_title paper))
                        (js "Failed to generate summary. Please try again."))
                agent [request] [paper]
          | Some text =>
              let row := mkSummaryRow cacheKey text (now w) in
              mkOutcome
                (mkSummarizeResult arxivId (Some (paper_title paper)) text
                                   false None)
                (if throws (sql agent) InsertSummary then agent
                 else with_paper_summaries agent
                        (insert_or_replace_summary row
                           (paper_summaries agent)))
                [request] [paper]
          end
      end
  end.

(** ** savePaper *)

Record SavePaperResult := mkSaveResult {
  save_arxivId : jsstring;
  save_title : jsstring;
  save_tags : list jsstring;
  save_savedAt : N;
  wasAlreadySaved : bool;
  save_error : option jsstring
}.

(** [Array.from(new Set(l))]: the elements of [l] in the order of their
    first occurrence. *)
Definition Array_from_Set (l : list jsstring) : list jsstring :=
  fold_left (fun set x => if existsb (str_eqb x) set then set else set ++ [x])
            l [].

Definition savePaper (w : World) (agent : Agent) (arxivId : jsstring)
    (tags_arg : option (list jsstring)) : Outcome SavePaperResult :=
  let tags := or_default tags_arg [] in
  let canonicalId := canonical (normalizeArxivId arxivId) in
  match select_by_id canonicalId (saved_papers agent) with
  | existing :: _ =>
      let existingTags := tags_json existing in
      let mergedTags := Array_from_Set (existingTags ++ tags) in
      let agent' :=
        with_saved_papers agent
          (update_tags canonicalId mergedTags (saved_papers agent)) in
      mkOutcome
        (mkSaveResult canonicalId (title existing) mergedTags
                      (saved_at existing) true None)
        (updateLibraryPreview agent') [] []
  | [] =>
      let request := fetch_url_by_id canonicalId in
      let failed title message :=
        mkSaveResult canonicalId title [] 0%N false (Some message) in
      match fetchArxivPaperById (fetchImpl w) (xml_parse w) canonicalId with
      | ArxivNetworkError =>
          mkOutcome (failed [] msg_network) agent [request] []
      | ArxivHttpError status =>
          mkOutcome (failed [] (msg_http status)) agent [request] []
      | Returned None =>
          mkOutcome (failed [] (msg_not_found canonicalId)) agent [request] []
      | Returned (Some paper) =>
          let savedAt := now w in
          let row :=
            mkRow canonicalId (paper_title paper) (authors paper)
                  (paper_published paper)
                  (if truthy_opt (paper_updated paper)
                   then or_default (paper_updated paper) []
                   else paper_published paper)
                  (paper_abstract paper) (paper_url paper) tags savedAt in
          match insert_row row (saved_papers agent) with
          | None =>
              mkOutcome
                (failed (paper_title paper)
                        (js "Failed to save paper to database"))
                agent [request] []
          | Some table =>
              mkOutcome
                (mkSaveResult canonicalId (paper_title paper) tags savedAt
                              false None)
                (updateLibraryPreview (with_saved_papers agent table))
                [request] []
          end
      end
  end.

(** ** listSavedPapers *)

Record ListedPaper := mkListed {
  listed_arxivId : jsstring;
  listed_title : jsstring;
  listed_authors : list jsstring;
  listed_published : jsstring;
  listed_abstract : jsstring;
  listed_url : jsstring;
  listed_tags : list jsstring;
  listed_savedAt : N
}.

Record ListSavedPapersResult := mkListResult {
  papers : list ListedPaper;
  filterText_out : option jsstring;
  tagFilter : option jsstring;
  totalCount : nat;
  wasTruncated : bool;
  list_error : option jsstring
}.

Definition listed_of_row (row : SavedPaperRow) : ListedPaper :=
  mkListed (arxiv_id row) (title row) (authors_json row) (published row)
           (abstract row) (url row) (tags_json row) (saved_at row).

Fixpoint starts_with (prefix s : jsstring) : bool :=
  match prefix, s with
  | [], _ => true
  | p :: prefix', c :: s' => N.eqb p c && starts_with prefix' s'
  | _ :: _, [] => false
  end.

(** [s.includes(needle)] *)
Fixpoint includes (s needle : jsstring) : bool :=
  starts_with needle s
  || match s with
     | [] => false
     | _ :: s' => includes s' needle
     end.

Section ListSavedPapers.
(** [String.prototype.toLowerCase], which follows the Unicode case
    mappings; the tool is described for any such function. *)
Variable toLowerCase : jsstring -> jsstring.

Definition tag_filter (tag : jsstring) (row : SavedPaperRow) : bool :=
  existsb (fun t => str_eqb (toLowerCase t) (toLowerCase tag))
          (tags_json row).

Definition text_filter (filterText : jsstring) (row : SavedPaperRow)
  : bool :=
  let lowerFilter := toLowerCase filterText in
  includes (toLowerCase (title row)) lowerFilter
  || includes (toLowerCase (abstract row)) lowerFilter.

Definition listSavedPapers (agent : Agent)
    (filterText tag : option jsstring) (limit_arg : option nat)
  : ListSavedPapersResult :=
  let limit := or_default limit_arg 20 in
  let effectiveLimit := Nat.min limit 100 in
  let allPapers :=
    order_by_saved_at_desc (list_before (sql agent)) (saved_papers agent) in
  let filtered := allPapers in
  let filtered :=
    match tag with
    | Some t => if truthy t then filter (tag_filter t) filtered
                else filtered
    | None => filtered
    end in
  let filtered :=
    match filterText with
    | Some f => if truthy f then filter (text_filter f) filtered
                else filtered
    | None => filtered
    end in
  let totalCount := length filtered in
  let wasTruncated := effectiveLimit <? totalCount in
  let limited := firstn effectiveLimit filtered in
  mkListResult (map listed_of_row limited) filterText tag totalCount
               wasTruncated None.
End ListSavedPapers.

(** ** executions.removeSavedPaper *)

Record RemoveSavedPaperResult := mkRemoveResult {
  remove_arxivId : jsstring;
  remove_title : option jsstring;
  success : bool;
  remove_error : option jsstring
}.

Definition removeSavedPaper (agent : Agent) (arxivId : jsstring)
  : Outcome RemoveSavedPaperResult :=
  let canonicalId := canonical (normalizeArxivId arxivId) in
  let title_found :=
    match select_by_id canonicalId (saved_papers agent) with
    | row :: _ => Some (title row)
    | [] => None
    end in
  if negb (truthy_opt title_found) then
    mkOutcome
      (mkRemoveResult canonicalId None false
                      (Some (msg_not_in_library canonicalId)))
      agent [] []
  else
    let agent' :=
      with_saved_papers agent
        (delete_by_id canonicalId (saved_papers agent)) in
    mkOutcome (mkRemoveResult canonicalId title_found true None)
              (updateLibraryPreview agent') [] [].

End Tools.

(* ===================================================================== *)
(** * Vocabulary of the specification                                     *)
(* ===================================================================== *)

Module Spec.
Import Js Arxiv Tools.

(** ** Identifiers *)

Fixpoint take_while (p : code_unit -> bool) (s : jsstring) : jsstring :=
  match s with
  | c :: s' => if p c then c :: take_while p s' else []
  | [] => []
  end.

Fixpoint drop_while (p : code_unit -> bool) (s : jsstring) : jsstring :=
  match s with
  | c :: s' => if p c then drop_while p s' else s
  | [] => []
  end.

(** Exactly [vK]: the letter v and one or more digits. *)
Definition is_version_suffix (s : jsstring) : bool :=
  match s with
  | c :: ds => (c =? 118)%N && truthy ds && forallb is_digit ds
  | [] => false
  end.

(** [s] ends with a version suffix [vK]. *)
Fixpoint ends_with_version_suffix (s : jsstring) : bool :=
  is_version_suffix s
  || match s with
     | [] => false
     | _ :: s' => ends_with_version_suffix s'
     end.

(** No code unit of [s] is a line terminator. *)
Definition no_line_terminator (s : jsstring) : bool :=
  forallb (fun c => negb (is_line_terminator c)) s.

(** The number of slashes in [s]. *)
Definition count_slash (s : jsstring) : nat :=
  List.length (filter (N.eqb 47) s).

Definition optional_version (s : jsstring) : bool :=
  is_empty s || is_version_suffix s.

(** Between [lo] and [hi] digits, then an optional version suffix. *)
Definition digits_then_version (lo hi : nat) (s : jsstring) : bool :=
  let ds := take_while is_digit s in
  (lo <=? List.length ds) && (List.length ds <=? hi)
  && optional_version (drop_while is_digit s).

(** New-style identifier [YYMM.NNNNN[vK]] (four or five digits after
    the dot). *)
Definition new_style_id (s : jsstring) : bool :=
  match s with
  | y1 :: y2 :: m1 :: m2 :: dot :: number =>
      forallb is_digit [y1; y2; m1; m2] && (dot =? 46)%N
      && digits_then_version 4 5 number
  | _ => false
  end.

(** Letters, the hyphen of [hep-th] and the dot of [math.AG]. *)
Definition is_subject_char (c : code_unit) : bool :=
  ((65 <=? c)%N && (c <=? 90)%N) || ((97 <=? c)%N && (c <=? 122)%N)
  || (c =? 45)%N || (c =? 46)%N.

(** Old-style identifier [subject[-subject2]/YYMMNNN[vK]]. *)
Definition old_style_id (s : jsstring) : bool :=
  truthy (take_while is_subject_char s)
  && match drop_while is_subject_char s with
     | slash :: number => (slash =? 47)%N && digits_then_version 7 7 number
     | [] => false
     end.

Definition bare_id (s : jsstring) : bool :=
  new_style_id s || old_style_id s.

(** The shape of an identifier without its version: some code units
    without slash or line terminator, a dot or a slash, then digits. *)
Definition base_shape (B : jsstring) : Prop :=
  exists P sep D,
    B = P ++ sep :: D
    /\ no_line_terminator P = true /\ count_slash P = 0
    /\ (sep = 46%N \/ sep = 47%N)
    /\ D <> [] /\ forallb is_digit D = true.

(** The shape of an optional version suffix. *)
Definition version_shape (V : jsstring) : Prop :=
  V = [] \/ exists K, V = 118%N :: K /\ K <> [] /\ forallb is_digit K = true.

(** The rest of [s] after the literal [pat], matched exactly. *)
Fixpoint strip_prefix (pat s : jsstring) : option jsstring :=
  match pat, s with
  | [], _ => Some s
  | p :: pat', c :: s' => if (p =? c)%N then strip_prefix pat' s' else None
  | _ :: _, [] => None
  end.

Definition strip_optional (pat s : jsstring) : jsstring :=
  match strip_prefix pat s with Some r => r | None => s end.

(** A bare identifier followed by [.pdf]. *)
Definition bare_id_dot_pdf (s : jsstring) : bool :=
  match rev s with
  | f :: d :: p :: dot :: r =>
      str_eqb [dot; p; d; f] (js ".pdf") && bare_id (rev r)
  | _ => false
  end.

(** An abstract-page or PDF-page URL: [http://] or [https://], an
    optional [www.], the endpoint, the identifier, an optional [.pdf]. *)
Definition url_id (s : jsstring) : bool :=
  match strip_prefix (js "http://") s, strip_prefix (js "https://") s with
  | None, None => false
  | Some r, _ | None, Some r =>
      let r := strip_optional (js "www.") r in
      match strip_prefix (js "arxiv.org/abs/") r,
            strip_prefix (js "arxiv.org/pdf/") r with
      | None, None => false
      | Some body, _ | None, Some body =>
          bare_id body || bare_id_dot_pdf body
      end
  end.

(** The valid raw identifiers: bare old-style or new-style, with or
    without a version, as such or inside a URL. *)
Definition valid_raw_id (s : jsstring) : bool :=
  bare_id s || url_id s.

(** ** Feed entries *)

(** A field of an entry is there: it has a value, and the value is not
    the empty string. *)
Definition present (v : option TagValue) : bool :=
  match v with
  | Some (Text s) => truthy s
  | Some NotText => true
  | None => false
  end.

(** The entry has [id], [title] and [published]. *)
Definition has_required_fields (e : AtomEntry) : bool :=
  present (id_element e) && present (title_element e)
  && truthy_opt (entry_published e).

Definition missing_required_field (e : AtomEntry) : bool :=
  negb (has_required_fields e).

(** The entry has [id], [title] and [published], its [id] and [title]
    are strings, and so is its [summary] when it has one. *)
Definition well_formed (e : AtomEntry) : bool :=
  truthy_opt (entry_id e) && truthy_opt (entry_title e)
  && truthy_opt (entry_published e)
  && match summary_element e with
     | Some NotText => false
     | _ => true
     end.

Definition links_of (e : AtomEntry) : list AtomLink :=
  or_default (entry_link e) [].

Definition is_pdf_link (l : AtomLink) : bool :=
  opt_is (type l) (js "application/pdf").

Definition is_alternate_html (l : AtomLink) : bool :=
  opt_is (rel l) (js "alternate") && opt_is (type l) (js "text/html").

Definition has_href (l : AtomLink) : bool :=
  match href l with Some _ => true | None => false end.

(** The first, respectively the last, element of a list that satisfies
    a test. *)
Definition first_such {A} (p : A -> bool) (l : list A) : option A :=
  find p l.
Definition last_such {A} (p : A -> bool) (l : list A) : option A :=
  find p (rev l).

Definition href_of (o : option AtomLink) : option jsstring :=
  match o with Some l => href l | None => None end.

(** ** Library *)

Definition desc (a b : SavedPaperRow) : Prop :=
  (saved_at b <= saved_at a)%N.

(** [needle] occurs in [s]. *)
Definition occurs_in (needle s : jsstring) : Prop :=
  exists pre post, s = pre ++ needle ++ post.

Section Filters.
Variable toLowerCase : jsstring -> jsstring.

(** The row carries the tag, letter case aside. *)
Definition has_tag (tag : jsstring) (row : SavedPaperRow) : Prop :=
  exists t, In t (tags_json row) /\ toLowerCase t = toLowerCase tag.

(** The text occurs in the title or in the abstract of the row, letter
    case aside. *)
Definition mentions (text : jsstring) (row : SavedPaperRow) : Prop :=
  occurs_in (toLowerCase text) (toLowerCase (title row))
  \/ occurs_in (toLowerCase text) (toLowerCase (abstract row)).

(** The row passes the filters of a list call; a filter that is absent
    or the empty string lets every row pass. *)
Definition matches (filterText tag : option jsstring) (row : SavedPaperRow)
  : Prop :=
  (forall t, tag = Some t -> t <> [] -> has_tag t row)
  /\ (forall f, filterText = Some f -> f <> [] -> mentions f row).
End Filters.

(** [kept] is [rows] without the rows that do not satisfy [P], in the
    same order. *)
Inductive selected {A : Type} (P : A -> Prop) : list A -> list A -> Prop :=
| selected_nil : selected P [] []
| selected_keep (x : A) (rows kept : list A) :
    P x -> selected P rows kept -> selected P (x :: rows) (x :: kept)
| selected_skip (x : A) (rows kept : list A) :
    ~ P x -> selected P rows kept -> selected P (x :: rows) kept.

(** What a list call shows of a row. *)
Definition shown_as (row : SavedPaperRow) (p : ListedPaper) : Prop :=
  listed_arxivId p = arxiv_id row
  /\ listed_title p = title row
  /\ listed_authors p = authors_json row
  /\ listed_published p = published row
  /\ listed_abstract p = abstract row
  /\ listed_url p = url row
  /\ listed_tags p = tags_json row
  /\ listed_savedAt p = saved_at row.



(** The two filters of the code as one test. *)
Definition matches_filters (toLowerCase : jsstring -> jsstring)
    (filterText tag : option jsstring) (row : SavedPaperRow) : bool :=
  (if truthy_opt tag then tag_filter toLowerCase (or_default tag []) row
   else true)
  && (if truthy_opt filterText
      then text_filter toLowerCase (or_default filterText []) row
      else true).

(** Lower-casing of the ASCII letters, every other code unit kept. *)
Definition ascii_toLowerCase (s : jsstring) : jsstring :=
  map (fun c => if (65 <=? c)%N && (c <=? 90)%N then (c + 32)%N else c) s.

End Spec.
(* ===================================================================== *)
(** * Sample feeds, worlds and libraries                                  *)
(* ===================================================================== *)

Module Samples.
Import Js Arxiv Tools Spec.

Definition link_html : AtomLink :=
  mkLink (Some (js "http://arxiv.org/abs/2301.01234v2"))
         (Some (js "alternate")) (Some (js "text/html")).

Definition link_pdf_v1 : AtomLink :=
  mkLink (Some (js "http://arxiv.org/pdf/2301.01234v1"))
         (Some (js "related")) (Some (js "application/pdf")).

Definition link_pdf_v2 : AtomLink :=
  mkLink (Some (js "http://arxiv.org/pdf/2301.01234v2"))
         (Some (js "related")) (Some (js "application/pdf")).

Definition entry_of (title : option TagValue) (links : list AtomLink)
  : AtomEntry :=
  mkEntry (Some (Text (js "http://arxiv.org/abs/2301.01234v2"))) title
          (Some (js "2023-01-15T00:00:00Z"))
          (Some (js "2023-01-20T00:00:00Z"))
          (Some (Text (js "This paper presents a novel approach.")))
          (Some [mkAuthor (Some (js "Alice Smith"));
                 mkAuthor (Some (js "Bob Jones"))])
          (Some links)
          (Some [mkCategory (Some (js "cs.AI"))]).

Definition entry_with (title : option jsstring) (links : list AtomLink)
  : AtomEntry :=
  entry_of (option_map Text title) links.

Definition entry_ok : AtomEntry :=
  entry_with (Some (js "A Great Paper  About Diffusion Models"))
             [link_html; link_pdf_v2].

(** The paper [parseEntry] makes of [entry_ok]. *)
Definition paper_ok : ArxivPaper :=
  mkPaper (js "2301.01234") (Some (js "2301.01234v2")) (Some 2%N)
          (js "A Great Paper About Diffusion Models")
          [js "Alice Smith"; js "Bob Jones"]
          (js "2023-01-15T00:00:00Z") (Some (js "2023-01-20T00:00:00Z"))
          (js "This paper presents a novel approach.")
          (js "http://arxiv.org/abs/2301.01234v2") (Some [js "cs.AI"])
          (Some (js "http://arxiv.org/pdf/2301.01234v2")).

(** An entry that lists two PDF links. *)
Definition entry_two_pdf : AtomEntry :=
  entry_with (Some (js "A Great Paper")) [link_html; link_pdf_v1; link_pdf_v2].

(** An entry without a title. *)
Definition entry_no_title : AtomEntry := entry_with None [link_html].

(** An entry whose title is a single space. *)
Definition entry_blank_title : AtomEntry :=
  entry_with (Some (js " ")) [link_html].

(** An entry whose title reads as a number, as in [<title>123</title>]:
    the parser returns the number. *)
Definition entry_numeric_title : AtomEntry :=
  entry_of (Some NotText) [link_html].

Definition feed_of (entries : list AtomEntry) : XmlParseOutcome :=
  XmlParsed (mkDocument (Some (mkFeed (Some entries)))).

(** A world whose upstream answers every request with the given feed. *)
Definition world_of_feed (entries : list AtomEntry) : World :=
  mkWorld (fun _ => Responds true 200%N (js "<feed/>"))
          (fun _ => feed_of entries)
          (fun _ => Some (js "### TL;DR"))
          1700000000000%N.

(** An engine that returns rows with equal [saved_at] in the order of
    the table, and on which no statement throws. *)
Definition table_order : Sql :=
  mkSql (fun _ _ => true) (fun _ _ => true) (fun _ => false).

(** An engine that returns them with the later row first. *)
Definition later_first : Sql :=
  mkSql (fun _ _ => false) (fun _ _ => false) (fun _ => false).

(** An engine on which the three statements throw. *)
Definition failing : Sql :=
  mkSql (fun _ _ => true) (fun _ _ => true) (fun _ => true).

Definition empty_agent : Agent :=
  mkAgent [] [] (mkPreferences 5%N 3650%N []) [] table_order.

Definition row_saved_at (n : N) : SavedPaperRow :=
  mkRow (js "2301.0000" ++ number_toString n) (js "Paper")
        [js "Alice Smith"] (js "2023-01-15T00:00:00Z")
        (js "2023-01-15T00:00:00Z") (js "An abstract.")
        (js "http://arxiv.org/abs/2301.00001") [js "ml"] n.

Definition library_on (engine : Sql) (saved : list N) : Agent :=
  mkAgent (map row_saved_at saved) [] (mkPreferences 5%N 3650%N []) []
          engine.

Definition library_of (saved : list N) : Agent :=
  library_on table_order saved.

End Samples.

(* ===================================================================== *)
(** * src/lib/arxiv.ts and src/tools.ts: search                           *)
(* ===================================================================== *)

From Stdlib Require Import ZArith DecimalN DecimalPos.

Module Search.
Import Js Arxiv Tools.

(** [fetchArxivPapers] as [searchArxiv] calls it (no delay before the
    request).  [None] is the URIError of [encodeURIComponent], which the
    function lets through. *)
Definition fetchArxivPapers
    (fetchImpl : jsstring -> FetchOutcome)
    (parse : jsstring -> XmlParseOutcome)
    (query : jsstring) (options : ArxivSearchOptions)
  : option (Fetched (list ArxivPaper)) :=
  match buildArxivQueryUrl query options with
  | None => None
  | Some url =>
      Some match fetchImpl url with
           | Rejects => ArxivNetworkError
           | Responds ok status xml =>
               if negb ok then ArxivHttpError status
               else Returned (parseArxivAtom parse xml)
           end
  end.

Record SearchArxivResult := mkSearchResult {
  search_papers : list ArxivPaper;
  search_query : jsstring;
  search_recencyDays : N;
  totalFetched : nat;
  totalAfterFilter : nat;
  search_error : option jsstring
}.

(** The options [searchArxiv] passes to [fetchArxivPapers]. *)
Definition search_options (agent : Agent) (maxResults : option N)
    (categories : option (list jsstring)) : ArxivSearchOptions :=
  mkOptions
    (Some (or_default maxResults (defaultMaxResults (preferences agent))))
    None (Some submittedDate) (Some descending)
    (Some (or_default categories (pref_categories (preferences agent)))).

Section SearchArxiv.
(** [new Date(s).getTime()]: the milliseconds of the date the string
    denotes, [None] for NaN when it denotes none. *)
Variable Date_getTime : jsstring -> option Z.

(** [Date.now() - days * 24 * 60 * 60 * 1000] *)
Definition cutoffTime (w : World) (days : N) : Z :=
  (Z.of_N (now w) - Z.of_N days * 24 * 60 * 60 * 1000)%Z.

(** [publishedTime >= cutoffTime]; a comparison with NaN is false. *)
Definition is_recent (cutoff : Z) (paper : ArxivPaper) : bool :=
  match Date_getTime (paper_published paper) with
  | Some publishedTime => (cutoff <=? publishedTime)%Z
  | None => false
  end.

(** [searchArxiv]: [None] when an unexpected error is thrown again (the
    URIError of an ill-formed query). *)
Definition searchArxiv (w : World) (agent : Agent) (query : jsstring)
    (maxResults recencyDays_arg : option N)
    (categories : option (list jsstring))
  : option (Outcome SearchArxivResult) :=
  let effectiveRecencyDays :=
    or_default recencyDays_arg (recencyDays (preferences agent)) in
  let options := search_options agent maxResults categories in
  let failed message :=
    mkSearchResult [] query effectiveRecencyDays 0 0 (Some message) in
  (* the one request [fetchArxivPapers] makes *)
  let requests :=
    match buildArxivQueryUrl query options with
    | Some url => [url]
    | None => []
    end in
  match fetchArxivPapers (fetchImpl w) (xml_parse w) query options with
  | None => None
  | Some ArxivNetworkError =>
      Some (mkOutcome (failed msg_network) agent requests [])
  | Some (ArxivHttpError status) =>
      Some (mkOutcome (failed (msg_http status)) agent requests [])
  | Some (Returned papers) =>
      let totalFetched := List.length papers in
      let cutoffTime := cutoffTime w effectiveRecencyDays in
      let filteredPapers := filter (is_recent cutoffTime) papers in
      Some (mkOutcome
              (mkSearchResult filteredPapers query effectiveRecencyDays
                 totalFetched (List.length filteredPapers) None)
              agent requests [])
  end.
End SearchArxiv.

End Search.

(* ===================================================================== *)
(** * src/lib/storage.ts                                                  *)
(* ===================================================================== *)

Module Storage.
Import Js.

Inductive StorageType := persistent | session | memory.

Record StorageResult := mkStorageResult {
  value : jsstring;
  type : StorageType
}.

(** A key to value map with one value per key: a Web Storage area or the
    [Map] behind [memoryStorage]. *)
Definition Items := list (jsstring * jsstring).

Definition getItem (key : jsstring) (items : Items) : option jsstring :=
  match find (fun kv => str_eqb (fst kv) key) items with
  | Some kv => Some (snd kv)
  | None => None
  end.

Definition removeItem (key : jsstring) (items : Items) : Items :=
  filter (fun kv => negb (str_eqb (fst kv) key)) items.

Definition setItem (key value : jsstring) (items : Items) : Items :=
  (key, value) :: removeItem key items.

(** A Web Storage area of the browser.  Every access throws when the area
    is not readable (storage disabled or blocked); [setItem] also
    throws when the area takes no write (quota reached, private
    browsing). *)
Record WebStorage := mkWebStorage {
  readable : bool;
  writable : bool;
  items : Items
}.

Record Browser := mkBrowser {
  localStorage : WebStorage;
  sessionStorage : WebStorage;
  memoryStorage : Items
}.

(** [storage.getItem(key)] inside [try]: [None] when it throws or
    returns null. *)
Definition try_getItem (key : jsstring) (s : WebStorage) : option jsstring :=
  if readable s then getItem key (items s) else None.

(** [storage.setItem(key, value)] inside [try]: [None] when it throws. *)
Definition try_setItem (key value : jsstring) (s : WebStorage)
  : option WebStorage :=
  if readable s && writable s
  then Some (mkWebStorage (readable s) (writable s) (setItem key value (items s)))
  else None.

(** [storage.removeItem(key)] inside [try]: the area is left as it is
    when it throws. *)
Definition try_removeItem (key : jsstring) (s : WebStorage) : WebStorage :=
  if readable s
  then mkWebStorage (readable s) (writable s) (removeItem key (items s))
  else s.

Definition safeGetItem (b : Browser) (key defaultValue : jsstring)
  : StorageResult :=
  match try_getItem key (localStorage b) with
  | Some v => mkStorageResult v persistent
  | None =>
      match try_getItem key (sessionStorage b) with
      | Some v => mkStorageResult v session
      | None =>
          match getItem key (memoryStorage b) with
          | Some v => mkStorageResult v memory
          | None => mkStorageResult defaultValue memory
          end
      end
  end.

Definition safeSetItem (b : Browser) (key value : jsstring)
  : StorageType * Browser :=
  match try_setItem key value (localStorage b) with
  | Some l => (persistent, mkBrowser l (sessionStorage b) (memoryStorage b))
  | None =>
      match try_setItem key value (sessionStorage b) with
      | Some s => (session, mkBrowser (localStorage b) s (memoryStorage b))
      | None =>
          (memory,
           mkBrowser (localStorage b) (sessionStorage b)
                     (setItem key value (memoryStorage b)))
      end
  end.

Definition safeRemoveItem (b : Browser) (key : jsstring) : Browser :=
  mkBrowser (try_removeItem key (localStorage b))
            (try_removeItem key (sessionStorage b))
            (removeItem key (memoryStorage b)).

Definition testKey : jsstring := js "__storage_test__".

Definition isPersistentStorageAvailable (b : Browser) : bool * Browser :=
  match try_setItem testKey (js "test") (localStorage b) with
  | Some l =>
      (true,
       mkBrowser (try_removeItem testKey l) (sessionStorage b)
                 (memoryStorage b))
  | None => (false, b)
  end.

End Storage.

(* ===================================================================== *)
(** * More vocabulary                                                     *)
(* ===================================================================== *)

Module Properties.
Import Js Arxiv Tools Spec Search.

(** Every white space of [s] is a plain space. *)
Definition only_plain_spaces (s : jsstring) : bool :=
  forallb (fun c => negb (is_white_space c) || (c =? 32)%N) s.

(** No two white spaces of [s] are adjacent. *)
Fixpoint no_double_space (s : jsstring) : bool :=
  match s with
  | c :: s' =>
      match s' with
      | c' :: _ => negb (is_white_space c && is_white_space c')
      | [] => true
      end && no_double_space s'
  | [] => true
  end.

Definition starts_clean (s : jsstring) : bool :=
  match s with c :: _ => negb (is_white_space c) | [] => true end.

(** [s] neither starts nor ends with white space. *)
Definition trimmed (s : jsstring) : bool :=
  starts_clean s && starts_clean (rev s).

(** The normal form of a title or abstract: single plain spaces between
    words, none at either end. *)
Definition normalized_text (s : jsstring) : bool :=
  only_plain_spaces s && no_double_space s && trimmed s.

(** Letters, digits and the punctuation that stands for itself in a
    query string or separates its parts. *)
Definition url_safe (c : code_unit) : bool :=
  is_alnum c
  || existsb (N.eqb c) [42; 45; 46; 95; 37; 43; 38; 61; 58; 47; 63]%N.

(** A JavaScript string: every code unit is below 2^16. *)
Definition is_code_unit (c : code_unit) : bool := (c <? 65536)%N.

Definition is_js_string (s : jsstring) : bool := forallb is_code_unit s.

Definition units (s : jsstring) : Prop := Forall (fun c => (c < 65536)%N) s.

(** Octets. *)
Definition bytes (l : list N) : Prop := Forall (fun b => (b < 256)%N) l.

(** Every code unit of [s] is safe in a query string. *)
Definition safe (s : jsstring) : Prop := Forall (fun c => url_safe c = true) s.


(** The canonical id of the identifier URI of an entry. *)
Definition entry_canonical_id (e : AtomEntry) : jsstring :=
  canonical (normalizeArxivId (or_default (entry_id e) [])).

Definition nonempty (s : jsstring) : Prop := s <> [].

(** The keys of a table are pairwise distinct. *)
Definition unique_ids (table : list SavedPaperRow) : Prop :=
  NoDup (map arxiv_id table).

Definition unique_keys (table : list SummaryRow) : Prop :=
  NoDup (map summary_key table).

End Properties.

Module MoreSamples.
Import Js Arxiv Tools Samples.

(** An entry with the required fields only, published at the given date. *)
Definition entry_dated (published : jsstring) : AtomEntry :=
  mkEntry (Some (Text (js "http://arxiv.org/abs/2301.01234v2")))
          (Some (Text (js "Diffusion"))) (Some published)
          None None None None None.

(** A clock for two dates: 400 and 5 days before the time of
    [world_of_feed]. *)
Definition sample_clock (s : jsstring) : option Z :=
  if str_eqb s (js "old") then Some (1700000000000 - 400 * 86400000)%Z
  else if str_eqb s (js "new") then Some (1700000000000 - 5 * 86400000)%Z
  else None.

(** A world without network. *)
Definition offline_world : World :=
  mkWorld (fun _ => Rejects) (fun _ => XmlThrows) (fun _ => None)
          1700000000000%N.

End MoreSamples.

Ltac bool_lia :=
  rewrite ?orb_true_iff, ?andb_true_iff, ?N.leb_le, ?N.eqb_eq, ?N.ltb_lt;
  lia.

(* ===================================================================== *)
(** * Facts about strings and the two regular expressions                 *)
(* ===================================================================== *)

Import Js Arxiv Tools Spec.

Unset Implicit Arguments.

(** Boolean comparisons on code units, as hypotheses and as goals. *)
Ltac nbool :=
  repeat match goal with
    | H : (_ && _) = true |- _ => apply andb_true_iff in H as [? ?]
    | H : (_ <=? _)%N = true |- _ => apply N.leb_le in H
    | H : (_ =? _)%N = true |- _ => apply N.eqb_eq in H
    end.

Ltac ncases :=
  repeat match goal with
    | |- context [N.eqb ?a ?b] => destruct (N.eqb_spec a b)
    | |- context [N.leb ?a ?b] => destruct (N.leb_spec a b)
    end;
  simpl; try reflexivity; try lia.


(** The examples of the repository's unit tests. *)

Example normalize_new_style_versioned :
  normalizeArxivId (js "2301.01234v2")
  = mkNormalized (js "2301.01234") (Some 2%N) (Some (js "2301.01234v2")).
Proof. reflexivity. Qed.

Example normalize_new_style_plain :
  normalizeArxivId (js "2301.01234") = mkNormalized (js "2301.01234") None None.
Proof. reflexivity. Qed.

Example normalize_old_style :
  normalizeArxivId (js "cs/9901001v3")
  = mkNormalized (js "cs/9901001") (Some 3%N) (Some (js "cs/9901001v3")).
Proof. reflexivity. Qed.

Example normalize_hyphenated_subject :
  normalizeArxivId (js "hep-th/9901001v1")
  = mkNormalized (js "hep-th/9901001") (Some 1%N) (Some (js "hep-th/9901001v1")).
Proof. reflexivity. Qed.

Example normalize_abs_url :
  normalizeArxivId (js "http://arxiv.org/abs/2301.01234v2")
  = mkNormalized (js "2301.01234") (Some 2%N) (Some (js "2301.01234v2")).
Proof. reflexivity. Qed.

Example normalize_pdf_url :
  normalizeArxivId (js "https://arxiv.org/pdf/2301.01234v2.pdf")
  = mkNormalized (js "2301.01234") (Some 2%N) (Some (js "2301.01234v2")).
Proof. reflexivity. Qed.

Example normalize_url_plain :
  normalizeArxivId (js "https://arxiv.org/abs/2301.01234")
  = mkNormalized (js "2301.01234") None None.
Proof. reflexivity. Qed.

Example normalize_unparseable :
  normalizeArxivId [] = mkNormalized [] None None.
Proof. reflexivity. Qed.

Example parse_single_entry :
  parseArxivAtom (fun _ => Samples.feed_of [Samples.entry_ok]) (js "<feed/>")
  = [Samples.paper_ok].
Proof. reflexivity. Qed.

Example parse_document_without_feed :
  parseArxivAtom (fun _ => XmlParsed (mkDocument None)) (js "<html/>") = [].
Proof. reflexivity. Qed.

Lemma Some_eq {A} (a b : A) : Some a = Some b -> a = b.
Proof. congruence. Qed.

Lemma str_eqb_eq (a b : jsstring) : str_eqb a b = true <-> a = b.
Proof.
  revert b; induction a as [|x a IH]; intros [|y b]; simpl;
    split; intro H; try congruence; try discriminate.
  - apply andb_true_iff in H as [H1 H2].
    apply N.eqb_eq in H1. apply IH in H2. congruence.
  - inversion H; subst. rewrite N.eqb_refl. simpl. now apply IH.
Qed.

Lemma str_eqb_refl (a : jsstring) : str_eqb a a = true.
Proof. now apply str_eqb_eq. Qed.

Lemma str_eqb_neq (a b : jsstring) : str_eqb a b = false <-> a <> b.
Proof.
  split; intro H.
  - intro E. apply str_eqb_eq in E. congruence.
  - destruct (str_eqb a b) eqn:E; [|reflexivity].
    apply str_eqb_eq in E. contradiction.
Qed.

Lemma truthy_nonempty (s : jsstring) : truthy s = true <-> s <> [].
Proof.
  destruct s; unfold truthy; simpl; split; intro H;
    try reflexivity; try discriminate.
  now elim H.
Qed.

Lemma take_drop_while p s : take_while p s ++ drop_while p s = s.
Proof.
  induction s as [|c s IH]; simpl; [reflexivity|].
  destruct (p c); simpl; [now rewrite IH | reflexivity].
Qed.

Lemma take_while_all p s : forallb p (take_while p s) = true.
Proof.
  induction s as [|c s IH]; simpl; [reflexivity|].
  destruct (p c) eqn:E; simpl; [now rewrite E | reflexivity].
Qed.

Lemma strip_prefix_app pat s r : strip_prefix pat s = Some r -> s = pat ++ r.
Proof.
  revert s; induction pat as [|p pat IH]; intros [|c s]; simpl; intro H;
    try congruence.
  destruct (N.eqb_spec p c); [|discriminate].
  subst. f_equal. now apply IH.
Qed.

(** ** The lazy capture *)

Section LazyDotsFacts.
Variable B : Type.
Variable accept : jsstring -> option B.

(** The capture is the shortest one that leaves an accepted tail. *)
Lemma lazy_dots_app (X : jsstring) : forall acc tail b,
  no_line_terminator X = true ->
  accept tail = Some b ->
  (forall X1 X2, X = X1 ++ X2 -> X2 <> [] -> accept (X2 ++ tail) = None) ->
  lazy_dots accept acc (X ++ tail) = Some (acc ++ X, b).
Proof.
  induction X as [|c X IH]; intros acc tail b Hlt Hacc Hmin; simpl.
  - rewrite app_nil_r. destruct tail; simpl; now rewrite Hacc.
  - assert (Hc0 : accept (c :: X ++ tail) = None)
      by (apply (Hmin [] (c :: X) eq_refl); discriminate).
    rewrite Hc0.
    unfold no_line_terminator in Hlt. simpl in Hlt.
    apply andb_true_iff in Hlt as [Hc Hlt].
    apply negb_true_iff in Hc. rewrite Hc.
    rewrite (IH (acc ++ [c]) tail b Hlt Hacc).
    + now rewrite <- app_assoc.
    + intros X1 X2 E HX2. apply (Hmin (c :: X1) X2); [|assumption].
      simpl. now rewrite E.
Qed.

Lemma dot_plus_lazy_app c X tail b :
  no_line_terminator (c :: X) = true ->
  accept tail = Some b ->
  (forall X1 X2, X = X1 ++ X2 -> X2 <> [] -> accept (X2 ++ tail) = None) ->
  dot_plus_lazy accept ((c :: X) ++ tail) = Some (c :: X, b).
Proof.
  intros Hlt Hacc Hmin. simpl.
  unfold no_line_terminator in Hlt. simpl in Hlt.
  apply andb_true_iff in Hlt as [Hc Hlt].
  apply negb_true_iff in Hc. rewrite Hc.
  now rewrite (lazy_dots_app X [c] tail b Hlt Hacc Hmin).
Qed.

(** What a successful capture says: it splits the input, and the tail
    was accepted. *)
Lemma lazy_dots_sound rest : forall acc cap b,
  lazy_dots accept acc rest = Some (cap, b) ->
  exists tail, acc ++ rest = cap ++ tail /\ accept tail = Some b.
Proof.
  induction rest as [|c rest IH]; intros acc cap b H; simpl in H.
  - destruct (accept []) eqn:E; [|discriminate].
    inversion H; subst. now exists [].
  - destruct (accept (c :: rest)) eqn:E.
    + inversion H; subst. now exists (c :: rest).
    + destruct (is_line_terminator c); [discriminate|].
      apply IH in H as (tail & H1 & H2).
      exists tail. split; [|assumption].
      now rewrite <- H1, <- app_assoc.
Qed.

Lemma dot_plus_lazy_sound s cap b :
  dot_plus_lazy accept s = Some (cap, b) ->
  exists tail, s = cap ++ tail /\ accept tail = Some b.
Proof.
  destruct s as [|c rest]; simpl; [discriminate|].
  destruct (is_line_terminator c); [discriminate|].
  intro H. apply lazy_dots_sound in H. exact H.
Qed.
End LazyDotsFacts.

(** ** The version expression [/^(.+?)(?:v(\d+))?$/] *)

Lemma forallb_digit_app_v (X K : jsstring) :
  forallb is_digit (X ++ 118%N :: K) = false.
Proof.
  rewrite forallb_app. simpl.
  change (is_digit 118%N) with false. now rewrite andb_false_r.
Qed.

Lemma accept_version_after (X2 K : jsstring) :
  X2 <> [] -> accept_version_end (X2 ++ 118%N :: K) = None.
Proof.
  destruct X2 as [|x X2]; [congruence|]. intros _. simpl.
  rewrite forallb_digit_app_v. now rewrite andb_false_r.
Qed.

Lemma versionMatch_versioned (B K : jsstring) :
  B <> [] -> no_line_terminator B = true ->
  K <> [] -> forallb is_digit K = true ->
  versionMatch (B ++ 118%N :: K) = Some (B, Some K).
Proof.
  intros HB Hlt HK Hd. destruct B as [|c B]; [congruence|].
  unfold versionMatch. apply dot_plus_lazy_app; trivial.
  - simpl. rewrite Hd. apply truthy_nonempty in HK. now rewrite HK.
  - intros X1 X2 _ HX2. now apply accept_version_after.
Qed.

Lemma ends_with_version_suffix_app (X1 X2 : jsstring) :
  ends_with_version_suffix (X1 ++ X2) = false ->
  ends_with_version_suffix X2 = false.
Proof.
  induction X1 as [|c X1 IH]; simpl; [trivial|].
  intro H. apply orb_false_iff in H as [_ H]. now apply IH.
Qed.

Lemma ends_with_version_suffix_here (s : jsstring) :
  ends_with_version_suffix s = false -> is_version_suffix s = false.
Proof.
  destruct s; simpl; intro H; [reflexivity|].
  now apply orb_false_iff in H as [H _].
Qed.

Lemma accept_version_none (X2 : jsstring) :
  X2 <> [] -> is_version_suffix X2 = false -> accept_version_end X2 = None.
Proof.
  destruct X2; [congruence|]. simpl. intros _ H. now rewrite H.
Qed.

Lemma versionMatch_plain (B : jsstring) :
  B <> [] -> no_line_terminator B = true ->
  ends_with_version_suffix B = false ->
  versionMatch B = Some (B, None).
Proof.
  destruct B as [|c B]; [congruence|]. intros _ Hlt He.
  unfold versionMatch. rewrite <- (app_nil_r (c :: B)) at 1.
  apply dot_plus_lazy_app; trivial.
  intros X1 X2 E HX2. rewrite app_nil_r.
  apply accept_version_none; trivial.
  apply ends_with_version_suffix_here.
  apply (ends_with_version_suffix_app (c :: X1)). simpl. now rewrite <- E.
Qed.

(** ** The URL expression [/arxiv\.org\/(?:abs|pdf)\/(.+?)(?:\.pdf)?$/i] *)

Lemma urlMatch_eq (s : jsstring) :
  urlMatch s =
  match url_match_here s with
  | Some cap => Some cap
  | None => match s with [] => None | _ :: s' => urlMatch s' end
  end.
Proof. destruct s; reflexivity. Qed.

Lemma fold_case_slash (c : code_unit) :
  (fold_case c =? 47)%N = (c =? 47)%N.
Proof.
  unfold fold_case.
  destruct ((97 <=? c)%N && (c <=? 122)%N) eqn:E; [|reflexivity].
  apply andb_true_iff in E as [E1 E2].
  apply N.leb_le in E1. apply N.leb_le in E2.
  destruct (N.eqb_spec (c - 32)%N 47%N); destruct (N.eqb_spec c 47%N);
    try reflexivity; lia.
Qed.

Lemma ci_eqb_slash (p c : code_unit) :
  ci_eqb p c = true -> (47 =? p)%N = (47 =? c)%N.
Proof.
  unfold ci_eqb. intro H. apply N.eqb_eq in H.
  rewrite (N.eqb_sym 47%N p), (N.eqb_sym 47%N c).
  now rewrite <- (fold_case_slash p), <- (fold_case_slash c), H.
Qed.

Lemma strip_prefix_ci_app (pat r : jsstring) :
  strip_prefix_ci pat (pat ++ r) = Some r.
Proof.
  induction pat as [|p pat IH]; simpl; [reflexivity|].
  unfold ci_eqb. now rewrite N.eqb_refl.
Qed.

Lemma count_slash_cons_eq (c : code_unit) (s : jsstring) :
  count_slash (c :: s) = (if (47 =? c)%N then 1 else 0) + count_slash s.
Proof.
  unfold count_slash. cbn [filter]. now destruct (47 =? c)%N.
Qed.

Lemma strip_prefix_ci_slashes (pat : jsstring) : forall s r,
  strip_prefix_ci pat s = Some r ->
  count_slash s = count_slash pat + count_slash r.
Proof.
  induction pat as [|p pat IH]; intros s r H; simpl in H.
  - now inversion H.
  - destruct s as [|c s]; [discriminate|].
    destruct (ci_eqb p c) eqn:E; [|discriminate].
    apply IH in H. apply ci_eqb_slash in E.
    rewrite !count_slash_cons_eq, E, H. lia.
Qed.

Lemma strip_prefix_ci_length (pat : jsstring) : forall s r,
  strip_prefix_ci pat s = Some r ->
  List.length s = List.length pat + List.length r.
Proof.
  induction pat as [|p pat IH]; intros s r H; simpl in H.
  - now inversion H.
  - destruct s as [|c s]; [discriminate|].
    destruct (ci_eqb p c); [|discriminate].
    apply IH in H. simpl. lia.
Qed.

Lemma matches_ci_length (pat s : jsstring) :
  matches_ci pat s = true -> List.length s = List.length pat.
Proof.
  unfold matches_ci. destruct (strip_prefix_ci pat s) as [[|? ?]|] eqn:E;
    try discriminate.
  intros _. apply strip_prefix_ci_length in E. simpl in E. lia.
Qed.

Lemma url_match_here_slashes (s cap : jsstring) :
  url_match_here s = Some cap -> 2 <= count_slash s.
Proof.
  unfold url_match_here.
  destruct (strip_prefix_ci (js "arxiv.org/abs/") s) eqn:E1.
  - intros _. apply strip_prefix_ci_slashes in E1. rewrite E1.
    change (count_slash (js "arxiv.org/abs/")) with 2. lia.
  - destruct (strip_prefix_ci (js "arxiv.org/pdf/") s) eqn:E2; [|discriminate].
    intros _. apply strip_prefix_ci_slashes in E2. rewrite E2.
    change (count_slash (js "arxiv.org/pdf/")) with 2. lia.
Qed.

Lemma count_slash_cons (c : code_unit) (s : jsstring) :
  count_slash s <= count_slash (c :: s).
Proof. rewrite count_slash_cons_eq. lia. Qed.

Lemma count_slash_app (a b : jsstring) :
  count_slash (a ++ b) = count_slash a + count_slash b.
Proof. unfold count_slash. now rewrite filter_app, length_app. Qed.

Lemma urlMatch_slashes (s : jsstring) : forall cap,
  urlMatch s = Some cap -> 2 <= count_slash s.
Proof.
  induction s as [|c s IH]; intros cap; rewrite urlMatch_eq.
  - discriminate.
  - destruct (url_match_here (c :: s)) eqn:E.
    + intros _. now apply url_match_here_slashes in E.
    + intro H. apply IH in H. pose proof (count_slash_cons c s). lia.
Qed.

(** A string with fewer than two slashes is no arXiv URL. *)
Lemma urlMatch_none (s : jsstring) : count_slash s < 2 -> urlMatch s = None.
Proof.
  intro H. destruct (urlMatch s) eqn:E; [|reflexivity].
  apply urlMatch_slashes in E. lia.
Qed.

Lemma url_match_here_not_a (c : code_unit) (s : jsstring) :
  ci_eqb 97%N c = false -> url_match_here (c :: s) = None.
Proof.
  intro H. unfold url_match_here.
  change (js "arxiv.org/abs/") with (97%N :: js "rxiv.org/abs/").
  change (js "arxiv.org/pdf/") with (97%N :: js "rxiv.org/pdf/").
  cbn [strip_prefix_ci]. now rewrite H.
Qed.

(** The expression does not start inside a prefix without the letter a. *)
Lemma urlMatch_skip (pre s : jsstring) :
  forallb (fun c => negb (ci_eqb 97%N c)) pre = true ->
  urlMatch (pre ++ s) = urlMatch s.
Proof.
  induction pre as [|c pre IH]; simpl; [reflexivity|].
  intro H. apply andb_true_iff in H as [Hc H].
  apply negb_true_iff in Hc.
  change (urlMatch (c :: pre ++ s) = urlMatch s).
  rewrite urlMatch_eq, (url_match_here_not_a c (pre ++ s) Hc). now apply IH.
Qed.

Lemma ci_f_not_digit (d : code_unit) :
  ci_eqb 102%N d = true -> is_digit d = false.
Proof.
  unfold ci_eqb, is_digit. change (fold_case 102%N) with 70%N.
  unfold fold_case. intro H.
  destruct ((97 <=? d)%N && (d <=? 122)%N) eqn:E.
  - apply andb_true_iff in E as [E1 _]. apply N.leb_le in E1.
    destruct (N.leb_spec d 57%N); [lia|]. now rewrite andb_false_r.
  - apply N.eqb_eq in H. subst d. reflexivity.
Qed.

Lemma accept_pdf_end_long (X2 : jsstring) :
  X2 <> [] -> accept_pdf_end (X2 ++ js ".pdf") = None.
Proof.
  intro H. unfold accept_pdf_end.
  destruct (matches_ci (js ".pdf") (X2 ++ js ".pdf")) eqn:E.
  - apply matches_ci_length in E. rewrite length_app in E.
    destruct X2; [congruence|]. simpl in E. lia.
  - destruct X2; [congruence|]. reflexivity.
Qed.

Lemma accept_pdf_end_digit (X2 : jsstring) (d : code_unit) :
  is_digit d = true -> accept_pdf_end (X2 ++ [d]) = None.
Proof.
  intro Hd. unfold accept_pdf_end.
  assert (E : matches_ci (js ".pdf") (X2 ++ [d]) = false).
  { destruct (matches_ci (js ".pdf") (X2 ++ [d])) eqn:E; [|reflexivity].
    pose proof (matches_ci_length _ _ E) as L.
    rewrite length_app in L. simpl in L.
    destruct X2 as [|a [|b [|c [|e X2]]]]; simpl in L; try lia.
    unfold matches_ci in E.
    change (js ".pdf") with [46%N; 112%N; 100%N; 102%N] in E.
    simpl in E.
    destruct (ci_eqb 46%N a); [|discriminate].
    destruct (ci_eqb 112%N b); [|discriminate].
    destruct (ci_eqb 100%N c); [|discriminate].
    destruct (ci_eqb 102%N d) eqn:F; [|discriminate].
    apply ci_f_not_digit in F. congruence. }
  rewrite E. destruct X2; reflexivity.
Qed.

Lemma strip_abs_at_pdf (r : jsstring) :
  strip_prefix_ci (js "arxiv.org/abs/") (js "arxiv.org/pdf/" ++ r) = None.
Proof. reflexivity. Qed.

(** At the endpoint marker the capture is the identifier: an optional
    [.pdf] after it is left out. *)
Lemma urlMatch_at_marker (marker X pdf : jsstring) :
  marker = js "arxiv.org/abs/" \/ marker = js "arxiv.org/pdf/" ->
  X <> [] -> no_line_terminator X = true ->
  (exists X' d, X = X' ++ [d] /\ is_digit d = true) ->
  pdf = [] \/ pdf = js ".pdf" ->
  urlMatch (marker ++ X ++ pdf) = Some X.
Proof.
  intros Hm HX Hlt (X' & d & EX & Hd) Hpdf.
  assert (Hcap : dot_plus_lazy accept_pdf_end (X ++ pdf) = Some (X, tt)).
  { destruct X as [|c X0]; [congruence|].
    apply dot_plus_lazy_app; trivial.
    - destruct Hpdf; subst pdf; reflexivity.
    - intros X1 X2 E HX2.
      destruct Hpdf; subst pdf.
      + rewrite app_nil_r.
        assert (exists X2', X2 = X2' ++ [d]) as [X2' ->].
        { destruct (exists_last HX2) as (X2' & d' & ->).
          exists X2'. rewrite E in EX.
          change (c :: X1 ++ X2' ++ [d']) with ((c :: X1) ++ X2' ++ [d']) in EX.
          rewrite app_assoc in EX. apply app_inj_tail in EX as [_ ->].
          reflexivity. }
        now apply accept_pdf_end_digit.
      + now apply accept_pdf_end_long. }
  rewrite urlMatch_eq. unfold url_match_here.
  destruct Hm; subst marker.
  - now rewrite strip_prefix_ci_app, Hcap.
  - now rewrite strip_abs_at_pdf, strip_prefix_ci_app, Hcap.
Qed.

(** ** normalizeArxivId *)

Lemma normalize_of_id (idOrUrl id : jsstring) :
  urlMatch idOrUrl = Some id -> urlMatch id = None ->
  normalizeArxivId idOrUrl = normalizeArxivId id.
Proof.
  intros H1 H2. unfold normalizeArxivId. now rewrite H1, H2.
Qed.

Lemma normalize_plain (B : jsstring) :
  urlMatch B = None -> versionMatch B = Some (B, None) ->
  normalizeArxivId B = mkNormalized B None None.
Proof.
  intros H1 H2. unfold normalizeArxivId. now rewrite H1, H2.
Qed.

Lemma normalize_versioned (X B K : jsstring) :
  urlMatch X = None -> versionMatch X = Some (B, Some K) -> K <> [] ->
  normalizeArxivId X = mkNormalized B (Some (parseInt10 K)) (Some X).
Proof.
  intros H1 H2 HK. unfold normalizeArxivId. rewrite H1, H2.
  apply truthy_nonempty in HK. now rewrite HK.
Qed.

(** ** The grammar of identifiers *)

Lemma digit_no_line_terminator (d : code_unit) :
  is_digit d = true -> negb (is_line_terminator d) = true.
Proof. unfold is_digit, is_line_terminator. intro H. nbool. ncases. Qed.

Lemma digit_not_slash (d : code_unit) :
  is_digit d = true -> (47 =? d)%N = false.
Proof. unfold is_digit. intro H. nbool. ncases. Qed.

Lemma digit_not_v (d : code_unit) :
  is_digit d = true -> (d =? 118)%N = false.
Proof. unfold is_digit. intro H. nbool. ncases. Qed.

Lemma subject_no_line_terminator (c : code_unit) :
  is_subject_char c = true -> negb (is_line_terminator c) = true.
Proof.
  unfold is_subject_char, is_line_terminator. intro H.
  repeat (apply orb_true_iff in H as [H|H]); nbool; ncases.
Qed.

Lemma subject_not_slash (c : code_unit) :
  is_subject_char c = true -> (47 =? c)%N = false.
Proof.
  unfold is_subject_char. intro H.
  repeat (apply orb_true_iff in H as [H|H]); nbool; ncases.
Qed.

Lemma forallb_impl {A} (p q : A -> bool) (l : list A) :
  (forall x, p x = true -> q x = true) ->
  forallb p l = true -> forallb q l = true.
Proof.
  intro Hpq. induction l as [|x l IH]; simpl; [trivial|].
  intro H. apply andb_true_iff in H as [H1 H2].
  now rewrite (Hpq x H1), IH.
Qed.

Lemma count_slash_none (p : code_unit -> bool) (s : jsstring) :
  (forall c, p c = true -> (47 =? c)%N = false) ->
  forallb p s = true -> count_slash s = 0.
Proof.
  intro Hp. induction s as [|c s IH]; simpl; [reflexivity|].
  intro H. apply andb_true_iff in H as [H1 H2].
  now rewrite count_slash_cons_eq, (Hp c H1), IH.
Qed.

Lemma digits_no_line_terminator (D : jsstring) :
  forallb is_digit D = true -> no_line_terminator D = true.
Proof. apply forallb_impl, digit_no_line_terminator. Qed.

Lemma no_line_terminator_app (a b : jsstring) :
  no_line_terminator (a ++ b) = no_line_terminator a && no_line_terminator b.
Proof. apply forallb_app. Qed.

Lemma digits_no_version_suffix (D : jsstring) :
  forallb is_digit D = true -> ends_with_version_suffix D = false.
Proof.
  induction D as [|d D IH]; simpl; [reflexivity|].
  intro H. apply andb_true_iff in H as [H1 H2].
  now rewrite (digit_not_v d H1), IH.
Qed.

Lemma separator_no_version_suffix (P : jsstring) (sep : code_unit) (D : jsstring) :
  sep = 46%N \/ sep = 47%N -> forallb is_digit D = true ->
  ends_with_version_suffix (P ++ sep :: D) = false.
Proof.
  intros Hsep HD.
  assert (Hnd : is_digit sep = false) by (destruct Hsep; subst; reflexivity).
  induction P as [|c P IH].
  - simpl. rewrite (digits_no_version_suffix D HD).
    destruct Hsep; subst; reflexivity.
  - change ((c :: P) ++ sep :: D) with (c :: (P ++ sep :: D)).
    cbn [ends_with_version_suffix is_version_suffix].
    rewrite IH, forallb_app. simpl forallb.
    rewrite Hnd. simpl. now rewrite !andb_false_r.
Qed.

(** What the shape of an identifier gives the two expressions. *)
Lemma base_shape_facts (B : jsstring) :
  base_shape B ->
  B <> [] /\ no_line_terminator B = true
  /\ ends_with_version_suffix B = false
  /\ (exists B' d, B = B' ++ [d] /\ is_digit d = true)
  /\ count_slash B <= 1.
Proof.
  intros (P & sep & D & -> & HP & HPs & Hsep & HD & HDd).
  repeat split.
  - destruct P; discriminate.
  - rewrite no_line_terminator_app, HP. simpl.
    change (no_line_terminator (sep :: D))
      with (negb (is_line_terminator sep) && no_line_terminator D).
    rewrite (digits_no_line_terminator D HDd).
    destruct Hsep; subst; reflexivity.
  - now apply separator_no_version_suffix.
  - destruct (exists_last HD) as (D' & d & ->).
    exists (P ++ sep :: D'), d. split.
    + now rewrite <- app_assoc.
    + rewrite forallb_app in HDd. simpl in HDd.
      apply andb_true_iff in HDd as [_ HDd].
      now rewrite andb_true_r in HDd.
  - rewrite count_slash_app, HPs, count_slash_cons_eq.
    rewrite (count_slash_none is_digit D digit_not_slash HDd).
    destruct (47 =? sep)%N; simpl; lia.
Qed.

Lemma version_shape_facts (V : jsstring) :
  version_shape V ->
  no_line_terminator V = true /\ count_slash V = 0
  /\ (V = [] \/ exists V' d, V = V' ++ [d] /\ is_digit d = true).
Proof.
  intros [->|(K & -> & HK & HKd)]; [repeat split; now left|].
  repeat split.
  - change (no_line_terminator (118%N :: K)) with (no_line_terminator K).
    now apply digits_no_line_terminator.
  - rewrite count_slash_cons_eq.
    now rewrite (count_slash_none is_digit K digit_not_slash HKd).
  - right. destruct (exists_last HK) as (K' & d & ->).
    exists (118%N :: K'), d. split; [reflexivity|].
    rewrite forallb_app in HKd. simpl in HKd.
    apply andb_true_iff in HKd as [_ HKd].
    now rewrite andb_true_r in HKd.
Qed.

(** An identifier with its optional version: what the expressions see. *)
Lemma id_shape_facts (B V : jsstring) :
  base_shape B -> version_shape V ->
  B ++ V <> [] /\ no_line_terminator (B ++ V) = true
  /\ (exists X' d, B ++ V = X' ++ [d] /\ is_digit d = true)
  /\ urlMatch (B ++ V) = None.
Proof.
  intros HB HV.
  destruct (base_shape_facts B HB) as (Hne & Hlt & _ & (B' & d & EB & Hd) & Hs).
  destruct (version_shape_facts V HV) as (HVlt & HVs & HVd).
  repeat split.
  - destruct B; [congruence | discriminate].
  - now rewrite no_line_terminator_app, Hlt, HVlt.
  - destruct HVd as [->|(V' & d' & -> & Hd')].
    + exists B', d. now rewrite app_nil_r.
    + exists (B ++ V'), d'. now rewrite app_assoc.
  - apply urlMatch_none. rewrite count_slash_app. lia.
Qed.

(** The canonical part of an identifier of the grammar is its base. *)
Lemma normalize_id_shape (B V : jsstring) :
  base_shape B -> version_shape V ->
  canonical (normalizeArxivId (B ++ V)) = B.
Proof.
  intros HB HV.
  destruct (id_shape_facts B V HB HV) as (_ & _ & _ & Hurl).
  destruct (base_shape_facts B HB) as (Hne & Hlt & Hev & _ & _).
  destruct HV as [->|(K & -> & HK & HKd)].
  - rewrite app_nil_r in *.
    now rewrite (normalize_plain B Hurl (versionMatch_plain B Hne Hlt Hev)).
  - now rewrite (normalize_versioned _ B K Hurl
                   (versionMatch_versioned B K Hne Hlt HK HKd) HK).
Qed.

Lemma normalize_base_shape (B : jsstring) :
  base_shape B -> canonical (normalizeArxivId B) = B.
Proof.
  intro HB. rewrite <- (app_nil_r B) at 1.
  apply normalize_id_shape; [assumption | now left].
Qed.

(** ** From the recognisers to the shapes *)

Lemma optional_version_shape (V : jsstring) :
  optional_version V = true -> version_shape V.
Proof.
  unfold optional_version. intro H. apply orb_true_iff in H as [H|H].
  - left. now destruct V.
  - right. destruct V as [|c K]; [discriminate|]. simpl in H.
    apply andb_true_iff in H as [H HKd].
    apply andb_true_iff in H as [Hc HK].
    apply N.eqb_eq in Hc. subst c. apply truthy_nonempty in HK.
    now exists K.
Qed.

Lemma digits_then_version_shape (lo hi : nat) (s : jsstring) :
  1 <= lo -> digits_then_version lo hi s = true ->
  exists D V, s = D ++ V /\ D <> [] /\ forallb is_digit D = true
              /\ version_shape V.
Proof.
  intros Hlo H. unfold digits_then_version in H.
  apply andb_true_iff in H as [H HV].
  apply andb_true_iff in H as [H1 _]. apply Nat.leb_le in H1.
  exists (take_while is_digit s), (drop_while is_digit s).
  repeat split.
  - symmetry. apply take_drop_while.
  - intro E. rewrite E in H1. simpl in H1. lia.
  - apply take_while_all.
  - now apply optional_version_shape.
Qed.

Lemma new_style_shape (s : jsstring) :
  new_style_id s = true ->
  exists B V, s = B ++ V /\ base_shape B /\ version_shape V.
Proof.
  destruct s as [|y1 [|y2 [|m1 [|m2 [|dot number]]]]]; try discriminate.
  unfold new_style_id. intro H.
  apply andb_true_iff in H as [H Hnum].
  apply andb_true_iff in H as [Hd Hdot].
  apply N.eqb_eq in Hdot. subst dot.
  apply digits_then_version_shape in Hnum as (D & V & -> & HD & HDd & HV);
    [|lia].
  exists ([y1; y2; m1; m2] ++ 46%N :: D), V. repeat split; trivial.
  exists [y1; y2; m1; m2], 46%N, D. repeat split; trivial.
  - now apply digits_no_line_terminator.
  - now apply (count_slash_none is_digit _ digit_not_slash).
  - now left.
Qed.

Lemma old_style_shape (s : jsstring) :
  old_style_id s = true ->
  exists B V, s = B ++ V /\ base_shape B /\ version_shape V.
Proof.
  unfold old_style_id. intro H. apply andb_true_iff in H as [_ H].
  pose proof (take_drop_while is_subject_char s) as Es.
  pose proof (take_while_all is_subject_char s) as Hsubj.
  destruct (drop_while is_subject_char s) as [|slash number]; [discriminate|].
  apply andb_true_iff in H as [Hslash Hnum].
  apply N.eqb_eq in Hslash. subst slash.
  apply digits_then_version_shape in Hnum as (D & V & -> & HD & HDd & HV);
    [|lia].
  exists (take_while is_subject_char s ++ 47%N :: D), V. repeat split; trivial.
  - rewrite <- Es at 1. now rewrite <- app_assoc.
  - exists (take_while is_subject_char s), 47%N, D. repeat split; trivial.
    + now apply (forallb_impl _ _ _ subject_no_line_terminator).
    + now apply (count_slash_none is_subject_char _ subject_not_slash).
    + now right.
Qed.

Lemma bare_id_shape (s : jsstring) :
  bare_id s = true ->
  exists B V, s = B ++ V /\ base_shape B /\ version_shape V.
Proof.
  unfold bare_id. intro H. apply orb_true_iff in H as [H|H].
  - now apply new_style_shape.
  - now apply old_style_shape.
Qed.

Lemma bare_id_dot_pdf_split (s : jsstring) :
  bare_id_dot_pdf s = true ->
  exists X, s = X ++ js ".pdf" /\ bare_id X = true.
Proof.
  unfold bare_id_dot_pdf. intro H.
  destruct (rev s) as [|f [|d [|p [|dot r]]]] eqn:E; try discriminate.
  apply andb_true_iff in H as [Hpdf Hid]. apply str_eqb_eq in Hpdf.
  exists (rev r). split; [|assumption].
  rewrite <- Hpdf, <- (rev_involutive s), E. simpl.
  now rewrite <- !app_assoc.
Qed.

Lemma strip_optional_split (pat s : jsstring) :
  s = pat ++ strip_optional pat s \/ s = strip_optional pat s.
Proof.
  unfold strip_optional. destruct (strip_prefix pat s) eqn:E.
  - left. now apply strip_prefix_app.
  - now right.
Qed.

(** A URL of the grammar: a prefix without the letter a, the endpoint
    marker, an identifier and an optional [.pdf]. *)
Lemma url_id_split (x : jsstring) :
  url_id x = true ->
  exists pre marker X pdf,
    x = pre ++ marker ++ X ++ pdf
    /\ forallb (fun c => negb (ci_eqb 97%N c)) pre = true
    /\ (marker = js "arxiv.org/abs/" \/ marker = js "arxiv.org/pdf/")
    /\ bare_id X = true
    /\ (pdf = [] \/ pdf = js ".pdf").
Proof.
  unfold url_id. intro H.
  assert (exists scheme r,
             x = scheme ++ r
             /\ (scheme = js "http://" \/ scheme = js "https://")
             /\ match strip_prefix (js "arxiv.org/abs/")
                        (strip_optional (js "www.") r),
                      strip_prefix (js "arxiv.org/pdf/")
                        (strip_optional (js "www.") r) with
                | None, None => false
                | Some body, _ | None, Some body =>
                    bare_id body || bare_id_dot_pdf body
                end = true) as (scheme & r & -> & Hscheme & Hr).
  { destruct (strip_prefix (js "http://") x) as [r|] eqn:E1.
    - exists (js "http://"), r. apply strip_prefix_app in E1. auto.
    - destruct (strip_prefix (js "https://") x) as [r|] eqn:E2;
        [|discriminate].
      exists (js "https://"), r. apply strip_prefix_app in E2. auto. }
  clear H.
  assert (exists www marker body,
             r = www ++ marker ++ body
             /\ (www = [] \/ www = js "www.")
             /\ (marker = js "arxiv.org/abs/" \/ marker = js "arxiv.org/pdf/")
             /\ bare_id body || bare_id_dot_pdf body = true)
    as (www & marker & body & -> & Hwww & Hmarker & Hbody).
  { destruct (strip_prefix (js "arxiv.org/abs/")
                (strip_optional (js "www.") r)) as [body|] eqn:E1.
    - apply strip_prefix_app in E1.
      destruct (strip_optional_split (js "www.") r) as [E|E];
        rewrite E1 in E.
      + exists (js "www."), (js "arxiv.org/abs/"), body. auto.
      + exists [], (js "arxiv.org/abs/"), body. auto.
    - destruct (strip_prefix (js "arxiv.org/pdf/")
                  (strip_optional (js "www.") r)) as [body|] eqn:E2;
        [|discriminate].
      apply strip_prefix_app in E2.
      destruct (strip_optional_split (js "www.") r) as [E|E];
        rewrite E2 in E.
      + exists (js "www."), (js "arxiv.org/pdf/"), body. auto.
      + exists [], (js "arxiv.org/pdf/"), body. auto. }
  assert (exists X pdf, body = X ++ pdf /\ bare_id X = true
                        /\ (pdf = [] \/ pdf = js ".pdf"))
    as (X & pdf & -> & HX & Hpdf).
  { apply orb_true_iff in Hbody as [Hb|Hb].
    - exists body, []. rewrite app_nil_r. auto.
    - apply bare_id_dot_pdf_split in Hb as (X & -> & HX).
      exists X, (js ".pdf"). auto. }
  exists (scheme ++ www), marker, X, pdf. repeat split; trivial.
  - now rewrite <- app_assoc.
  - destruct Hscheme; destruct Hwww; subst; reflexivity.
Qed.

(** Every valid raw identifier normalises to the base of its identifier. *)
Lemma valid_raw_id_canonical (x : jsstring) :
  valid_raw_id x = true ->
  exists B, base_shape B /\ canonical (normalizeArxivId x) = B.
Proof.
  unfold valid_raw_id. intro H. apply orb_true_iff in H as [H|H].
  - apply bare_id_shape in H as (B & V & -> & HB & HV).
    exists B. split; [assumption | now apply normalize_id_shape].
  - apply url_id_split in H as (pre & marker & X & pdf & -> & Hpre & Hm & HX & Hpdf).
    apply bare_id_shape in HX as (B & V & -> & HB & HV).
    destruct (id_shape_facts B V HB HV) as (Hne & Hlt & Hd & Hurl).
    exists B. split; [assumption|].
    rewrite (normalize_of_id _ (B ++ V)); trivial.
    + now apply normalize_id_shape.
    + rewrite urlMatch_skip by assumption.
      now apply urlMatch_at_marker.
Qed.

(* ===================================================================== *)
(** * Properties of the arXiv client                                      *)
(* ===================================================================== *)

Import Samples.

(** ** Identifier normalisation *)

(** C5: for every valid raw identifier (bare old-style or new-style, with
    or without a version suffix, as such or inside an abstract-page or
    PDF-page URL), normalising the canonical id again gives the same
    canonical id. *)
Theorem C5_normalize_idempotent (x : jsstring) :
  valid_raw_id x = true ->
  canonical (normalizeArxivId (canonical (normalizeArxivId x)))
  = canonical (normalizeArxivId x).
Proof.
  intro H. destruct (valid_raw_id_canonical x H) as (B & HB & ->).
  now apply normalize_base_shape.
Qed.

Lemma C5_normalize_idempotent_witness :
  valid_raw_id (js "https://arxiv.org/pdf/hep-th/9901001v3.pdf") = true
  /\ canonical (normalizeArxivId
       (canonical (normalizeArxivId
          (js "https://arxiv.org/pdf/hep-th/9901001v3.pdf"))))
     = canonical (normalizeArxivId
          (js "https://arxiv.org/pdf/hep-th/9901001v3.pdf")).
Proof.
  split; [reflexivity|].
  apply (C5_normalize_idempotent
           (js "https://arxiv.org/pdf/hep-th/9901001v3.pdf")).
  reflexivity.
Defined.

(** C6, as stated, fails: the expression removes one version suffix, so
    the canonical id of ["2301.01234v2v3"] is ["2301.01234v2"]. *)
Lemma C6_canonical_may_keep_a_suffix :
  ~ (forall x : jsstring,
       ends_with_version_suffix (canonical (normalizeArxivId x)) = false).
Proof.
  intro H. specialize (H (js "2301.01234v2v3")). vm_compute in H.
  discriminate.
Qed.

(** C6, amended: for every input, [versioned] is present exactly when
    [version] is, and then [versioned] is the canonical id followed by v
    and a non-empty string of digits, the suffix as the input writes it
    (one suffix is removed), and [version] is the number these digits
    denote when that number is below 2^53; for every valid raw identifier
    the canonical id does not end with a version suffix. *)
Theorem C6_normalized_id_invariant (x : jsstring) :
  (versioned (normalizeArxivId x) <> None
   <-> version (normalizeArxivId x) <> None)
  /\ (forall n, version (normalizeArxivId x) = Some n ->
        exists K, K <> [] /\ forallb is_digit K = true
                  /\ versioned (normalizeArxivId x)
                     = Some (canonical (normalizeArxivId x) ++ 118%N :: K)
                  /\ ((parseInt10 K < 2 ^ 53)%N -> n = parseInt10 K))
  /\ (valid_raw_id x = true ->
      ends_with_version_suffix (canonical (normalizeArxivId x)) = false).
Proof.
  split; [|split].
  - unfold normalizeArxivId.
    destruct (versionMatch _) as [[cap [ds|]]|]; simpl;
      try (destruct (truthy ds)); simpl; split; congruence.
  - intros n. unfold normalizeArxivId.
    set (id := match urlMatch x with Some cap => cap | None => x end).
    destruct (versionMatch id) as [[cap [ds|]]|] eqn:E; simpl;
      try discriminate.
    destruct (truthy ds) eqn:Hds; simpl; [|discriminate].
    intro Hn. inversion Hn; subst n.
    apply dot_plus_lazy_sound in E as (tail & Eid & Hacc).
    destruct tail as [|c K]; simpl in Hacc; [discriminate|].
    destruct ((c =? 118)%N && truthy K && forallb is_digit K) eqn:Hc;
      [|discriminate].
    inversion Hacc; subst ds.
    apply andb_true_iff in Hc as [Hc HKd].
    apply andb_true_iff in Hc as [Hc _]. apply N.eqb_eq in Hc. subst c.
    exists K. split; [now apply truthy_nonempty|].
    split; [exact HKd|]. split; [now rewrite Eid | trivial].
  - intro H. destruct (valid_raw_id_canonical x H) as (B & HB & ->).
    now destruct (base_shape_facts B HB) as (_ & _ & He & _).
Qed.

Lemma C6_normalized_id_invariant_witness :
  valid_raw_id (js "http://arxiv.org/abs/2301.01234v2") = true
  /\ version (normalizeArxivId (js "http://arxiv.org/abs/2301.01234v2"))
     = Some 2%N
  /\ (exists K, K <> [] /\ forallb is_digit K = true
                /\ versioned
                     (normalizeArxivId (js "http://arxiv.org/abs/2301.01234v2"))
                   = Some (canonical
                             (normalizeArxivId
                                (js "http://arxiv.org/abs/2301.01234v2"))
                           ++ 118%N :: K)
                /\ ((parseInt10 K < 2 ^ 53)%N -> 2%N = parseInt10 K))
  /\ ends_with_version_suffix
       (canonical (normalizeArxivId (js "http://arxiv.org/abs/2301.01234v2")))
     = false.
Proof.
  destruct (C6_normalized_id_invariant (js "http://arxiv.org/abs/2301.01234v2"))
    as (_ & Hversion & Hvalid).
  split; [reflexivity|]. split; [reflexivity|]. split.
  - apply (Hversion 2%N). reflexivity.
  - apply Hvalid. reflexivity.
Defined.

(** ** The query URL *)


(** C8, on the query of the repository's own test
    ([buildArxivQueryUrl("diffusion models")], expected to contain
    [search_query=all%3Adiffusion+models] or [...%20models]): the value
    set for [search_query] is the already escaped [all:diffusion%20models],
    not [all:diffusion models], and the URL carries it escaped a second
    time, as [all%3Adiffusion%2520models]. *)
Theorem C8_query_is_escaped_twice :
  search_query_value (js "diffusion models") no_options
  = Some (js "all:diffusion%20models")
  /\ search_query_value (js "diffusion models") no_options
     <> Some (js "all:" ++ js "diffusion models")
  /\ buildArxivQueryUrl (js "diffusion models") no_options
     = Some (js ("https://export.arxiv.org/api/query?"
                 ++ "search_query=all%3Adiffusion%2520models"
                 ++ "&start=0&max_results=10"
                 ++ "&sortBy=relevance&sortOrder=descending")).
Proof.
  split; [reflexivity|]. split; [|reflexivity].
  vm_compute. discriminate.
Qed.

(** With categories the value joins the escaped query and the category
    terms with literal plus signs. *)
Example search_query_value_with_categories :
  search_query_value (js "test")
    (mkOptions None None None None (Some [js "cs.AI"; js "cs.LG"]))
  = Some (js "all:(test)+AND+(cat:cs.AI+OR+cat:cs.LG)").
Proof. reflexivity. Qed.

(** ** The feed parser *)

(** What an entry holds when [parseEntry] makes a paper of it, and the
    paper. *)
Lemma parseEntry_inv (e : AtomEntry) (p : ArxivPaper) :
  parseEntry e = Some p ->
  exists i t d,
    id_element e = Some (Text i) /\ i <> []
    /\ title_element e = Some (Text t) /\ t <> []
    /\ entry_published e = Some d /\ d <> []
    /\ summary_element e <> Some NotText
    /\ p = mkPaper (canonical (normalizeArxivId i))
                   (versioned (normalizeArxivId i))
                   (version (normalizeArxivId i))
                   (clean_text t)
                   (truthy_values (map name (or_default (entry_author e) [])))
                   d (entry_updated e)
                   (match entry_summary e with
                    | Some a => clean_text a
                    | None => []
                    end)
                   (fst (resolve_links i (entry_link e)))
                   (match truthy_values
                            (map term (or_default (entry_category e) []))
                    with
                    | [] => None
                    | c :: cs => Some (c :: cs)
                    end)
                   (snd (resolve_links i (entry_link e))).
Proof.
  unfold parseEntry, entry_summary.
  destruct (id_element e) as [[i|]|]; try discriminate.
  destruct (truthy i) eqn:Hi; cbn [negb]; [|discriminate].
  destruct (title_element e) as [[t|]|]; try discriminate.
  destruct (truthy t) eqn:Ht; cbn [negb]; [|discriminate].
  destruct (entry_published e) as [d|]; [|discriminate].
  destruct (truthy d) eqn:Hd; cbn [negb]; [|discriminate].
  apply truthy_nonempty in Hi. apply truthy_nonempty in Ht.
  apply truthy_nonempty in Hd.
  rewrite (surjective_pairing (resolve_links i (entry_link e))).
  destruct (summary_element e) as [[a|]|]; try discriminate;
    intro H; apply (f_equal (fun o => or_default o p)) in H;
    cbn [or_default] in H; subst p; exists i, t, d;
    (repeat (split; [first [reflexivity | assumption | discriminate]|]));
    cbn [text_of]; f_equal.
  all: try (destruct (entry_author e); reflexivity).
  all: destruct (entry_category e) as [cs|]; cbn [or_default map];
    [now destruct (truthy_values (map term cs)) | reflexivity].
Qed.

(** [parseEntry] makes a paper of the well-formed entries, and of no
    other. *)
Lemma parseEntry_some_iff (e : AtomEntry) :
  match parseEntry e with Some _ => true | None => false end
  = well_formed e.
Proof.
  unfold parseEntry, well_formed, entry_id, entry_title, truthy_opt.
  destruct (id_element e) as [[i|]|]; try reflexivity. cbn [text_of].
  destruct (truthy i); cbn [negb andb]; [|reflexivity].
  destruct (title_element e) as [[t|]|]; try reflexivity. cbn [text_of].
  destruct (truthy t); cbn [negb andb]; [|reflexivity].
  destruct (entry_published e) as [d|]; [|reflexivity].
  destruct (truthy d); cbn [negb andb]; [|reflexivity].
  destruct (summary_element e) as [[a|]|]; try reflexivity;
    now destruct (resolve_links i (entry_link e)).
Qed.

Lemma parsed_entries_length (entries : list AtomEntry) :
  List.length
    (flat_map (fun entry => match parseEntry entry with
                            | Some paper => [paper]
                            | None => []
                            end) entries)
  = List.length (filter well_formed entries).
Proof.
  induction entries as [|e entries IH]; simpl; [reflexivity|].
  rewrite <- (parseEntry_some_iff e).
  destruct (parseEntry e); simpl; now rewrite IH.
Qed.

Lemma filter_split_length {A} (p : A -> bool) (l : list A) :
  List.length l
  = List.length (filter p l) + List.length (filter (fun x => negb (p x)) l).
Proof.
  induction l as [|x l IH]; simpl; [reflexivity|].
  destruct (p x); simpl; lia.
Qed.

(** [parseArxivAtom] is a total function of the input and of what the
    XML parser does on it; when the parser throws, or the document has no
    [feed], or the feed has no entry, the result is empty; otherwise it
    has one paper for each well-formed entry. *)
Lemma parseArxivAtom_counts
    (parse : jsstring -> XmlParseOutcome) (xml : jsstring) :
  (parse xml = XmlThrows -> parseArxivAtom parse xml = [])
  /\ (forall doc, parse xml = XmlParsed doc -> feed doc = None ->
         parseArxivAtom parse xml = [])
  /\ (forall doc f, parse xml = XmlParsed doc -> feed doc = Some f ->
         feed_entry f = None \/ feed_entry f = Some [] ->
         parseArxivAtom parse xml = [])
  /\ (forall doc f entries,
         parse xml = XmlParsed doc -> feed doc = Some f ->
         feed_entry f = Some entries ->
         List.length (parseArxivAtom parse xml)
         = List.length (filter well_formed entries)).
Proof.
  unfold parseArxivAtom. split; [|split; [|split]].
  - now intros ->.
  - now intros doc -> ->.
  - intros doc f -> -> [-> | ->]; reflexivity.
  - intros doc f entries -> -> ->. apply parsed_entries_length.
Qed.

(** C3, on a feed of two entries that both have [id], [title] and
    [published] (N = 2, M = 0): the title of the second reads as a number,
    so the parser returns a number for it, [title.replace] throws, the
    entry is skipped, and [parseArxivAtom] returns one paper instead of
    two. *)
Theorem C3_numeric_title_is_skipped :
  let entries := [entry_ok; entry_numeric_title] in
  List.length (filter has_required_fields entries) = 2
  /\ List.length (filter missing_required_field entries) = 0
  /\ title_element entry_numeric_title = Some NotText
  /\ parseEntry entry_numeric_title = None
  /\ parseArxivAtom (fun _ => feed_of entries) (js "<feed/>") = [paper_ok].
Proof. repeat split. Qed.

(** ** Links *)

Lemma last_such_snoc {A} (p : A -> bool) (l : list A) (x : A) :
  last_such p (l ++ [x]) = if p x then Some x else last_such p l.
Proof. unfold last_such. rewrite rev_app_distr. reflexivity. Qed.

Lemma fold_links (links : list AtomLink) (url0 : jsstring)
    (pdf0 : option jsstring) :
  fold_left link_step links (url0, pdf0)
  = (or_default
       (href_of (last_such (fun l => is_alternate_html l && has_href l) links))
       url0,
     match last_such is_pdf_link links with
     | Some l => href l
     | None => pdf0
     end).
Proof.
  induction links as [|l links IH] using rev_ind; [reflexivity|].
  rewrite fold_left_app, IH, !last_such_snoc.
  cbn [fold_left link_step].
  unfold is_alternate_html, is_pdf_link, has_href.
  destruct (opt_is (rel l) (js "alternate") && opt_is (type l) (js "text/html"));
    destruct (href l) eqn:Eh;
    destruct (opt_is (type l) (js "application/pdf"));
    cbn [andb href_of or_default]; rewrite ?Eh; reflexivity.
Qed.

(** C9, as stated, fails: when an entry lists two PDF links, [pdfUrl] is
    the [href] of the second one. *)
Lemma C9_pdf_link_is_not_the_first :
  ~ (forall e p, parseEntry e = Some p ->
       pdfUrl p = href_of (first_such is_pdf_link (links_of e))).
Proof.
  intro H.
  assert (E : exists p, parseEntry entry_two_pdf = Some p
                        /\ pdfUrl p = href link_pdf_v2).
  { eexists. split; [vm_compute; reflexivity | reflexivity]. }
  destruct E as (p & Hp & Hpdf).
  specialize (H entry_two_pdf p Hp). rewrite Hpdf in H.
  vm_compute in H. discriminate.
Qed.

(** C9, amended: for every feed entry that yields a paper, the paper's
    [url] is the [href] of the last alternate [text/html] link that has
    one, and the entry's [id] when there is none; [pdfUrl] is the [href]
    attribute of the last link typed [application/pdf], and absent when
    there is no such link. *)
Theorem C9_link_resolution (e : AtomEntry) (p : ArxivPaper) :
  parseEntry e = Some p ->
  paper_url p
  = or_default
      (href_of (last_such (fun l => is_alternate_html l && has_href l)
                          (links_of e)))
      (or_default (entry_id e) [])
  /\ pdfUrl p = href_of (last_such is_pdf_link (links_of e)).
Proof.
  intro H.
  apply parseEntry_inv in H as (i & t & d & Hi & _ & _ & _ & _ & _ & _ & ->).
  unfold entry_id, links_of, resolve_links. rewrite Hi.
  cbn [paper_url pdfUrl text_of or_default].
  destruct (entry_link e) as [links|]; cbn [or_default fst snd].
  - rewrite fold_links. split; reflexivity.
  - split; reflexivity.
Qed.

Lemma C9_link_resolution_witness :
  parseEntry entry_two_pdf
  = Some (mkPaper (js "2301.01234") (Some (js "2301.01234v2")) (Some 2%N)
            (js "A Great Paper") [js "Alice Smith"; js "Bob Jones"]
            (js "2023-01-15T00:00:00Z") (Some (js "2023-01-20T00:00:00Z"))
            (js "This paper presents a novel approach.")
            (js "http://arxiv.org/abs/2301.01234v2") (Some [js "cs.AI"])
            (Some (js "http://arxiv.org/pdf/2301.01234v2")))
  /\ js "http://arxiv.org/abs/2301.01234v2"
     = or_default
         (href_of (last_such (fun l => is_alternate_html l && has_href l)
                             (links_of entry_two_pdf)))
         (or_default (entry_id entry_two_pdf) [])
  /\ Some (js "http://arxiv.org/pdf/2301.01234v2")
     = href_of (last_such is_pdf_link (links_of entry_two_pdf)).
Proof.
  assert (H : parseEntry entry_two_pdf
    = Some (mkPaper (js "2301.01234") (Some (js "2301.01234v2")) (Some 2%N)
            (js "A Great Paper") [js "Alice Smith"; js "Bob Jones"]
            (js "2023-01-15T00:00:00Z") (Some (js "2023-01-20T00:00:00Z"))
            (js "This paper presents a novel approach.")
            (js "http://arxiv.org/abs/2301.01234v2") (Some [js "cs.AI"])
            (Some (js "http://arxiv.org/pdf/2301.01234v2"))))
    by reflexivity.
  split; [exact H|].
  exact (C9_link_resolution entry_two_pdf _ H).
Defined.

(* ===================================================================== *)
(** * Properties of the library tools                                     *)
(* ===================================================================== *)

(** ** The tables *)

Lemma has_id_eq (id : jsstring) (row : SavedPaperRow) :
  has_id id row = true <-> arxiv_id row = id.
Proof. apply str_eqb_eq. Qed.

Lemma select_nil_existsb (c : jsstring) (table : list SavedPaperRow) :
  select_by_id c table = [] -> existsb (has_id c) table = false.
Proof.
  unfold select_by_id.
  induction table as [|r table IH]; simpl; [reflexivity|].
  destruct (has_id c r); [discriminate | exact IH].
Qed.

Lemma select_app (c : jsstring) (t1 t2 : list SavedPaperRow) :
  select_by_id c (t1 ++ t2) = select_by_id c t1 ++ select_by_id c t2.
Proof. apply filter_app. Qed.

Lemma select_update (c : jsstring) (tags : list jsstring)
    (table : list SavedPaperRow) :
  select_by_id c (update_tags c tags table)
  = map (fun row => with_tags row tags) (select_by_id c table).
Proof.
  unfold select_by_id, update_tags.
  induction table as [|r table IH]; simpl; [reflexivity|].
  destruct (has_id c r) eqn:E.
  - assert (E' : has_id c (with_tags r tags) = true) by exact E.
    rewrite E'. simpl. now rewrite IH.
  - rewrite E. exact IH.
Qed.

Lemma select_delete (c : jsstring) (table : list SavedPaperRow) :
  select_by_id c (delete_by_id c table) = [].
Proof.
  unfold select_by_id, delete_by_id.
  induction table as [|r table IH]; simpl; [reflexivity|].
  destruct (has_id c r) eqn:E; simpl; [exact IH|]. now rewrite E.
Qed.

(** Deleting one key leaves the rows of the other keys as they are. *)
Lemma select_delete_other (c c' : jsstring) (table : list SavedPaperRow) :
  c' <> c ->
  select_by_id c' (delete_by_id c table) = select_by_id c' table.
Proof.
  intro Hne. unfold select_by_id, delete_by_id.
  induction table as [|r table IH]; simpl; [reflexivity|].
  destruct (has_id c r) eqn:E; simpl.
  - apply has_id_eq in E.
    destruct (has_id c' r) eqn:E'; [|exact IH].
    apply has_id_eq in E'. congruence.
  - now rewrite IH.
Qed.

(** ** Array.from(new Set(...)) *)

Lemma existsb_str_eqb (x : jsstring) (l : list jsstring) :
  existsb (str_eqb x) l = true <-> In x l.
Proof.
  rewrite existsb_exists. split.
  - intros (y & Hy & E). apply str_eqb_eq in E. now subst.
  - intro H. exists x. split; [assumption | apply str_eqb_refl].
Qed.

Lemma Array_from_Set_acc (l : list jsstring) : forall acc,
  NoDup acc ->
  NoDup (fold_left
           (fun set x => if existsb (str_eqb x) set then set else set ++ [x])
           l acc)
  /\ (forall t,
        In t (fold_left
                (fun set x => if existsb (str_eqb x) set then set else set ++ [x])
                l acc)
        <-> In t acc \/ In t l).
Proof.
  induction l as [|x l IH]; intros acc Hacc; simpl.
  - split; [assumption | intro t; tauto].
  - destruct (existsb (str_eqb x) acc) eqn:E.
    + apply existsb_str_eqb in E.
      destruct (IH acc Hacc) as [H1 H2]. split; [assumption|].
      intro t. rewrite H2. intuition (subst; auto).
    + assert (Hx : ~ In x acc).
      { intro Hin. apply existsb_str_eqb in Hin. congruence. }
      assert (Hnd : NoDup (acc ++ [x])).
      { apply NoDup_app; [assumption | repeat constructor; intros [] |].
        intros a Ha [<-|[]]. contradiction. }
      destruct (IH (acc ++ [x]) Hnd) as [H1 H2]. split; [assumption|].
      intro t. rewrite H2, in_app_iff. simpl. tauto.
Qed.

(** The merged tags are the union of the two lists, each tag once. *)
Lemma Array_from_Set_spec (l : list jsstring) :
  NoDup (Array_from_Set l) /\ (forall t, In t (Array_from_Set l) <-> In t l).
Proof.
  destruct (Array_from_Set_acc l [] (NoDup_nil _)) as [H1 H2].
  split; [exact H1|]. intro t. rewrite (H2 t). simpl. tauto.
Qed.

(** ** ORDER BY saved_at DESC *)

(** Whatever the engine chooses between rows with equal [saved_at], the
    result has the rows of the table and is sorted. *)
Section OrderByFacts.
Variable before : SavedPaperRow -> SavedPaperRow -> bool.

Lemma insert_desc_perm (row : SavedPaperRow) (l : list SavedPaperRow) :
  Permutation (row :: l) (insert_desc before row l).
Proof.
  induction l as [|r l IH]; simpl; [reflexivity|].
  destruct ((saved_at r <? saved_at row)%N
            || (saved_at r =? saved_at row)%N && before row r);
    [reflexivity|].
  rewrite perm_swap. now apply perm_skip.
Qed.

Lemma order_by_perm (table : list SavedPaperRow) :
  Permutation table (order_by_saved_at_desc before table).
Proof.
  induction table as [|r table IH]; simpl; [reflexivity|].
  rewrite <- insert_desc_perm. now apply perm_skip.
Qed.

Lemma insert_desc_sorted (row : SavedPaperRow) (l : list SavedPaperRow) :
  StronglySorted desc l -> StronglySorted desc (insert_desc before row l).
Proof.
  induction l as [|r l IH]; intro Hs; simpl.
  - repeat constructor.
  - apply StronglySorted_inv in Hs as [Hs Hr].
    destruct ((saved_at r <? saved_at row)%N
              || (saved_at r =? saved_at row)%N && before row r) eqn:E.
    + assert (Hle : (saved_at r <= saved_at row)%N).
      { apply orb_true_iff in E as [E|E].
        - apply N.ltb_lt in E. lia.
        - apply andb_true_iff in E as [E _]. apply N.eqb_eq in E. lia. }
      constructor; [now constructor|].
      constructor; [exact Hle|].
      eapply Forall_impl; [|exact Hr].
      intros a Ha. unfold desc in *. lia.
    + apply orb_false_iff in E as [E _]. apply N.ltb_ge in E.
      constructor; [now apply IH|].
      apply (Permutation_Forall (insert_desc_perm row l)).
      constructor; [exact E | exact Hr].
Qed.

Lemma order_by_sorted (table : list SavedPaperRow) :
  StronglySorted desc (order_by_saved_at_desc before table).
Proof.
  induction table as [|r table IH]; simpl; [constructor|].
  now apply insert_desc_sorted.
Qed.
End OrderByFacts.

(** ** What [updateLibraryPreview] leaves alone *)

Lemma preview_keeps (agent : Agent) :
  saved_papers (updateLibraryPreview agent) = saved_papers agent
  /\ paper_summaries (updateLibraryPreview agent) = paper_summaries agent
  /\ preferences (updateLibraryPreview agent) = preferences agent
  /\ sql (updateLibraryPreview agent) = sql agent.
Proof.
  unfold updateLibraryPreview.
  destruct (throws (sql agent) SelectPreview); repeat split.
Qed.

Lemma preview_saved_papers (agent : Agent) :
  saved_papers (updateLibraryPreview agent) = saved_papers agent.
Proof. apply preview_keeps. Qed.

Lemma preview_summaries (agent : Agent) :
  paper_summaries (updateLibraryPreview agent) = paper_summaries agent.
Proof. apply preview_keeps. Qed.

Lemma preview_preferences (agent : Agent) :
  preferences (updateLibraryPreview agent) = preferences agent.
Proof. apply preview_keeps. Qed.

(** ** The filters of the code and the filters in words *)

Lemma starts_with_spec (prefix : jsstring) : forall s,
  starts_with prefix s = true <-> exists post, s = prefix ++ post.
Proof.
  induction prefix as [|p prefix IH]; intros s; cbn [starts_with].
  - split; [intros _; now exists s | reflexivity].
  - destruct s as [|c s].
    + split; [discriminate | intros (post & H); discriminate H].
    + rewrite andb_true_iff, N.eqb_eq, IH. split.
      * intros (-> & post & ->). now exists post.
      * intros (post & H). inversion H. split; [reflexivity|now exists post].
Qed.

Lemma includes_spec (needle : jsstring) : forall s,
  includes s needle = true <-> occurs_in needle s.
Proof.
  unfold occurs_in. induction s as [|c s IH].
  - cbn [includes]. rewrite orb_false_r, starts_with_spec. split.
    + intros (post & ->). now exists [], post.
    + intros (pre & post & H). destruct pre as [|x pre]; [|discriminate H].
      now exists post.
  - cbn [includes]. rewrite orb_true_iff, starts_with_spec, IH. split.
    + intros [(post & ->)|(pre & post & ->)].
      * now exists [], post.
      * now exists (c :: pre), post.
    + intros (pre & post & H). destruct pre as [|x pre].
      * left. now exists post.
      * right. inversion H. now exists pre, post.
Qed.

Section FilterFacts.
Variable toLowerCase : jsstring -> jsstring.

Lemma tag_filter_spec (tag : jsstring) (row : SavedPaperRow) :
  tag_filter toLowerCase tag row = true <-> has_tag toLowerCase tag row.
Proof.
  unfold tag_filter, has_tag. rewrite existsb_exists.
  split; intros (t & Hin & H); exists t; (split; [exact Hin|]);
    now apply str_eqb_eq.
Qed.

Lemma text_filter_spec (text : jsstring) (row : SavedPaperRow) :
  text_filter toLowerCase text row = true <-> mentions toLowerCase text row.
Proof.
  unfold text_filter, mentions.
  now rewrite orb_true_iff, !includes_spec.
Qed.

Lemma matches_filters_spec (filterText tag : option jsstring)
    (row : SavedPaperRow) :
  matches_filters toLowerCase filterText tag row = true
  <-> matches toLowerCase filterText tag row.
Proof.
  unfold matches_filters, matches, truthy_opt. rewrite andb_true_iff.
  assert (Htag :
    (if match tag with Some s => truthy s | None => false end
     then tag_filter toLowerCase (or_default tag []) row else true) = true
    <-> (forall t, tag = Some t -> t <> [] -> has_tag toLowerCase t row)).
  { destruct tag as [t|]; cbn [or_default].
    - destruct (truthy t) eqn:Ht.
      + rewrite tag_filter_spec. split.
        * intros H t' E _. apply Some_eq in E. now subst t'.
        * intro H. apply (H t eq_refl). now apply truthy_nonempty.
      + split; [|reflexivity]. intros _ t' E Hne.
        apply Some_eq in E. subst t'.
        apply truthy_nonempty in Hne. congruence.
    - split; [intros _ t' E; discriminate E | reflexivity]. }
  assert (Htext :
    (if match filterText with Some s => truthy s | None => false end
     then text_filter toLowerCase (or_default filterText []) row else true)
    = true
    <-> (forall f, filterText = Some f -> f <> [] ->
           mentions toLowerCase f row)).
  { destruct filterText as [f|]; cbn [or_default].
    - destruct (truthy f) eqn:Hf.
      + rewrite text_filter_spec. split.
        * intros H f' E _. apply Some_eq in E. now subst f'.
        * intro H. apply (H f eq_refl). now apply truthy_nonempty.
      + split; [|reflexivity]. intros _ f' E Hne.
        apply Some_eq in E. subst f'.
        apply truthy_nonempty in Hne. congruence.
    - split; [intros _ f' E; discriminate E | reflexivity]. }
  now rewrite Htag, Htext.
Qed.
End FilterFacts.

Lemma filter_selected {A} (p : A -> bool) (P : A -> Prop) (l : list A) :
  (forall x, p x = true <-> P x) -> selected P l (filter p l).
Proof.
  intro H. induction l as [|x l IH]; cbn [filter]; [constructor|].
  destruct (p x) eqn:E.
  - apply selected_keep; [now apply H | exact IH].
  - apply selected_skip; [|exact IH].
    intro HP. apply H in HP. congruence.
Qed.

Lemma listed_rows_shown (rows : list SavedPaperRow) :
  Forall2 shown_as rows (map listed_of_row rows).
Proof.
  induction rows as [|row rows IH]; cbn [map]; constructor; [|exact IH].
  repeat split.
Qed.


Lemma filter_sorted (p : SavedPaperRow -> bool) (l : list SavedPaperRow) :
  StronglySorted desc l -> StronglySorted desc (filter p l).
Proof.
  induction 1 as [|r l Hs IH Hr]; simpl; [constructor|].
  destruct (p r); [|exact IH].
  constructor; [exact IH|].
  apply Forall_forall. intros a Ha. apply filter_In in Ha as [Ha _].
  rewrite Forall_forall in Hr. now apply Hr.
Qed.

Lemma filter_perm {A} (p : A -> bool) (l l' : list A) :
  Permutation l l' -> Permutation (filter p l) (filter p l').
Proof.
  induction 1 as [|x l l' _ IH|x y l|l l' l'' _ IH1 _ IH2]; simpl.
  - constructor.
  - destruct (p x); [now apply perm_skip | exact IH].
  - destruct (p x); destruct (p y); try reflexivity. apply perm_swap.
  - now transitivity (filter p l').
Qed.

Lemma filter_filter {A} (p q : A -> bool) (l : list A) :
  filter q (filter p l) = filter (fun x => p x && q x) l.
Proof.
  induction l as [|x l IH]; simpl; [reflexivity|].
  destruct (p x); simpl; [|exact IH].
  destruct (q x); now rewrite IH.
Qed.

Lemma filter_true {A} (l : list A) : filter (fun _ => true) l = l.
Proof. induction l as [|x l IH]; simpl; [reflexivity | now rewrite IH]. Qed.

(** The two filter steps of the tool amount to one filter by
    [matches_filters]. *)
Lemma list_filters (toLowerCase : jsstring -> jsstring)
    (filterText tag : option jsstring) (rows : list SavedPaperRow) :
  match filterText with
  | Some f =>
      if truthy f
      then filter (text_filter toLowerCase f)
             match tag with
             | Some t => if truthy t then filter (tag_filter toLowerCase t) rows
                         else rows
             | None => rows
             end
      else match tag with
           | Some t => if truthy t then filter (tag_filter toLowerCase t) rows
                       else rows
           | None => rows
           end
  | None =>
      match tag with
      | Some t => if truthy t then filter (tag_filter toLowerCase t) rows
                  else rows
      | None => rows
      end
  end
  = filter (matches_filters toLowerCase filterText tag) rows.
Proof.
  unfold matches_filters, truthy_opt.
  destruct tag as [t|]; [destruct (truthy t)|];
    (destruct filterText as [f|]; [destruct (truthy f)|]); simpl;
    rewrite ?filter_filter; try reflexivity;
    try (symmetry; apply filter_true);
    apply filter_ext; intro r; now rewrite ?andb_true_r.
Qed.

(** ** savePaper *)

(** The row a first save writes. *)
Lemma savePaper_new (w : World) (agent : Agent) (x : jsstring)
    (tags : option (list jsstring)) (paper : ArxivPaper) :
  select_by_id (canonical (normalizeArxivId x)) (saved_papers agent) = [] ->
  fetchArxivPaperById (fetchImpl w) (xml_parse w)
    (canonical (normalizeArxivId x)) = Returned (Some paper) ->
  exists row,
    arxiv_id row = canonical (normalizeArxivId x)
    /\ title row = paper_title paper
    /\ abstract row = paper_abstract paper
    /\ url row = paper_url paper
    /\ tags_json row = or_default tags []
    /\ saved_at row = now w
    /\ savePaper w agent x tags
       = mkOutcome
           (mkSaveResult (canonical (normalizeArxivId x)) (paper_title paper)
                         (or_default tags []) (now w) false None)
           (updateLibraryPreview
              (with_saved_papers agent (saved_papers agent ++ [row])))
           [fetch_url_by_id (canonical (normalizeArxivId x))] [].
Proof.
  intros Hsel Hfetch.
  exists (mkRow (canonical (normalizeArxivId x)) (paper_title paper)
                (authors paper) (paper_published paper)
                (if truthy_opt (paper_updated paper)
                 then or_default (paper_updated paper) []
                 else paper_published paper)
                (paper_abstract paper) (paper_url paper)
                (or_default tags []) (now w)).
  repeat (split; [reflexivity|]).
  unfold savePaper. rewrite Hsel, Hfetch.
  unfold insert_row. cbn [arxiv_id].
  now rewrite (select_nil_existsb _ _ Hsel).
Qed.

(** A save of a stored id merges the tags and touches nothing else. *)
Lemma savePaper_existing (w : World) (agent : Agent) (x : jsstring)
    (tags : option (list jsstring)) (existing : SavedPaperRow)
    (others : list SavedPaperRow) :
  select_by_id (canonical (normalizeArxivId x)) (saved_papers agent)
  = existing :: others ->
  savePaper w agent x tags
  = mkOutcome
      (mkSaveResult (canonical (normalizeArxivId x)) (title existing)
         (Array_from_Set (tags_json existing ++ or_default tags []))
         (saved_at existing) true None)
      (updateLibraryPreview
         (with_saved_papers agent
            (update_tags (canonical (normalizeArxivId x))
               (Array_from_Set (tags_json existing ++ or_default tags []))
               (saved_papers agent))))
      [] [].
Proof. intro Hsel. unfold savePaper. now rewrite Hsel. Qed.

(** A save of an id that is not stored asks the network once; when no
    paper comes back it fails and leaves the agent as it was. *)
Lemma savePaper_not_fetched (w : World) (agent : Agent) (x : jsstring)
    (tags : option (list jsstring)) :
  select_by_id (canonical (normalizeArxivId x)) (saved_papers agent) = [] ->
  requests (savePaper w agent x tags)
  = [fetch_url_by_id (canonical (normalizeArxivId x))]
  /\ ((forall paper,
         fetchArxivPaperById (fetchImpl w) (xml_parse w)
           (canonical (normalizeArxivId x)) <> Returned (Some paper)) ->
      save_error (result (savePaper w agent x tags)) <> None
      /\ agent_after (savePaper w agent x tags) = agent).
Proof.
  intro Hsel. unfold savePaper. rewrite Hsel.
  destruct (fetchArxivPaperById _ _ _) as [| status | [paper|]].
  - split; [reflexivity|]. intros _. split; [discriminate | reflexivity].
  - split; [reflexivity|]. intros _. split; [discriminate | reflexivity].
  - split.
    + now destruct (insert_row _ _).
    + intro H. now elim (H paper).
  - split; [reflexivity|]. intros _. split; [discriminate | reflexivity].
Qed.

(** C1: for every id whose canonical form is not stored yet and every two
    tag lists, saving it with the first list and then with the second
    leaves exactly one row under the canonical id; its tags are the union
    of the two lists, each tag once; its title, abstract and url are those
    of the paper the first save fetched, whatever the upstream would
    answer at the second save; the first call reports wasAlreadySaved =
    false and the second wasAlreadySaved = true. *)
Theorem C1_save_twice_merges_tags
    (w1 w2 : World) (agent : Agent) (x : jsstring) (T1 T2 : list jsstring)
    (paper : ArxivPaper) :
  select_by_id (canonical (normalizeArxivId x)) (saved_papers agent) = [] ->
  fetchArxivPaperById (fetchImpl w1) (xml_parse w1)
    (canonical (normalizeArxivId x)) = Returned (Some paper) ->
  let first := savePaper w1 agent x (Some T1) in
  let second := savePaper w2 (agent_after first) x (Some T2) in
  wasAlreadySaved (result first) = false
  /\ save_error (result first) = None
  /\ wasAlreadySaved (result second) = true
  /\ save_error (result second) = None
  /\ exists row,
       select_by_id (canonical (normalizeArxivId x))
         (saved_papers (agent_after second)) = [row]
       /\ (forall t, In t (tags_json row) <-> In t T1 \/ In t T2)
       /\ NoDup (tags_json row)
       /\ save_tags (result second) = tags_json row
       /\ title row = paper_title paper
       /\ abstract row = paper_abstract paper
       /\ url row = paper_url paper.
Proof.
  intros Hsel Hfetch first second.
  destruct (savePaper_new w1 agent x (Some T1) paper Hsel Hfetch)
    as (row & Hid & Htitle & Habs & Hurl & Htags & _ & Hfirst).
  assert (Hrow : select_by_id (canonical (normalizeArxivId x))
                   (saved_papers agent ++ [row]) = [row]).
  { rewrite select_app, Hsel. simpl.
    apply has_id_eq in Hid. now rewrite Hid. }
  assert (Htable : saved_papers (agent_after first)
                   = saved_papers agent ++ [row]).
  { subst first. rewrite Hfirst. cbn [agent_after].
    now rewrite preview_saved_papers. }
  assert (Hsecond := savePaper_existing w2 (agent_after first) x (Some T2)
                       row []).
  fold second in Hsecond. rewrite Htable in Hsecond.
  specialize (Hsecond Hrow). rewrite Hsecond.
  subst first. rewrite Hfirst.
  cbn [result wasAlreadySaved save_error agent_after save_tags].
  rewrite preview_saved_papers. cbn [with_saved_papers saved_papers].
  repeat (split; [reflexivity|]).
  exists (with_tags row (Array_from_Set (tags_json row ++ T2))).
  rewrite select_update, Hrow.
  destruct (Array_from_Set_spec (tags_json row ++ T2)) as [Hnd Hin].
  cbn [map with_tags tags_json title abstract url or_default].
  repeat split; trivial.
  - intro Ht. apply Hin, in_app_iff in Ht. now rewrite Htags in Ht.
  - intro Ht. apply Hin, in_app_iff. now rewrite Htags.
Qed.

Lemma C1_save_twice_merges_tags_witness :
  let w := world_of_feed [entry_ok] in
  let first := savePaper w empty_agent (js "2301.01234v2")
                 (Some [js "a"; js "b"]) in
  let second := savePaper w (agent_after first) (js "2301.01234v2")
                  (Some [js "b"; js "c"]) in
  wasAlreadySaved (result first) = false
  /\ save_error (result first) = None
  /\ wasAlreadySaved (result second) = true
  /\ save_error (result second) = None
  /\ exists row,
       select_by_id (canonical (normalizeArxivId (js "2301.01234v2")))
         (saved_papers (agent_after second)) = [row]
       /\ (forall t, In t (tags_json row)
                     <-> In t [js "a"; js "b"] \/ In t [js "b"; js "c"])
       /\ NoDup (tags_json row)
       /\ save_tags (result second) = tags_json row
       /\ title row = paper_title paper_ok
       /\ abstract row = paper_abstract paper_ok
       /\ url row = paper_url paper_ok.
Proof.
  apply (C1_save_twice_merges_tags
           (world_of_feed [entry_ok]) (world_of_feed [entry_ok]) empty_agent
           (js "2301.01234v2") [js "a"; js "b"] [js "b"; js "c"] paper_ok);
    reflexivity.
Defined.

Example save_twice_tags :
  let w := world_of_feed [entry_ok] in
  let first := savePaper w empty_agent (js "2301.01234v2")
                 (Some [js "a"; js "b"]) in
  let second := savePaper w (agent_after first)
                  (js "https://arxiv.org/abs/2301.01234")
                  (Some [js "b"; js "c"]) in
  map tags_json (saved_papers (agent_after second))
  = [[js "a"; js "b"; js "c"]].
Proof. reflexivity. Qed.

(** ** executions.removeSavedPaper *)

(** Removing an id that is not stored changes nothing. *)
Lemma remove_absent (agent : Agent) (x : jsstring) :
  select_by_id (canonical (normalizeArxivId x)) (saved_papers agent) = [] ->
  removeSavedPaper agent x
  = mkOutcome
      (mkRemoveResult (canonical (normalizeArxivId x)) None false
         (Some (msg_not_in_library (canonical (normalizeArxivId x)))))
      agent [] [].
Proof. intro Hsel. unfold removeSavedPaper. now rewrite Hsel. Qed.

(** Removing a stored id whose row has a title deletes the row and
    returns that title. *)
Lemma remove_titled (agent : Agent) (x : jsstring) (row : SavedPaperRow)
    (others : list SavedPaperRow) :
  select_by_id (canonical (normalizeArxivId x)) (saved_papers agent)
  = row :: others ->
  title row <> [] ->
  success (result (removeSavedPaper agent x)) = true
  /\ remove_title (result (removeSavedPaper agent x)) = Some (title row)
  /\ remove_error (result (removeSavedPaper agent x)) = None
  /\ select_by_id (canonical (normalizeArxivId x))
       (saved_papers (agent_after (removeSavedPaper agent x))) = []
  /\ forall c', c' <> canonical (normalizeArxivId x) ->
       select_by_id c' (saved_papers (agent_after (removeSavedPaper agent x)))
       = select_by_id c' (saved_papers agent).
Proof.
  intros Hsel Htitle. unfold removeSavedPaper. rewrite Hsel.
  apply truthy_nonempty in Htitle. cbn [truthy_opt]. rewrite Htitle.
  cbn [negb result agent_after success remove_title remove_error].
  rewrite preview_saved_papers. cbn [with_saved_papers saved_papers].
  repeat split.
  - apply select_delete.
  - intros c' Hc'. now apply select_delete_other.
Qed.

(** C2, on a library reached by saving a paper whose feed title is a
    single space (the stored title is then empty): the row is present
    under the canonical id, yet the removal answers success = false with
    the not-found message, returns no title and leaves the row where it
    is. *)
Theorem C2_remove_misses_row_with_empty_title :
  let library :=
    agent_after (savePaper (world_of_feed [entry_blank_title]) empty_agent
                   (js "2301.01234v2") (Some [js "ml"])) in
  map arxiv_id (saved_papers library) = [js "2301.01234"]
  /\ map title (saved_papers library) = [[]]
  /\ removeSavedPaper library (js "2301.01234")
     = mkOutcome
         (mkRemoveResult (js "2301.01234") None false
            (Some (js "Paper with arXiv ID '2301.01234' not found in library")))
         library [] [].
Proof. repeat split. Qed.

(** ** listSavedPapers *)

(** C4: for every library and every list call with a limit L between 1
    and 100, the returned papers are the first L of the rows that match
    the tag and text filters, taken in the order of savedAt descending
    (rows with equal savedAt in the order the engine returns them), each
    shown with the fields of its row; totalCount is the number of
    matching rows; wasTruncated is true exactly when totalCount > L.  So
    8 matching rows and L = 5 give 5 papers and wasTruncated = true, and
    5 matching rows give 5 papers and wasTruncated = false. *)
Theorem C4_list_limit (toLowerCase : jsstring -> jsstring) (agent : Agent)
    (filterText tag : option jsstring) (L : nat) :
  1 <= L <= 100 ->
  let r := listSavedPapers toLowerCase agent filterText tag (Some L) in
  exists ordered matching : list SavedPaperRow,
    Permutation ordered (saved_papers agent)
    /\ StronglySorted desc ordered
    /\ selected (matches toLowerCase filterText tag) ordered matching
    /\ Forall2 shown_as (firstn L matching) (papers r)
    /\ totalCount r = List.length matching
    /\ List.length (papers r) = Nat.min L (totalCount r)
    /\ (wasTruncated r = true <-> L < totalCount r)
    /\ list_error r = None.
Proof.
  intros HL r.
  set (ordered := order_by_saved_at_desc (list_before (sql agent))
                    (saved_papers agent)).
  set (matching := filter (matches_filters toLowerCase filterText tag)
                          ordered).
  assert (Hr : r = mkListResult (map listed_of_row (firstn L matching))
                     filterText tag (List.length matching)
                     (L <? List.length matching) None).
  { subst r matching ordered. unfold listSavedPapers. cbn [or_default].
    rewrite (Nat.min_l L 100) by lia.
    now rewrite list_filters. }
  exists ordered, matching. rewrite Hr.
  cbn [papers totalCount wasTruncated list_error].
  split; [symmetry; apply order_by_perm|].
  split; [apply order_by_sorted|].
  split; [apply filter_selected, matches_filters_spec|].
  split; [apply listed_rows_shown|].
  split; [reflexivity|].
  split; [now rewrite length_map, length_firstn|].
  split; [apply Nat.ltb_lt | reflexivity].
Qed.

Lemma C4_list_limit_witness :
  let eight :=
    listSavedPapers ascii_toLowerCase (library_of [3; 1; 2; 8; 5; 4; 7; 6]%N)
      None (Some (js "ML")) (Some 5) in
  let five :=
    listSavedPapers ascii_toLowerCase (library_of [3; 1; 2; 5; 4]%N)
      None (Some (js "ML")) (Some 5) in
  1 <= 5 <= 100
  /\ (totalCount eight = 8
      /\ List.length (papers eight) = Nat.min 5 (totalCount eight)
      /\ (wasTruncated eight = true <-> 5 < totalCount eight))
  /\ (totalCount five = 5
      /\ List.length (papers five) = Nat.min 5 (totalCount five)
      /\ (wasTruncated five = true <-> 5 < totalCount five)).
Proof.
  intros eight five.
  assert (HL : 1 <= 5 <= 100) by lia.
  split; [exact HL|]. split.
  - destruct (C4_list_limit ascii_toLowerCase
                (library_of [3; 1; 2; 8; 5; 4; 7; 6]%N)
                None (Some (js "ML")) 5 HL)
      as (ordered & matching & _ & _ & _ & _ & _ & Hlen & Htrunc & _).
    split; [reflexivity|]. split; [exact Hlen | exact Htrunc].
  - destruct (C4_list_limit ascii_toLowerCase (library_of [3; 1; 2; 5; 4]%N)
                None (Some (js "ML")) 5 HL)
      as (ordered & matching & _ & _ & _ & _ & _ & Hlen & Htrunc & _).
    split; [reflexivity|]. split; [exact Hlen | exact Htrunc].
Defined.

(** With equal [saved_at] the engine decides: the same two rows, listed
    by an engine that keeps the order of the table and by one that
    returns the later row first. *)
Example list_ties :
  let table := [row_saved_at 7; with_tags (row_saved_at 7) [js "later"]] in
  let library engine :=
    mkAgent table [] (mkPreferences 5%N 30%N []) [] engine in
  map listed_tags
      (papers (listSavedPapers ascii_toLowerCase (library table_order)
                 None None None))
  = [[js "ml"]; [js "later"]]
  /\ map listed_tags
        (papers (listSavedPapers ascii_toLowerCase (library later_first)
                   None None None))
     = [[js "later"]; [js "ml"]].
Proof. repeat split. Qed.

Example list_five_of_eight :
  map listed_savedAt
      (papers (listSavedPapers ascii_toLowerCase
                 (library_of [3; 1; 2; 8; 5; 4; 7; 6]%N)
                 None (Some (js "ML")) (Some 5)))
  = [8; 7; 6; 5; 4]%N.
Proof. reflexivity. Qed.

(** ** summarizePaper *)

Lemma summaryKey_injective (a b : jsstring) :
  summaryKey a = summaryKey b -> a = b.
Proof. unfold summaryKey. apply app_inv_tail. Qed.

(** A summarize call looks its summary up under the key of the id as it
    was given. *)
Lemma summarize_cache_hit (w : World) (agent : Agent) (x : jsstring)
    (hit : SummaryRow) (others : list SummaryRow) :
  throws (sql agent) SelectSummary = false ->
  select_summary (summaryKey x) (paper_summaries agent) = hit :: others ->
  summarizePaper w agent x
  = mkOutcome (mkSummarizeResult x None (summary_md hit) true None)
              agent [] [].
Proof. intros Hok H. unfold summarizePaper. now rewrite Hok, H. Qed.

(** C7, on the two ids of the claim: ['2301.01234v2'] and ['2301.01234']
    have the same canonical id but different cache keys, so after a
    summary of ['2301.01234'] is cached, a summarize call for
    ['2301.01234v2'] misses the cache, calls the model again and stores a
    second entry. *)
Theorem C7_summary_cache_keyed_by_raw_id :
  canonical (normalizeArxivId (js "2301.01234v2"))
  = canonical (normalizeArxivId (js "2301.01234"))
  /\ summaryKey (js "2301.01234") = js "2301.01234:v1"
  /\ summaryKey (js "2301.01234v2") = js "2301.01234v2:v1"
  /\ let w := world_of_feed [entry_ok] in
     let first := summarizePaper w empty_agent (js "2301.01234") in
     let second := summarizePaper w (agent_after first) (js "2301.01234v2") in
     let third := summarizePaper w (agent_after second) (js "2301.01234") in
     cached (result first) = false
     /\ cached (result second) = false
     /\ generations second = [paper_ok]
     /\ map summary_key (paper_summaries (agent_after second))
        = [js "2301.01234:v1"; js "2301.01234v2:v1"]
     /\ cached (result third) = true.
Proof. repeat split. Qed.

(** ** Identifiers that normalise to the empty id *)

(** C10, on the empty id: its canonical id is empty, and the save is not
    refused.  It asks the network for [id_list=], and when the upstream
    answers with an entry it stores the paper under the empty key and
    reports no error; the removal of the empty id then deletes that
    row. *)
Theorem C10_empty_id_is_fetched_and_stored :
  canonical (normalizeArxivId []) = []
  /\ let saved :=
       savePaper (world_of_feed [entry_ok]) empty_agent []
                 (Some [js "ml"]) in
     requests saved = [js "https://export.arxiv.org/api/query?id_list="]
     /\ save_error (result saved) = None
     /\ map arxiv_id (saved_papers (agent_after saved)) = [[]]
     /\ let removed := removeSavedPaper (agent_after saved) [] in
        success (result removed) = true
        /\ remove_error (result removed) = None
        /\ saved_papers (agent_after removed) = [].
Proof. repeat split. Qed.

(* ===================================================================== *)
(** * Further properties of the library tools                             *)
(* ===================================================================== *)

Import Properties Search MoreSamples.

(** ** Tables and keys *)

Lemma existsb_has_id (c : jsstring) (table : list SavedPaperRow) :
  existsb (has_id c) table = true <-> In c (map arxiv_id table).
Proof.
  rewrite existsb_exists, in_map_iff. split.
  - intros (r & Hr & E). apply has_id_eq in E. now exists r.
  - intros (r & E & Hr). exists r. split; [assumption|]. now apply has_id_eq.
Qed.

Lemma update_tags_ids (c : jsstring) (tags : list jsstring)
    (table : list SavedPaperRow) :
  map arxiv_id (update_tags c tags table) = map arxiv_id table.
Proof.
  unfold update_tags. rewrite map_map. apply map_ext.
  intro r. now destruct (has_id c r).
Qed.

Lemma select_update_other (c c' : jsstring) (tags : list jsstring)
    (table : list SavedPaperRow) :
  c' <> c ->
  select_by_id c' (update_tags c tags table) = select_by_id c' table.
Proof.
  intro Hne. unfold select_by_id, update_tags.
  induction table as [|r table IH]; simpl; [reflexivity|].
  destruct (has_id c r) eqn:E.
  - apply has_id_eq in E.
    assert (E' : has_id c' r = false).
    { apply str_eqb_neq. congruence. }
    assert (E'' : has_id c' (with_tags r tags) = false) by exact E'.
    now rewrite E', E''.
  - now rewrite IH.
Qed.

(** Deleting rows keeps the keys of a table distinct. *)
Lemma distinct_keys_filter {Row Key : Type} (key : Row -> Key)
    (keep : Row -> bool) :
  forall rows : list Row,
    NoDup (map key rows) -> NoDup (map key (filter keep rows)).
Proof.
  intros rows Hrows. induction rows as [|row rows IH]; [exact Hrows|].
  cbn [map] in Hrows. apply NoDup_cons_iff in Hrows as [Hrow Hrest].
  cbn [filter]. destruct (keep row); [|exact (IH Hrest)].
  cbn [map]. apply NoDup_cons; [|exact (IH Hrest)].
  intro Hin. apply Hrow. apply in_map_iff in Hin as (other & E & Hother).
  apply filter_In in Hother as [Hother _].
  apply in_map_iff. now exists other.
Qed.

Lemma delete_absent (c : jsstring) (table : list SavedPaperRow) :
  select_by_id c table = [] -> delete_by_id c table = table.
Proof.
  unfold select_by_id, delete_by_id.
  induction table as [|r table IH]; simpl; [reflexivity|].
  destruct (has_id c r); [discriminate|].
  intro H. simpl. now rewrite IH.
Qed.

Lemma select_in (c : jsstring) (row : SavedPaperRow)
    (table : list SavedPaperRow) :
  In row (select_by_id c table) <-> In row table /\ arxiv_id row = c.
Proof.
  unfold select_by_id. rewrite filter_In. now rewrite has_id_eq.
Qed.

Lemma select_snoc_other (c' : jsstring) (row : SavedPaperRow)
    (table : list SavedPaperRow) :
  arxiv_id row <> c' ->
  select_by_id c' (table ++ [row]) = select_by_id c' table.
Proof.
  intro Hne. rewrite select_app. unfold select_by_id at 2. simpl.
  apply str_eqb_neq in Hne. unfold has_id. rewrite Hne. apply app_nil_r.
Qed.

(** ** savePaper *)

(** The row a successful save leaves behind. *)
Lemma savePaper_stores_row (w : World) (agent : Agent) (x : jsstring)
    (tags : option (list jsstring)) :
  save_error (result (savePaper w agent x tags)) = None ->
  exists row,
    In row (saved_papers (agent_after (savePaper w agent x tags)))
    /\ arxiv_id row = canonical (normalizeArxivId x)
    /\ arxiv_id row = save_arxivId (result (savePaper w agent x tags))
    /\ title row = save_title (result (savePaper w agent x tags))
    /\ tags_json row = save_tags (result (savePaper w agent x tags))
    /\ saved_at row = save_savedAt (result (savePaper w agent x tags))
    /\ forall t, In t (or_default tags []) -> In t (tags_json row).
Proof.
  destruct (select_by_id (canonical (normalizeArxivId x)) (saved_papers agent))
    as [|existing others] eqn:Hsel.
  - destruct (fetchArxivPaperById (fetchImpl w) (xml_parse w)
                (canonical (normalizeArxivId x)))
      as [| status | [paper|]] eqn:Hfetch;
      try (unfold savePaper; rewrite Hsel, Hfetch; intro H; discriminate H).
    destruct (savePaper_new w agent x tags paper Hsel Hfetch)
      as (row & Hid & Ht & _ & _ & Htags & Hsaved & ->).
    cbn [result agent_after with_saved_papers saved_papers save_arxivId save_title save_tags save_savedAt save_error]; rewrite ?preview_saved_papers, ?preview_summaries, ?preview_preferences; cbn [result agent_after with_saved_papers saved_papers save_arxivId save_title save_tags save_savedAt save_error].
    intros _. exists row. repeat split; trivial.
    + apply in_or_app. right. now left.
    + intros t Ht'. now rewrite Htags.
  - rewrite (savePaper_existing w agent x tags existing others Hsel).
    intros _.
    exists (with_tags existing
              (Array_from_Set (tags_json existing ++ or_default tags []))).
    assert (Hin : In existing (select_by_id (canonical (normalizeArxivId x))
                                 (saved_papers agent)))
      by (rewrite Hsel; now left).
    apply select_in in Hin as [Hin Hid].
    cbn [result agent_after with_saved_papers saved_papers save_arxivId save_title save_tags save_savedAt with_tags arxiv_id title tags_json saved_at]; rewrite ?preview_saved_papers, ?preview_summaries, ?preview_preferences; cbn [result agent_after with_saved_papers saved_papers save_arxivId save_title save_tags save_savedAt with_tags arxiv_id title tags_json saved_at].
    repeat split; trivial.
    + unfold update_tags. apply in_map_iff. exists existing.
      apply has_id_eq in Hid. now rewrite Hid.
    + intros t Ht. apply Array_from_Set_spec, in_or_app. now right.
Qed.

(** X1: a save either fails and changes nothing, or succeeds and leaves a
    row under the canonical id that carries every tag of the call and is
    the row the result describes. *)
Theorem X1_save_all_or_nothing (w : World) (agent : Agent) (x : jsstring)
    (tags : option (list jsstring)) :
  (save_error (result (savePaper w agent x tags)) <> None ->
   agent_after (savePaper w agent x tags) = agent)
  /\ (save_error (result (savePaper w agent x tags)) = None ->
      exists row,
        In row (saved_papers (agent_after (savePaper w agent x tags)))
        /\ arxiv_id row = canonical (normalizeArxivId x)
        /\ arxiv_id row = save_arxivId (result (savePaper w agent x tags))
        /\ title row = save_title (result (savePaper w agent x tags))
        /\ tags_json row = save_tags (result (savePaper w agent x tags))
        /\ saved_at row = save_savedAt (result (savePaper w agent x tags))
        /\ forall t, In t (or_default tags []) -> In t (tags_json row)).
Proof.
  split; [|apply savePaper_stores_row].
  unfold savePaper.
  destruct (select_by_id _ _) as [|existing others];
    [|intro H; now elim H].
  destruct (fetchArxivPaperById _ _ _) as [| status | [paper|]];
    try reflexivity.
  destruct (insert_row _ _); [intro H; now elim H | reflexivity].
Qed.

(** X2: the tables keep one row per key.  If the ids of [saved_papers]
    are pairwise distinct before a save or a removal, they are so
    after it. *)
Theorem X2_primary_key_kept (w : World) (agent : Agent) (x : jsstring)
    (tags : option (list jsstring)) :
  unique_ids (saved_papers agent) ->
  unique_ids (saved_papers (agent_after (savePaper w agent x tags)))
  /\ unique_ids (saved_papers (agent_after (removeSavedPaper agent x))).
Proof.
  unfold unique_ids. intro Hu. split.
  - unfold savePaper.
    destruct (select_by_id (canonical (normalizeArxivId x))
                (saved_papers agent)) as [|existing others] eqn:Hsel.
    + destruct (fetchArxivPaperById _ _ _) as [| status | [paper|]]; trivial.
      unfold insert_row. cbn [arxiv_id].
      pose proof (select_nil_existsb _ _ Hsel) as Hex. rewrite Hex.
      cbn [agent_after with_saved_papers saved_papers]; rewrite ?preview_saved_papers, ?preview_summaries, ?preview_preferences; cbn [agent_after with_saved_papers saved_papers].
      rewrite map_app. apply NoDup_app; trivial.
      * repeat constructor. intros [].
      * intros a Ha [<-|[]].
        apply existsb_has_id in Ha. cbn [arxiv_id] in Ha. congruence.
    + cbn [agent_after with_saved_papers saved_papers]; rewrite ?preview_saved_papers, ?preview_summaries, ?preview_preferences; cbn [agent_after with_saved_papers saved_papers].
      now rewrite update_tags_ids.
  - unfold removeSavedPaper.
    destruct (negb (truthy_opt _)); trivial.
    cbn [agent_after with_saved_papers saved_papers]; rewrite ?preview_saved_papers, ?preview_summaries, ?preview_preferences; cbn [agent_after with_saved_papers saved_papers].
    now apply distinct_keys_filter.
Qed.

Lemma X2_primary_key_kept_witness :
  unique_ids (saved_papers (library_of [1; 2; 3]%N))
  /\ unique_ids
       (saved_papers
          (agent_after (savePaper (world_of_feed [entry_ok])
                          (library_of [1; 2; 3]%N) (js "2301.00002v4")
                          (Some [js "ml"; js "nlp"]))))
  /\ unique_ids
       (saved_papers
          (agent_after (removeSavedPaper (library_of [1; 2; 3]%N)
                          (js "2301.00002v4")))).
Proof.
  assert (H : unique_ids (saved_papers (library_of [1; 2; 3]%N))).
  { unfold unique_ids. vm_compute.
    repeat constructor; simpl; intuition discriminate. }
  split; [exact H|].
  exact (X2_primary_key_kept (world_of_feed [entry_ok])
           (library_of [1; 2; 3]%N) (js "2301.00002v4")
           (Some [js "ml"; js "nlp"]) H).
Defined.

(** X3: a save or a removal touches the rows of no other paper, and
    neither the summary cache nor the preferences. *)
Theorem X3_other_rows_untouched (w : World) (agent : Agent) (x c' : jsstring)
    (tags : option (list jsstring)) :
  c' <> canonical (normalizeArxivId x) ->
  (select_by_id c' (saved_papers (agent_after (savePaper w agent x tags)))
   = select_by_id c' (saved_papers agent)
   /\ paper_summaries (agent_after (savePaper w agent x tags))
      = paper_summaries agent
   /\ preferences (agent_after (savePaper w agent x tags))
      = preferences agent)
  /\ (select_by_id c' (saved_papers (agent_after (removeSavedPaper agent x)))
      = select_by_id c' (saved_papers agent)
      /\ paper_summaries (agent_after (removeSavedPaper agent x))
         = paper_summaries agent
      /\ preferences (agent_after (removeSavedPaper agent x))
         = preferences agent).
Proof.
  intro Hne. split.
  - unfold savePaper.
    destruct (select_by_id (canonical (normalizeArxivId x))
                (saved_papers agent)) as [|existing others] eqn:Hsel.
    + destruct (fetchArxivPaperById _ _ _) as [| status | [paper|]];
        try (repeat split; reflexivity).
      unfold insert_row. cbn [arxiv_id].
      rewrite (select_nil_existsb _ _ Hsel).
      cbn [agent_after with_saved_papers saved_papers paper_summaries preferences]; rewrite ?preview_saved_papers, ?preview_summaries, ?preview_preferences; cbn [agent_after with_saved_papers saved_papers paper_summaries preferences].
      repeat split. apply select_snoc_other. cbn [arxiv_id]. congruence.
    + cbn [agent_after with_saved_papers saved_papers paper_summaries preferences]; rewrite ?preview_saved_papers, ?preview_summaries, ?preview_preferences; cbn [agent_after with_saved_papers saved_papers paper_summaries preferences].
      repeat split. now apply select_update_other.
  - unfold removeSavedPaper.
    destruct (negb (truthy_opt _)); [repeat split; reflexivity|].
    cbn [agent_after with_saved_papers saved_papers paper_summaries preferences]; rewrite ?preview_saved_papers, ?preview_summaries, ?preview_preferences; cbn [agent_after with_saved_papers saved_papers paper_summaries preferences].
    repeat split. now apply select_delete_other.
Qed.

Lemma X3_other_rows_untouched_witness :
  js "2301.00001" <> canonical (normalizeArxivId (js "2301.00002v4"))
  /\ select_by_id (js "2301.00001")
       (saved_papers
          (agent_after (removeSavedPaper (library_of [1; 2; 3]%N)
                          (js "2301.00002v4"))))
     = select_by_id (js "2301.00001") (saved_papers (library_of [1; 2; 3]%N)).
Proof.
  assert (H : js "2301.00001" <> canonical (normalizeArxivId (js "2301.00002v4")))
    by (vm_compute; discriminate).
  split; [exact H|].
  apply (X3_other_rows_untouched (world_of_feed [entry_ok])
           (library_of [1; 2; 3]%N) (js "2301.00002v4") (js "2301.00001")
           None H).
Defined.

(** ** The library preview *)




(** X5: saving a paper that is not stored and then removing it, under any
    raw id with the same canonical form, gives the table back as it was;
    the removal reports the title the save fetched.  (The title has to be
    non-empty for the removal to find the row.) *)
Theorem X5_save_then_remove (w : World) (agent : Agent) (x x' : jsstring)
    (tags : option (list jsstring)) (paper : ArxivPaper) :
  canonical (normalizeArxivId x') = canonical (normalizeArxivId x) ->
  select_by_id (canonical (normalizeArxivId x)) (saved_papers agent) = [] ->
  fetchArxivPaperById (fetchImpl w) (xml_parse w)
    (canonical (normalizeArxivId x)) = Returned (Some paper) ->
  paper_title paper <> [] ->
  let removal := removeSavedPaper (agent_after (savePaper w agent x tags)) x' in
  success (result removal) = true
  /\ remove_title (result removal) = Some (paper_title paper)
  /\ saved_papers (agent_after removal) = saved_papers agent.
Proof.
  intros Hsame Hsel Hfetch Htitle removal.
  destruct (savePaper_new w agent x tags paper Hsel Hfetch)
    as (row & Hid & Ht & _ & _ & _ & _ & Hsave).
  assert (Hrow : select_by_id (canonical (normalizeArxivId x'))
                   (saved_papers agent ++ [row]) = [row]).
  { rewrite Hsame, select_app, Hsel. simpl.
    apply has_id_eq in Hid. now rewrite Hid. }
  subst removal. rewrite Hsave.
  cbn [agent_after]. unfold removeSavedPaper.
  cbn [with_saved_papers saved_papers]; rewrite ?preview_saved_papers, ?preview_summaries, ?preview_preferences; cbn [with_saved_papers saved_papers].
  rewrite Hrow. cbn [truthy_opt]. rewrite Ht.
  apply truthy_nonempty in Htitle. rewrite Htitle.
  cbn [negb result agent_after success remove_title with_saved_papers saved_papers]; rewrite ?preview_saved_papers, ?preview_summaries, ?preview_preferences; cbn [negb result agent_after success remove_title with_saved_papers saved_papers].
  repeat split.
  unfold delete_by_id. rewrite filter_app.
  fold (delete_by_id (canonical (normalizeArxivId x')) (saved_papers agent)).
  rewrite Hsame in *. rewrite (delete_absent _ _ Hsel).
  simpl. apply has_id_eq in Hid. rewrite Hid. apply app_nil_r.
Qed.

Lemma X5_save_then_remove_witness :
  let w := world_of_feed [entry_ok] in
  let library := library_of [1; 2; 3]%N in
  let removal :=
    removeSavedPaper
      (agent_after (savePaper w library (js "2301.01234v2") (Some [js "ml"])))
      (js "https://arxiv.org/abs/2301.01234") in
  success (result removal) = true
  /\ remove_title (result removal) = Some (paper_title paper_ok)
  /\ saved_papers (agent_after removal) = saved_papers library.
Proof.
  apply (X5_save_then_remove (world_of_feed [entry_ok])
           (library_of [1; 2; 3]%N) (js "2301.01234v2")
           (js "https://arxiv.org/abs/2301.01234") (Some [js "ml"]) paper_ok);
    try reflexivity.
  vm_compute. discriminate.
Defined.

(** ** listSavedPapers *)

(** The result of a list call, in terms of the matching rows. *)
Lemma listSavedPapers_eq (toLowerCase : jsstring -> jsstring) (agent : Agent)
    (filterText tag : option jsstring) (limit : option nat) :
  listSavedPapers toLowerCase agent filterText tag limit
  = let matching :=
      filter (matches_filters toLowerCase filterText tag)
             (order_by_saved_at_desc (list_before (sql agent))
                                     (saved_papers agent)) in
    let effectiveLimit := Nat.min (or_default limit 20) 100 in
    mkListResult (map listed_of_row (firstn effectiveLimit matching))
                 filterText tag (List.length matching)
                 (effectiveLimit <? List.length matching) None.
Proof. unfold listSavedPapers. cbv zeta. now rewrite list_filters. Qed.

(** The rows a list call matches are the stored rows that pass the
    filters. *)
Lemma matching_rows (toLowerCase : jsstring -> jsstring)
    (before : SavedPaperRow -> SavedPaperRow -> bool)
    (table : list SavedPaperRow) (filterText tag : option jsstring)
    (row : SavedPaperRow) :
  In row (filter (matches_filters toLowerCase filterText tag)
                 (order_by_saved_at_desc before table))
  <-> In row table /\ matches_filters toLowerCase filterText tag row = true.
Proof.
  rewrite filter_In. split.
  - intros [H1 H2]. split; [|assumption].
    now apply (Permutation_in _ (Permutation_sym (order_by_perm before table))).
  - intros [H1 H2]. split; [|assumption].
    now apply (Permutation_in _ (order_by_perm before table)).
Qed.

(** A list call that is not truncated returns every matching row. *)
Lemma list_complete (toLowerCase : jsstring -> jsstring) (agent : Agent)
    (filterText tag : option jsstring) (limit : option nat)
    (row : SavedPaperRow) :
  wasTruncated (listSavedPapers toLowerCase agent filterText tag limit) = false ->
  In row (saved_papers agent) ->
  matches_filters toLowerCase filterText tag row = true ->
  In (listed_of_row row)
     (papers (listSavedPapers toLowerCase agent filterText tag limit)).
Proof.
  rewrite listSavedPapers_eq. cbv zeta. cbn [papers wasTruncated].
  intros Ht Hrow Hm. apply Nat.ltb_ge in Ht.
  rewrite firstn_all2 by assumption.
  apply in_map. now apply matching_rows.
Qed.

Lemma listed_shown (row : SavedPaperRow) : shown_as row (listed_of_row row).
Proof. repeat split. Qed.

(** X6: whatever limit is asked for, a list call returns at most 100
    papers and at most the limit (20 when none is given); every paper it
    returns shows a stored row that passes the filters (the tag is among
    the row's tags, and the text occurs in its title or abstract, letter
    case aside); and when the call reports no error and wasTruncated =
    false, it shows every stored row that passes them. *)
Theorem X6_list_cap_and_membership (toLowerCase : jsstring -> jsstring)
    (agent : Agent) (filterText tag : option jsstring) (limit : option nat) :
  let r := listSavedPapers toLowerCase agent filterText tag limit in
  List.length (papers r) <= 100
  /\ List.length (papers r) <= or_default limit 20
  /\ List.length (papers r) <= totalCount r
  /\ totalCount r <= List.length (saved_papers agent)
  /\ (forall p, In p (papers r) ->
        exists row, In row (saved_papers agent)
                    /\ matches toLowerCase filterText tag row
                    /\ shown_as row p)
  /\ (list_error r = None -> wasTruncated r = false ->
      forall row, In row (saved_papers agent) ->
        matches toLowerCase filterText tag row ->
        exists p, In p (papers r) /\ shown_as row p).
Proof.
  intro r. subst r. rewrite listSavedPapers_eq. cbv zeta.
  cbn [papers totalCount wasTruncated list_error].
  set (matching := filter (matches_filters toLowerCase filterText tag)
                          (order_by_saved_at_desc (list_before (sql agent))
                                                  (saved_papers agent))).
  set (n := Nat.min (or_default limit 20) 100).
  assert (Hlen : List.length (map listed_of_row (firstn n matching))
                 = Nat.min n (List.length matching))
    by now rewrite length_map, length_firstn.
  assert (Hin := matching_rows toLowerCase (list_before (sql agent))
                   (saved_papers agent) filterText tag).
  fold matching in Hin.
  split; [rewrite Hlen; unfold n; lia|].
  split; [rewrite Hlen; unfold n; lia|].
  split; [rewrite Hlen; lia|].
  split; [|split].
  - unfold matching.
    rewrite (Permutation_length
               (order_by_perm (list_before (sql agent)) (saved_papers agent))).
    apply filter_length_le.
  - intros p Hp. apply in_map_iff in Hp as (row & <- & Hrow).
    exists row. assert (H : In row matching).
    { rewrite <- (firstn_skipn n matching). apply in_or_app. now left. }
    apply Hin in H as [H1 H2].
    split; [exact H1|]. split; [|apply listed_shown].
    now apply matches_filters_spec.
  - intros _ Ht row Hrow Hm. apply Nat.ltb_ge in Ht.
    exists (listed_of_row row). split; [|apply listed_shown].
    rewrite firstn_all2 by assumption.
    apply in_map, Hin. split; [exact Hrow|].
    now apply matches_filters_spec.
Qed.

(** X7: a paper saved with a tag is found by a list call that filters by
    that tag in any letter case, as long as the call reports
    wasTruncated = false. *)
Theorem X7_saved_paper_is_listed (toLowerCase : jsstring -> jsstring)
    (w : World) (agent : Agent) (x : jsstring) (tags : option (list jsstring))
    (t t' : jsstring) (limit : option nat) :
  save_error (result (savePaper w agent x tags)) = None ->
  In t (or_default tags []) ->
  t' <> [] -> toLowerCase t' = toLowerCase t ->
  let r := listSavedPapers toLowerCase (agent_after (savePaper w agent x tags))
             None (Some t') limit in
  wasTruncated r = false ->
  exists p, In p (papers r)
            /\ listed_arxivId p = canonical (normalizeArxivId x)
            /\ In t (listed_tags p).
Proof.
  intros Hok Ht Ht' Hlower r Htrunc.
  destruct (savePaper_stores_row w agent x tags Hok)
    as (row & Hrow & Hid & _ & _ & _ & _ & Htags).
  exists (listed_of_row row). repeat split; trivial.
  - apply (list_complete toLowerCase _ None (Some t') limit row Htrunc Hrow).
    unfold matches_filters. cbn [truthy_opt or_default].
    apply truthy_nonempty in Ht'. rewrite Ht'. rewrite andb_true_r.
    unfold tag_filter. apply existsb_exists. exists t. split.
    + now apply Htags.
    + rewrite Hlower. apply str_eqb_refl.
  - cbn [listed_of_row listed_tags]. now apply Htags.
Qed.

Lemma X7_saved_paper_is_listed_witness :
  let saved :=
    agent_after (savePaper (world_of_feed [entry_ok]) (library_of [1; 2]%N)
                   (js "2301.01234v2") (Some [js "Diffusion"])) in
  exists p,
    In p (papers (listSavedPapers ascii_toLowerCase saved None
                    (Some (js "diffusion")) None))
    /\ listed_arxivId p = canonical (normalizeArxivId (js "2301.01234v2"))
    /\ In (js "Diffusion") (listed_tags p).
Proof.
  apply (X7_saved_paper_is_listed ascii_toLowerCase (world_of_feed [entry_ok])
           (library_of [1; 2]%N) (js "2301.01234v2") (Some [js "Diffusion"])
           (js "Diffusion") (js "diffusion") None);
    try reflexivity.
  - now left.
  - vm_compute. discriminate.
Defined.

(** ** summarizePaper *)

Lemma select_summary_inserted (row : SummaryRow) (table : list SummaryRow) :
  select_summary (summary_key row) (insert_or_replace_summary row table)
  = [row].
Proof.
  unfold select_summary, insert_or_replace_summary.
  rewrite filter_app. simpl. rewrite str_eqb_refl.
  replace (filter _ (filter _ table)) with (@nil SummaryRow); [reflexivity|].
  symmetry. induction table as [|r table IH]; simpl; [reflexivity|].
  destruct (str_eqb (summary_key r) (summary_key row)) eqn:E; simpl;
    [exact IH | now rewrite E].
Qed.

(** X8: when a summarize call returns a summary and the two cache
    statements do not throw, the next call for the same id (whatever the
    network and the model would do then) is served from the cache: the
    same text, cached = true, no request, no call to the model, nothing
    written. *)
Theorem X8_summarize_again_is_cached (w w' : World) (agent : Agent)
    (x : jsstring) :
  summarize_error (result (summarizePaper w agent x)) = None ->
  throws (sql agent) SelectSummary = false ->
  throws (sql agent) InsertSummary = false ->
  let first := summarizePaper w agent x in
  let second := summarizePaper w' (agent_after first) x in
  cached (result second) = true
  /\ summaryMd (result second) = summaryMd (result first)
  /\ summarize_error (result second) = None
  /\ requests second = []
  /\ generations second = []
  /\ agent_after second = agent_after first.
Proof.
  intros Hok Hread Hwrite first second.
  destruct (select_summary (summaryKey x) (paper_summaries agent))
    as [|hit others] eqn:Hsel.
  - destruct (fetchArxivPaperById (fetchImpl w) (xml_parse w) x)
      as [| status | [paper|]] eqn:Hf;
      try (unfold summarizePaper in Hok; rewrite Hread, Hsel, Hf in Hok;
           discriminate Hok).
    destruct (generateText w paper) as [text|] eqn:Hg;
      [|unfold summarizePaper in Hok; rewrite Hread, Hsel, Hf, Hg in Hok;
        discriminate Hok].
    assert (Hfirst : first
              = mkOutcome
                  (mkSummarizeResult x (Some (paper_title paper)) text false
                                     None)
                  (with_paper_summaries agent
                     (insert_or_replace_summary
                        (mkSummaryRow (summaryKey x) text (now w))
                        (paper_summaries agent)))
                  [fetch_url_by_id x] [paper]).
    { subst first. unfold summarizePaper.
      now rewrite Hread, Hwrite, Hsel, Hf, Hg. }
    subst second. rewrite Hfirst. cbn [agent_after result summaryMd].
    rewrite (summarize_cache_hit w' _ x
               (mkSummaryRow (summaryKey x) text (now w)) []).
    + repeat split.
    + exact Hread.
    + cbn [with_paper_summaries paper_summaries].
      apply (select_summary_inserted (mkSummaryRow (summaryKey x) text (now w))).
  - assert (Hfirst : first
              = mkOutcome (mkSummarizeResult x None (summary_md hit) true None)
                          agent [] [])
      by (subst first; now apply summarize_cache_hit with (others := others)).
    subst second. rewrite Hfirst. cbn [agent_after result summaryMd].
    rewrite (summarize_cache_hit w' agent x hit others Hread Hsel).
    repeat split.
Qed.

Lemma X8_summarize_again_is_cached_witness :
  let first := summarizePaper (world_of_feed [entry_ok]) empty_agent
                 (js "2301.01234v2") in
  let second := summarizePaper (world_of_feed []) (agent_after first)
                  (js "2301.01234v2") in
  cached (result second) = true
  /\ summaryMd (result second) = summaryMd (result first)
  /\ summarize_error (result second) = None
  /\ requests second = []
  /\ generations second = []
  /\ agent_after second = agent_after first.
Proof.
  apply (X8_summarize_again_is_cached (world_of_feed [entry_ok])
           (world_of_feed []) empty_agent (js "2301.01234v2"));
    reflexivity.
Defined.

(** When the cache write throws, the summary is returned and not kept:
    the next call generates it again. *)
Example summary_not_cached :
  let library := library_on failing [] in
  let first := summarizePaper (world_of_feed [entry_ok]) library
                 (js "2301.01234v2") in
  let second := summarizePaper (world_of_feed [entry_ok]) (agent_after first)
                  (js "2301.01234v2") in
  summarize_error (result first) = None
  /\ agent_after first = library
  /\ cached (result second) = false
  /\ generations second = [paper_ok].
Proof. repeat split. Qed.

(** X9: a summarize call never touches the library, asks the network and
    the model at most once each, and writes to the cache only when it
    returns a freshly generated summary: a failed call and a cache hit
    leave the agent as it was, and a cache hit asks nobody.  A fresh
    summary is stored under the key of the id, unless the write throws:
    the summary is then returned all the same and the agent is left as
    it was. *)
Theorem X9_summarize_effects (w : World) (agent : Agent) (x : jsstring) :
  let o := summarizePaper w agent x in
  saved_papers (agent_after o) = saved_papers agent
  /\ libraryPreview (agent_after o) = libraryPreview agent
  /\ preferences (agent_after o) = preferences agent
  /\ List.length (requests o) <= 1
  /\ List.length (generations o) <= 1
  /\ (summarize_error (result o) <> None -> agent_after o = agent)
  /\ (cached (result o) = true ->
      agent_after o = agent /\ requests o = [] /\ generations o = [])
  /\ (summarize_error (result o) = None -> cached (result o) = false ->
      List.length (generations o) = 1
      /\ (throws (sql agent) InsertSummary = false ->
          map summary_md
              (select_summary (summaryKey x)
                 (paper_summaries (agent_after o)))
          = [summaryMd (result o)])
      /\ (throws (sql agent) InsertSummary = true -> agent_after o = agent)).
Proof.
  unfold summarizePaper.
  destruct (if throws (sql agent) SelectSummary then []
            else select_summary (summaryKey x) (paper_summaries agent))
    as [|hit others];
    [destruct (fetchArxivPaperById _ _ _) as [| status | [paper|]];
     [| | destruct (generateText w paper) as [text|];
          [destruct (throws (sql agent) InsertSummary) eqn:Hwrite|] |] |];
    cbn [result agent_after requests generations with_paper_summaries
         saved_papers libraryPreview preferences paper_summaries
         summarize_error cached summaryMd List.length];
    repeat split; try lia; try discriminate;
    try (intro H; now elim H); try (intros _ H; discriminate H);
    try (intro H; discriminate H).
  intros _.
  now rewrite (select_summary_inserted
                 (mkSummaryRow (summaryKey x) text (now w))).
Qed.

(** X10: the summary cache keeps one entry per key: if the keys of
    [paper_summaries] are pairwise distinct before a summarize call, they
    are so after it. *)
Theorem X10_summary_keys_kept (w : World) (agent : Agent) (x : jsstring) :
  unique_keys (paper_summaries agent) ->
  unique_keys (paper_summaries (agent_after (summarizePaper w agent x))).
Proof.
  unfold unique_keys, summarizePaper. intro Hu.
  destruct (if throws (sql agent) SelectSummary then []
            else select_summary (summaryKey x) (paper_summaries agent))
    as [|hit others]; [|exact Hu].
  destruct (fetchArxivPaperById _ _ _) as [| status | [paper|]]; try exact Hu.
  destruct (generateText w paper) as [text|]; [|exact Hu].
  destruct (throws (sql agent) InsertSummary); [exact Hu|].
  cbn [agent_after with_paper_summaries paper_summaries].
  unfold insert_or_replace_summary. cbn [summary_key].
  rewrite map_app. apply NoDup_app.
  - now apply distinct_keys_filter.
  - repeat constructor. intros [].
  - intros k Hk [<-|[]].
    apply in_map_iff in Hk as (r & E & Hr).
    apply filter_In in Hr as [_ Hr]. apply negb_true_iff in Hr.
    apply str_eqb_neq in Hr. contradiction.
Qed.

Lemma X10_summary_keys_kept_witness :
  unique_keys (paper_summaries empty_agent)
  /\ unique_keys
       (paper_summaries
          (agent_after (summarizePaper (world_of_feed [entry_ok]) empty_agent
                          (js "2301.01234v2")))).
Proof.
  assert (H : unique_keys (paper_summaries empty_agent)) by constructor.
  split; [exact H|].
  exact (X10_summary_keys_kept (world_of_feed [entry_ok]) empty_agent
           (js "2301.01234v2") H).
Defined.

Lemma X1_save_all_or_nothing_witness :
  save_error (result (savePaper (world_of_feed []) (library_of [1; 2]%N)
                        (js "2301.01234v2") (Some [js "ml"]))) <> None
  /\ agent_after (savePaper (world_of_feed []) (library_of [1; 2]%N)
                    (js "2301.01234v2") (Some [js "ml"]))
     = library_of [1; 2]%N
  /\ save_error (result (savePaper (world_of_feed [entry_ok])
                           (library_of [1; 2]%N) (js "2301.01234v2")
                           (Some [js "ml"]))) = None
  /\ exists row,
       In row (saved_papers
                 (agent_after (savePaper (world_of_feed [entry_ok])
                                 (library_of [1; 2]%N) (js "2301.01234v2")
                                 (Some [js "ml"]))))
       /\ arxiv_id row = js "2301.01234" /\ In (js "ml") (tags_json row).
Proof.
  assert (Hfail : save_error
                    (result (savePaper (world_of_feed []) (library_of [1; 2]%N)
                               (js "2301.01234v2") (Some [js "ml"]))) <> None)
    by (vm_compute; discriminate).
  split; [exact Hfail|]. split.
  - exact (proj1 (X1_save_all_or_nothing (world_of_feed [])
                    (library_of [1; 2]%N) (js "2301.01234v2") (Some [js "ml"]))
             Hfail).
  - split; [reflexivity|].
    destruct (proj2 (X1_save_all_or_nothing (world_of_feed [entry_ok])
                       (library_of [1; 2]%N) (js "2301.01234v2")
                       (Some [js "ml"])) eq_refl)
      as (row & Hrow & Hid & _ & _ & _ & _ & Htags).
    exists row. repeat split; trivial. apply Htags. now left.
Defined.

Lemma X6_list_cap_and_membership_witness :
  let r := listSavedPapers ascii_toLowerCase (library_of [3; 1; 2]%N)
             (Some (js "PAPER")) None (Some 500) in
  wasTruncated r = false
  /\ exists p, In p (papers r) /\ shown_as (row_saved_at 2) p.
Proof.
  split; [reflexivity|].
  pose proof (X6_list_cap_and_membership ascii_toLowerCase
                (library_of [3; 1; 2]%N) (Some (js "PAPER")) None (Some 500))
    as H6.
  cbv zeta in H6. destruct H6 as (_ & _ & _ & _ & _ & Hall).
  apply (Hall eq_refl eq_refl (row_saved_at 2)).
  - right. right. now left.
  - split; [intros t E; discriminate E|].
    intros f E _. apply Some_eq in E. subst f.
    left. exists [], []. reflexivity.
Defined.

Lemma X9_summarize_effects_witness :
  summarize_error
    (result (summarizePaper (world_of_feed []) empty_agent (js "2301.01234")))
  <> None
  /\ agent_after (summarizePaper (world_of_feed []) empty_agent
                    (js "2301.01234")) = empty_agent.
Proof.
  assert (H : summarize_error
                (result (summarizePaper (world_of_feed []) empty_agent
                           (js "2301.01234"))) <> None)
    by (vm_compute; discriminate).
  split; [exact H|].
  pose proof (X9_summarize_effects (world_of_feed []) empty_agent
                (js "2301.01234")) as H9.
  cbv zeta in H9. destruct H9 as (_ & _ & _ & _ & _ & Herr & _).
  exact (Herr H).
Defined.

(** ** searchArxiv *)

(** [searchArxiv], once [fetchArxivPapers] has returned papers. *)
Lemma searchArxiv_returned (Date_getTime : jsstring -> option Z) (w : World)
    (agent : Agent) (query : jsstring) (maxResults days : option N)
    (categories : option (list jsstring)) (fetched : list ArxivPaper) :
  fetchArxivPapers (fetchImpl w) (xml_parse w) query
    (search_options agent maxResults categories) = Some (Returned fetched) ->
  exists url,
    buildArxivQueryUrl query (search_options agent maxResults categories)
    = Some url
    /\ searchArxiv Date_getTime w agent query maxResults days categories
       = Some (mkOutcome
                 (mkSearchResult
                    (filter (is_recent Date_getTime
                               (cutoffTime w
                                  (or_default days
                                     (recencyDays (preferences agent)))))
                            fetched)
                    query
                    (or_default days (recencyDays (preferences agent)))
                    (List.length fetched)
                    (List.length
                       (filter (is_recent Date_getTime
                                  (cutoffTime w
                                     (or_default days
                                        (recencyDays (preferences agent)))))
                               fetched))
                    None)
                 agent [url] []).
Proof.
  intro Hf. unfold searchArxiv. rewrite Hf.
  unfold fetchArxivPapers in Hf.
  destruct (buildArxivQueryUrl _ _) as [url|]; [|discriminate].
  now exists url.
Qed.

(** X11: a search that fetched papers returns those of them whose
    published date reads as a time not older than the recency window, in
    the order of the feed; a paper whose date does not parse is left out;
    totalFetched counts the fetched papers and totalAfterFilter the
    returned ones.  The window is the argument, or the preference when
    the argument is absent; the agent is not changed. *)
Theorem X11_search_recency_filter (Date_getTime : jsstring -> option Z)
    (w : World) (agent : Agent) (query : jsstring)
    (maxResults days : option N) (categories : option (list jsstring))
    (fetched : list ArxivPaper) :
  fetchArxivPapers (fetchImpl w) (xml_parse w) query
    (search_options agent maxResults categories) = Some (Returned fetched) ->
  exists o,
    searchArxiv Date_getTime w agent query maxResults days categories = Some o
    /\ agent_after o = agent
    /\ search_error (result o) = None
    /\ search_recencyDays (result o)
       = or_default days (recencyDays (preferences agent))
    /\ totalFetched (result o) = List.length fetched
    /\ totalAfterFilter (result o) = List.length (search_papers (result o))
    /\ totalAfterFilter (result o) <= totalFetched (result o)
    /\ search_papers (result o)
       = filter (fun p =>
                   match Date_getTime (paper_published p) with
                   | Some t =>
                       (Z.of_N (now w)
                        - Z.of_N (search_recencyDays (result o)) * 86400000
                        <=? t)%Z
                   | None => false
                   end) fetched
    /\ (forall p, In p (search_papers (result o)) ->
          In p fetched
          /\ exists t, Date_getTime (paper_published p) = Some t
                       /\ (Z.of_N (now w)
                           - Z.of_N (search_recencyDays (result o)) * 86400000
                           <= t)%Z).
Proof.
  intro Hf.
  destruct (searchArxiv_returned Date_getTime w agent query maxResults days
              categories fetched Hf) as (url & _ & Hs).
  eexists. split; [exact Hs|].
  cbn [result agent_after search_error search_recencyDays totalFetched
       totalAfterFilter search_papers].
  assert (Hkeep : forall p,
            is_recent Date_getTime
              (cutoffTime w (or_default days (recencyDays (preferences agent))))
              p
            = match Date_getTime (paper_published p) with
              | Some t =>
                  (Z.of_N (now w)
                   - Z.of_N (or_default days (recencyDays (preferences agent)))
                     * 86400000 <=? t)%Z
              | None => false
              end).
  { intro p. unfold is_recent, cutoffTime.
    destruct (Date_getTime (paper_published p)); [|reflexivity].
    f_equal. lia. }
  repeat split; trivial.
  - apply filter_length_le.
  - apply filter_ext. exact Hkeep.
  - now apply filter_In in H.
  - apply filter_In in H as [_ H]. rewrite Hkeep in H.
    destruct (Date_getTime (paper_published p)) as [t|]; [|discriminate].
    exists t. split; [reflexivity|]. now apply Z.leb_le.
Qed.

Lemma X11_search_recency_filter_witness :
  exists o,
    searchArxiv sample_clock
      (world_of_feed [entry_dated (js "old"); entry_dated (js "new")])
      empty_agent (js "diffusion models") None (Some 30%N) None = Some o
    /\ totalFetched (result o) = 2
    /\ map paper_published (search_papers (result o)) = [js "new"].
Proof.
  destruct (X11_search_recency_filter sample_clock
              (world_of_feed [entry_dated (js "old"); entry_dated (js "new")])
              empty_agent (js "diffusion models") None (Some 30%N) None
              (parseArxivAtom
                 (fun _ => feed_of [entry_dated (js "old");
                                    entry_dated (js "new")])
                 (js "<feed/>"))
              eq_refl)
    as (o & Hs & _ & _ & Hdays & Hfetched & _ & _ & Hpapers & _).
  exists o. split; [exact Hs|]. split; [exact Hfetched|].
  rewrite Hpapers, Hdays. reflexivity.
Defined.

Lemma buildArxivQueryUrl_none (query : jsstring) (o : ArxivSearchOptions) :
  buildArxivQueryUrl query o = None <-> encodeURIComponent query = None.
Proof.
  unfold buildArxivQueryUrl, search_query_value.
  destruct (categories o) as [[|cat cats]|];
    destruct (encodeURIComponent query) as [q|]; cbn [option_map];
    split; intro H; try discriminate H; reflexivity.
Qed.

(** X12: the failures of the request are answered, not thrown: when the
    request is rejected, and when the response is not OK, the search
    returns a result with no papers, both counts 0 and a message that
    tells a network failure from an HTTP status; it has made the one
    request and the agent is not changed.  A query that
    [encodeURIComponent] refuses makes the search throw. *)
Theorem X12_search_failures (Date_getTime : jsstring -> option Z)
    (w : World) (agent : Agent) (query : jsstring)
    (maxResults days : option N) (categories : option (list jsstring)) :
  (encodeURIComponent query = None ->
   searchArxiv Date_getTime w agent query maxResults days categories = None)
  /\ forall url,
       buildArxivQueryUrl query (search_options agent maxResults categories)
       = Some url ->
       (fetchImpl w url = Rejects ->
        exists o,
          searchArxiv Date_getTime w agent query maxResults days categories
          = Some o
          /\ agent_after o = agent /\ requests o = [url]
          /\ search_error (result o) = Some msg_network
          /\ search_papers (result o) = []
          /\ totalFetched (result o) = 0 /\ totalAfterFilter (result o) = 0)
       /\ (forall status text,
             fetchImpl w url = Responds false status text ->
             exists o,
               searchArxiv Date_getTime w agent query maxResults days
                 categories = Some o
               /\ agent_after o = agent /\ requests o = [url]
               /\ search_error (result o) = Some (msg_http status)
               /\ search_papers (result o) = []
               /\ totalFetched (result o) = 0
               /\ totalAfterFilter (result o) = 0).
Proof.
  split.
  - intro H.
    apply (buildArxivQueryUrl_none query
             (search_options agent maxResults categories)) in H.
    unfold searchArxiv, fetchArxivPapers. now rewrite H.
  - intros url Hurl. unfold searchArxiv, fetchArxivPapers. rewrite Hurl.
    split.
    + intros ->. eexists. split; [reflexivity|]. repeat split.
    + intros status text ->. cbn [negb].
      eexists. split; [reflexivity|]. repeat split.
Qed.

Lemma X12_search_failures_witness :
  exists o,
    searchArxiv sample_clock offline_world empty_agent (js "diffusion")
      None None None = Some o
    /\ search_error (result o) = Some msg_network
    /\ search_papers (result o) = [].
Proof.
  destruct (proj1 (proj2 (X12_search_failures sample_clock offline_world
                            empty_agent (js "diffusion") None None None)
                     (or_default
                        (buildArxivQueryUrl (js "diffusion")
                           (search_options empty_agent None None)) [])
                     eq_refl) eq_refl)
    as (o & Hs & _ & _ & He & Hp & _).
  exists o. split; [exact Hs|]. exact (conj He Hp).
Defined.

(* ===================================================================== *)
(** * Further properties of the feed parser                               *)
(* ===================================================================== *)

(** ** White space in titles and abstracts *)

Lemma white_space_32 : is_white_space 32%N = true.
Proof. reflexivity. Qed.

Lemma collapse_clean (c : code_unit) (s : jsstring) :
  is_white_space c = false ->
  collapse_white_space (c :: s) = c :: collapse_white_space s.
Proof. intro H. cbn [collapse_white_space]. now rewrite H. Qed.

Lemma collapse_space (c : code_unit) (s : jsstring) :
  is_white_space c = true ->
  collapse_white_space (c :: s)
  = match s with
    | c' :: _ =>
        if is_white_space c' then collapse_white_space s
        else 32%N :: collapse_white_space s
    | [] => [32%N]
    end.
Proof. intro H. cbn [collapse_white_space]. now rewrite H. Qed.

Lemma no_double_space_cons (c : code_unit) (s : jsstring) :
  no_double_space (c :: s)
  = (negb (is_white_space c) || starts_clean s) && no_double_space s.
Proof.
  cbn [no_double_space]. destruct s as [|c' s]; simpl.
  - now rewrite orb_true_r.
  - now rewrite negb_andb.
Qed.

Lemma collapse_head (s : jsstring) :
  starts_clean (collapse_white_space s) = starts_clean s.
Proof.
  induction s as [|c s IH]; [reflexivity|].
  destruct (is_white_space c) eqn:Hc.
  - rewrite (collapse_space c s Hc). cbn [starts_clean]. rewrite Hc.
    destruct s as [|c' s]; [reflexivity|].
    destruct (is_white_space c') eqn:Hc'.
    + rewrite IH. cbn [starts_clean]. now rewrite Hc'.
    + reflexivity.
  - rewrite (collapse_clean c s Hc). cbn [starts_clean]. reflexivity.
Qed.

Lemma collapse_only_plain_spaces (s : jsstring) :
  only_plain_spaces (collapse_white_space s) = true.
Proof.
  induction s as [|c s IH]; [reflexivity|].
  destruct (is_white_space c) eqn:Hc.
  - rewrite (collapse_space c s Hc).
    destruct s as [|c' s]; [reflexivity|].
    destruct (is_white_space c'); [exact IH|].
    unfold only_plain_spaces in *. cbn [forallb]. now rewrite IH.
  - rewrite (collapse_clean c s Hc).
    unfold only_plain_spaces in *. cbn [forallb]. now rewrite Hc, IH.
Qed.

Lemma collapse_no_double_space (s : jsstring) :
  no_double_space (collapse_white_space s) = true.
Proof.
  induction s as [|c s IH]; [reflexivity|].
  destruct (is_white_space c) eqn:Hc.
  - rewrite (collapse_space c s Hc).
    destruct s as [|c' s]; [reflexivity|].
    destruct (is_white_space c') eqn:Hc'; [exact IH|].
    rewrite no_double_space_cons, IH, collapse_head.
    cbn [starts_clean]. rewrite Hc'. now rewrite orb_true_r.
  - rewrite (collapse_clean c s Hc).
    rewrite no_double_space_cons, IH, Hc. reflexivity.
Qed.

Lemma no_double_space_app (a b : jsstring) :
  no_double_space (a ++ b) = true ->
  no_double_space a = true /\ no_double_space b = true.
Proof.
  induction a as [|c a IH]; [now split|].
  change ((c :: a) ++ b) with (c :: (a ++ b)).
  rewrite !no_double_space_cons. intro H.
  apply andb_true_iff in H as [H1 H2].
  destruct (IH H2) as [Ha Hb]. split; [|exact Hb].
  rewrite Ha, andb_true_r.
  destruct a as [|c' a]; [now rewrite orb_true_r | exact H1].
Qed.

Lemma only_plain_spaces_app (a b : jsstring) :
  only_plain_spaces (a ++ b) = only_plain_spaces a && only_plain_spaces b.
Proof. apply forallb_app. Qed.

Lemma trim_start_split (s : jsstring) :
  exists a, s = a ++ trim_start s /\ forallb is_white_space a = true.
Proof.
  induction s as [|c s (a & E & Ha)]; [now exists []|].
  cbn [trim_start]. destruct (is_white_space c) eqn:Hc.
  - exists (c :: a). split; [simpl; now rewrite <- E | simpl; now rewrite Hc].
  - now exists [].
Qed.

Lemma trim_start_clean (s : jsstring) : starts_clean (trim_start s) = true.
Proof.
  induction s as [|c s IH]; [reflexivity|].
  cbn [trim_start]. destruct (is_white_space c) eqn:Hc; [exact IH|].
  cbn [starts_clean]. now rewrite Hc.
Qed.

Lemma trim_start_id (s : jsstring) :
  starts_clean s = true -> trim_start s = s.
Proof.
  destruct s as [|c s]; [reflexivity|]. cbn [starts_clean trim_start].
  intro H. apply negb_true_iff in H. now rewrite H.
Qed.

(** [trim] takes white space off both ends and keeps what is between. *)
Lemma trim_split (s : jsstring) :
  exists a b,
    s = a ++ trim s ++ b
    /\ forallb is_white_space a = true /\ forallb is_white_space b = true.
Proof.
  unfold trim.
  destruct (trim_start_split s) as (a & Ea & Ha).
  destruct (trim_start_split (rev (trim_start s))) as (p & Ep & Hp).
  exists a, (rev p). repeat split; trivial.
  - rewrite <- rev_app_distr, <- Ep, rev_involutive. exact Ea.
  - rewrite forallb_forall in *. intros c Hc. apply Hp. now apply in_rev.
Qed.

Lemma trim_trimmed (s : jsstring) : trimmed (trim s) = true.
Proof.
  unfold trimmed, trim. rewrite rev_involutive.
  rewrite (trim_start_clean (rev (trim_start s))), andb_true_r.
  destruct (trim_start_split (rev (trim_start s))) as (p & Ep & _).
  pose proof (trim_start_clean s) as Hs.
  assert (E : trim_start s = rev (trim_start (rev (trim_start s))) ++ rev p).
  { rewrite <- rev_app_distr, <- Ep. now rewrite rev_involutive. }
  destruct (rev (trim_start (rev (trim_start s)))) as [|c u]; [reflexivity|].
  rewrite E in Hs. exact Hs.
Qed.

Lemma clean_text_normalized (t : jsstring) :
  normalized_text (clean_text t) = true.
Proof.
  unfold normalized_text, clean_text.
  destruct (trim_split (collapse_white_space t)) as (a & b & E & _ & _).
  pose proof (collapse_only_plain_spaces t) as H1.
  pose proof (collapse_no_double_space t) as H2.
  rewrite E in H1, H2.
  rewrite !only_plain_spaces_app in H1.
  apply andb_true_iff in H1 as [_ H1]. apply andb_true_iff in H1 as [H1 _].
  apply no_double_space_app in H2 as [_ H2].
  apply no_double_space_app in H2 as [H2 _].
  now rewrite H1, H2, trim_trimmed.
Qed.

(** X13: the text [parseEntry] keeps for a title or an abstract is in
    normal form, whatever the feed sends: its only white space is the
    plain space, never two in a row, none at the start or the end (so no
    line break and no tab). *)
Theorem X13_clean_text_normal_form (s : jsstring) :
  normalized_text (clean_text s) = true
  /\ forall e p, parseEntry e = Some p ->
       normalized_text (paper_title p) = true
       /\ normalized_text (paper_abstract p) = true.
Proof.
  split; [apply clean_text_normalized|].
  intros e p H.
  apply parseEntry_inv in H as (i & t & d & _ & _ & _ & _ & _ & _ & _ & ->).
  cbn [paper_title paper_abstract].
  split; [apply clean_text_normalized|].
  destruct (entry_summary e); [apply clean_text_normalized | reflexivity].
Qed.

Lemma collapse_id (s : jsstring) :
  only_plain_spaces s = true -> no_double_space s = true ->
  collapse_white_space s = s.
Proof.
  induction s as [|c s IH]; [reflexivity|].
  unfold only_plain_spaces. cbn [forallb]. fold (only_plain_spaces s).
  rewrite no_double_space_cons. intros H1 H2.
  apply andb_true_iff in H1 as [Hc H1]. apply andb_true_iff in H2 as [Hc' H2].
  destruct (is_white_space c) eqn:Hws.
  - simpl in Hc. apply N.eqb_eq in Hc. subst c.
    rewrite (collapse_space _ s Hws). simpl in Hc'.
    destruct s as [|c' s]; [reflexivity|].
    cbn [starts_clean] in Hc'. apply negb_true_iff in Hc'. rewrite Hc'.
    now rewrite IH.
  - rewrite (collapse_clean c s Hws). now rewrite IH.
Qed.

Lemma trim_id (s : jsstring) : trimmed s = true -> trim s = s.
Proof.
  unfold trimmed, trim. intro H. apply andb_true_iff in H as [H1 H2].
  rewrite (trim_start_id s H1), (trim_start_id (rev s) H2).
  apply rev_involutive.
Qed.

(** X14: cleaning leaves exactly the texts in normal form as they are,
    so cleaning twice is the same as cleaning once. *)
Theorem X14_clean_text_fixpoints (s : jsstring) :
  (clean_text s = s <-> normalized_text s = true)
  /\ clean_text (clean_text s) = clean_text s.
Proof.
  assert (Hid : forall t, normalized_text t = true -> clean_text t = t).
  { intros t H. unfold normalized_text in H.
    apply andb_true_iff in H as [H H3]. apply andb_true_iff in H as [H1 H2].
    unfold clean_text. rewrite (collapse_id t H1 H2). now apply trim_id. }
  split; [split|].
  - intro E. rewrite <- E. apply clean_text_normalized.
  - apply Hid.
  - apply Hid. apply clean_text_normalized.
Qed.

(* ===================================================================== *)
(** * Further properties of the identifier normaliser                     *)
(* ===================================================================== *)

Section LazyDotsSplit.
Variable B : Type.
Variable accept : jsstring -> option B.

Lemma lazy_dots_extends (rest : jsstring) : forall acc cap b,
  lazy_dots accept acc rest = Some (cap, b) ->
  exists u v, cap = acc ++ u /\ rest = u ++ v.
Proof.
  induction rest as [|c rest IH]; intros acc cap b H; simpl in H.
  - destruct (accept []); [|discriminate]. inversion H; subst.
    exists [], []. now rewrite app_nil_r.
  - destruct (accept (c :: rest)).
    + inversion H; subst. exists [], (c :: rest). now rewrite app_nil_r.
    + destruct (is_line_terminator c); [discriminate|].
      apply IH in H as (u & v & -> & ->). exists (c :: u), v.
      split; [now rewrite <- app_assoc | reflexivity].
Qed.

Lemma dot_plus_lazy_split (s cap : jsstring) (b : B) :
  dot_plus_lazy accept s = Some (cap, b) ->
  cap <> [] /\ exists v, s = cap ++ v.
Proof.
  destruct s as [|c rest]; simpl; [discriminate|].
  destruct (is_line_terminator c); [discriminate|].
  intro H. apply lazy_dots_extends in H as (u & v & -> & ->).
  split; [discriminate | now exists v].
Qed.
End LazyDotsSplit.

Lemma strip_prefix_ci_split (pat : jsstring) : forall s r,
  strip_prefix_ci pat s = Some r -> exists p, s = p ++ r.
Proof.
  induction pat as [|p pat IH]; intros s r H; simpl in H.
  - inversion H. now exists [].
  - destruct s as [|c s]; [discriminate|].
    destruct (ci_eqb p c); [|discriminate].
    apply IH in H as (q & ->). now exists (c :: q).
Qed.

Lemma url_match_here_split (s cap : jsstring) :
  url_match_here s = Some cap ->
  cap <> [] /\ exists pre post, s = pre ++ cap ++ post.
Proof.
  unfold url_match_here.
  set (after := match strip_prefix_ci (js "arxiv.org/abs/") s with
                | Some r => Some r
                | None => strip_prefix_ci (js "arxiv.org/pdf/") s
                end).
  assert (Hafter : forall r, after = Some r -> exists p, s = p ++ r).
  { subst after. intros r.
    destruct (strip_prefix_ci (js "arxiv.org/abs/") s) eqn:E.
    - intro H. inversion H; subst. now apply strip_prefix_ci_split in E.
    - apply strip_prefix_ci_split. }
  destruct after as [r|]; [|discriminate].
  destruct (Hafter r eq_refl) as (p & ->).
  destruct (dot_plus_lazy accept_pdf_end r) as [[cap' u]|] eqn:E;
    [|discriminate].
  intro H. inversion H; subst cap'.
  apply dot_plus_lazy_split in E as (Hne & v & ->).
  split; [assumption | now exists p, v].
Qed.

Lemma urlMatch_split (s : jsstring) : forall cap,
  urlMatch s = Some cap ->
  cap <> [] /\ exists pre post, s = pre ++ cap ++ post.
Proof.
  induction s as [|c s IH]; intro cap; rewrite urlMatch_eq.
  - destruct (url_match_here []) eqn:E; [|discriminate].
    intro H. inversion H; subst. now apply url_match_here_split.
  - destruct (url_match_here (c :: s)) eqn:E.
    + intro H. inversion H; subst. now apply url_match_here_split.
    + intro H. apply IH in H as (Hne & pre & post & ->).
      split; [assumption | now exists (c :: pre), post].
Qed.

(** The canonical id is the first capture of the version expression on
    the identifier, or the identifier itself. *)
Lemma canonical_cases (x : jsstring) :
  exists id,
    (urlMatch x = Some id \/ (urlMatch x = None /\ id = x))
    /\ ((versionMatch id = None /\ canonical (normalizeArxivId x) = id)
        \/ exists v,
             versionMatch id = Some (canonical (normalizeArxivId x), v)).
Proof.
  unfold normalizeArxivId.
  destruct (urlMatch x) as [cap|].
  - exists cap. split; [now left|].
    destruct (versionMatch cap) as [[can [ds|]]|];
      [right; exists (Some ds); now destruct (truthy ds)
      | right; now exists None | now left].
  - exists x. split; [now right|].
    destruct (versionMatch x) as [[can [ds|]]|];
      [right; exists (Some ds); now destruct (truthy ds)
      | right; now exists None | now left].
Qed.

Lemma canonical_nonempty (x : jsstring) :
  x <> [] -> canonical (normalizeArxivId x) <> [].
Proof.
  intro Hx. destruct (canonical_cases x) as (id & Hid & Hcan).
  assert (Hne : id <> []).
  { destruct Hid as [Hid|[_ ->]]; [|exact Hx].
    now apply urlMatch_split in Hid. }
  destruct Hcan as [[_ ->]|[v Hv]]; [exact Hne|].
  now apply dot_plus_lazy_split in Hv.
Qed.

(** X15: the normaliser only cuts: for every input the canonical id is a
    contiguous part of the input, and it is empty only when the input
    is. *)
Theorem X15_canonical_is_cut_from_input (x : jsstring) :
  (exists pre post, x = pre ++ canonical (normalizeArxivId x) ++ post)
  /\ (canonical (normalizeArxivId x) = [] <-> x = []).
Proof.
  destruct (canonical_cases x) as (id & Hid & Hcan).
  assert (H1 : (id = [] -> x = [])
               /\ exists pre post, x = pre ++ id ++ post).
  { destruct Hid as [Hid|[_ ->]].
    - apply urlMatch_split in Hid as (Hne & pre & post & ->).
      split; [intro; contradiction | now exists pre, post].
    - split; [trivial | exists [], []; now rewrite app_nil_r]. }
  destruct H1 as (Hempty & pre & post & Ex).
  assert (H2 : (canonical (normalizeArxivId x) = [] -> id = [])
               /\ exists v, id = canonical (normalizeArxivId x) ++ v).
  { destruct Hcan as [[_ ->]|[v Hv]].
    - split; [trivial | exists []; now rewrite app_nil_r].
    - apply dot_plus_lazy_split in Hv as (Hne & u & E).
      split; [intro; contradiction | now exists u]. }
  destruct H2 as (Hempty' & v & Eid).
  split.
  - exists pre, (v ++ post). rewrite Ex at 1. rewrite Eid at 1.
    now rewrite <- app_assoc.
  - split; [intro H; now apply Hempty, Hempty' | intros ->; reflexivity].
Qed.

(** X16: the abstract-page URL and the PDF URL of an identifier, with
    [http] or [https], with or without [www.] and a closing [.pdf],
    normalise to the same record as the identifier itself. *)
Theorem X16_url_forms_agree (scheme www marker X pdf : jsstring) :
  scheme = js "http://" \/ scheme = js "https://" ->
  www = [] \/ www = js "www." ->
  marker = js "arxiv.org/abs/" \/ marker = js "arxiv.org/pdf/" ->
  bare_id X = true ->
  pdf = [] \/ pdf = js ".pdf" ->
  normalizeArxivId (scheme ++ www ++ marker ++ X ++ pdf) = normalizeArxivId X.
Proof.
  intros Hscheme Hwww Hmarker HX Hpdf.
  apply bare_id_shape in HX as (B & V & -> & HB & HV).
  destruct (id_shape_facts B V HB HV) as (Hne & Hlt & Hd & Hurl).
  rewrite app_assoc. apply normalize_of_id; [|exact Hurl].
  rewrite urlMatch_skip.
  - now apply urlMatch_at_marker.
  - destruct Hscheme; destruct Hwww; subst; reflexivity.
Qed.

Lemma X16_url_forms_agree_witness :
  normalizeArxivId (js "https://www.arxiv.org/pdf/2301.01234v2.pdf")
  = normalizeArxivId (js "2301.01234v2").
Proof.
  exact (X16_url_forms_agree (js "https://") (js "www.")
           (js "arxiv.org/pdf/") (js "2301.01234v2") (js ".pdf")
           (or_intror eq_refl) (or_intror eq_refl) (or_intror eq_refl)
           eq_refl (or_intror eq_refl)).
Defined.

(** ** Version numbers *)

Lemma uint_string_digits (u : Decimal.uint) :
  forallb is_digit (js (NilEmpty.string_of_uint u)) = true.
Proof. induction u; simpl; trivial. Qed.

Lemma parseInt10_acc (u : Decimal.uint) : forall acc : positive,
  fold_left (fun acc c => (10 * acc + digit_value c)%N)
            (js (NilEmpty.string_of_uint u)) (N.pos acc)
  = N.pos (Pos.of_uint_acc u acc).
Proof.
  induction u; intro acc; [reflexivity|..];
    cbn [NilEmpty.string_of_uint js list_ascii_of_string map fold_left
         Pos.of_uint_acc];
    rewrite <- IHu; f_equal; unfold digit_value.
  all: match goal with
       | |- context [N_of_ascii ?a] =>
           let v := eval vm_compute in (N_of_ascii a) in
           change (N_of_ascii a) with v
       end; lia.
Qed.

Lemma parseInt10_uint (u : Decimal.uint) :
  parseInt10 (js (NilEmpty.string_of_uint u)) = Pos.of_uint u.
Proof.
  unfold parseInt10. induction u; [reflexivity| |..];
    cbn [NilEmpty.string_of_uint js list_ascii_of_string map fold_left
         Pos.of_uint]; try exact IHu;
    rewrite <- parseInt10_acc; f_equal.
Qed.

Lemma number_toString_uint (n : N) :
  number_toString n = js (NilEmpty.string_of_uint (N.to_uint n))
  /\ N.to_uint n <> Decimal.Nil.
Proof.
  unfold number_toString, NilZero.string_of_uint.
  destruct (N.to_uint n) eqn:E; try (split; [reflexivity | discriminate]).
  exfalso. destruct n as [|p]; [discriminate|].
  apply (f_equal Pos.of_uint) in E.
  change (Pos.of_uint (Pos.to_uint p) = 0%N) in E.
  rewrite DecimalPos.Unsigned.of_to in E. discriminate.
Qed.

Lemma number_toString_digits (n : N) :
  forallb is_digit (number_toString n) = true /\ number_toString n <> [].
Proof.
  destruct (number_toString_uint n) as [-> Hne]. split.
  - apply uint_string_digits.
  - destruct (N.to_uint n); [congruence|..]; discriminate.
Qed.

Lemma parseInt10_number_toString (n : N) :
  parseInt10 (number_toString n) = n.
Proof.
  destruct (number_toString_uint n) as [-> _].
  rewrite parseInt10_uint. apply DecimalN.Unsigned.of_to.
Qed.

Lemma version_suffix_at_end (B V : jsstring) :
  is_version_suffix V = true -> ends_with_version_suffix (B ++ V) = true.
Proof.
  intro H. destruct (ends_with_version_suffix (B ++ V)) eqn:E; [reflexivity|].
  apply ends_with_version_suffix_app, ends_with_version_suffix_here in E.
  congruence.
Qed.

Lemma bare_base_shape (B : jsstring) :
  bare_id B = true -> ends_with_version_suffix B = false -> base_shape B.
Proof.
  intros Hb He. apply bare_id_shape in Hb as (B' & V & -> & HB & HV).
  destruct HV as [->|(K & -> & HK & HKd)]; [now rewrite app_nil_r|].
  rewrite version_suffix_at_end in He; [discriminate|].
  simpl. apply truthy_nonempty in HK. now rewrite HK, HKd.
Qed.

(** X17: an identifier without version normalises to itself, with no
    version; followed by [v] and the decimal digits of a number [n] it
    normalises to the same canonical id, the version [n] read back from
    the digits, and the input as the versioned id.  ([n] is below 2^53,
    where [Number.parseInt] is exact.) *)
Theorem X17_version_read_back (B : jsstring) (n : N) :
  bare_id B = true -> ends_with_version_suffix B = false ->
  (n < 2 ^ 53)%N ->
  normalizeArxivId B = mkNormalized B None None
  /\ normalizeArxivId (B ++ js "v" ++ number_toString n)
     = mkNormalized B (Some n) (Some (B ++ js "v" ++ number_toString n)).
Proof.
  intros Hb He _. pose proof (bare_base_shape B Hb He) as HB.
  destruct (base_shape_facts B HB) as (Hne & Hlt & Hev & _ & Hs).
  destruct (number_toString_digits n) as [Hd HK].
  split.
  - apply normalize_plain.
    + apply urlMatch_none. lia.
    + now apply versionMatch_plain.
  - change (js "v" ++ number_toString n) with (118%N :: number_toString n).
    rewrite <- (parseInt10_number_toString n) at 2.
    apply normalize_versioned; trivial.
    + apply (id_shape_facts B (118%N :: number_toString n) HB).
      right. now exists (number_toString n).
    + now apply versionMatch_versioned.
Qed.

Lemma X17_version_read_back_witness :
  normalizeArxivId (js "hep-th/9901001" ++ js "v" ++ number_toString 12)
  = mkNormalized (js "hep-th/9901001") (Some 12%N)
      (Some (js "hep-th/9901001" ++ js "v" ++ number_toString 12)).
Proof.
  exact (proj2 (X17_version_read_back (js "hep-th/9901001") 12
                  eq_refl eq_refl eq_refl)).
Defined.

(* ===================================================================== *)
(** * Further properties of the query URL                                 *)
(* ===================================================================== *)

Lemma list_ind2 {A} (P : list A -> Prop) :
  P [] -> (forall a, P [a]) ->
  (forall a b l, P l -> P (b :: l) -> P (a :: b :: l)) ->
  forall l, P l.
Proof.
  intros H0 H1 H2 l.
  assert (H : P l /\ forall a, P (a :: l)); [|apply H].
  induction l as [|b l [IH1 IH2]]; [now split|].
  split; [apply IH2 | intro a; apply H2; [exact IH1 | apply IH2]].
Qed.

Lemma safe_forallb (s : jsstring) : safe s <-> forallb url_safe s = true.
Proof.
  unfold safe. rewrite Forall_forall, forallb_forall. reflexivity.
Qed.

Lemma units_forallb (s : jsstring) : units s <-> is_js_string s = true.
Proof.
  unfold units, is_js_string. rewrite Forall_forall, forallb_forall.
  unfold is_code_unit. split; intros H c Hc.
  - apply N.ltb_lt. now apply H.
  - apply N.ltb_lt. now apply H.
Qed.

Lemma hex_digit_safe (n : N) : (n < 16)%N -> url_safe (hex_digit n) = true.
Proof.
  intro H. unfold url_safe, hex_digit, is_alnum.
  destruct (N.ltb_spec n 10); apply orb_true_iff; left; bool_lia.
Qed.

Lemma hex_digit_ascii (n : N) : (n < 16)%N -> (hex_digit n < 128)%N.
Proof. intro H. unfold hex_digit. destruct (n <? 10)%N; lia. Qed.

Lemma percent_byte_safe (b : N) : (b < 256)%N -> safe (percent_byte b).
Proof.
  intro H. unfold percent_byte, safe.
  constructor; [reflexivity|]. constructor; [|constructor; [|constructor]].
  - apply hex_digit_safe. now apply N.Div0.div_lt_upper_bound.
  - apply hex_digit_safe. now apply N.mod_lt.
Qed.

Lemma percent_byte_ascii (b : N) :
  (b < 256)%N -> Forall (fun c => (c < 128)%N) (percent_byte b).
Proof.
  intro H. unfold percent_byte.
  constructor; [lia|]. constructor; [|constructor; [|constructor]].
  - apply hex_digit_ascii. now apply N.Div0.div_lt_upper_bound.
  - apply hex_digit_ascii. now apply N.mod_lt.
Qed.

Lemma form_encode_byte_safe (b : N) : (b < 256)%N -> safe (form_encode_byte b).
Proof.
  intro H. unfold form_encode_byte.
  destruct (is_alnum b || existsb (N.eqb b) [42; 45; 46; 95]%N) eqn:E.
  - repeat constructor. unfold url_safe.
    apply orb_true_iff in E as [E|E]; [now rewrite E|].
    apply orb_true_iff; right. cbn [existsb] in *.
    rewrite !orb_true_iff in *. tauto.
  - destruct (b =? 32)%N; [now repeat constructor|].
    now apply percent_byte_safe.
Qed.

Lemma utf8_encode_bytes (cp : N) :
  (cp < 1114112)%N -> bytes (utf8_encode cp).
Proof.
  intro H. unfold utf8_encode, bytes.
  assert (M : forall a, (a mod 64 < 64)%N) by (intro; now apply N.mod_lt).
  destruct (N.ltb_spec cp 128); [repeat constructor; lia|].
  destruct (N.ltb_spec cp 2048).
  { assert (cp / 64 < 32)%N by now apply N.Div0.div_lt_upper_bound.
    pose proof (M cp). repeat constructor; lia. }
  destruct (N.ltb_spec cp 65536).
  { assert (cp / 4096 < 16)%N by now apply N.Div0.div_lt_upper_bound.
    pose proof (M cp). pose proof (M (cp / 64)%N).
    repeat constructor; lia. }
  assert (cp / 262144 < 5)%N by (apply N.Div0.div_lt_upper_bound; lia).
  pose proof (M cp). pose proof (M (cp / 64)%N). pose proof (M (cp / 4096)%N).
  repeat constructor; lia.
Qed.

Lemma surrogate_pair_bound (hi lo : code_unit) :
  is_high_surrogate hi = true -> is_low_surrogate lo = true ->
  (surrogate_pair hi lo < 1114112)%N.
Proof.
  unfold is_high_surrogate, is_low_surrogate, surrogate_pair.
  rewrite !andb_true_iff, !N.leb_le. nia.
Qed.

Lemma scalar_values_bound (s : jsstring) :
  units s -> Forall (fun cp => (cp < 1114112)%N) (scalar_values s).
Proof.
  unfold units. induction s as [|c|c lo s IH1 IH2] using list_ind2; intro H.
  - constructor.
  - inversion_clear H. cbn [scalar_values].
    destruct (is_high_surrogate c); [repeat constructor; lia|].
    destruct (is_low_surrogate c); repeat constructor; lia.
  - inversion_clear H as [|? ? Hc H']. pose proof H' as H''.
    inversion_clear H'' as [|? ? Hlo Hs].
    change (scalar_values (c :: lo :: s)) with
      (if is_high_surrogate c then
         if is_low_surrogate lo
         then surrogate_pair c lo :: scalar_values s
         else 65533%N :: scalar_values (lo :: s)
       else if is_low_surrogate c then 65533%N :: scalar_values (lo :: s)
       else c :: scalar_values (lo :: s)).
    destruct (is_high_surrogate c) eqn:Ehi.
    + destruct (is_low_surrogate lo) eqn:Elo.
      * constructor; [now apply surrogate_pair_bound | now apply IH1].
      * constructor; [lia | now apply IH2].
    + destruct (is_low_surrogate c); constructor; try lia; now apply IH2.
Qed.

(** The serialisation of a parameter holds only characters that are
    safe in a query string. *)
Lemma form_urlencode_safe (s : jsstring) : units s -> safe (form_urlencode s).
Proof.
  intro H. unfold form_urlencode, safe.
  apply Forall_flat_map, Forall_flat_map.
  apply scalar_values_bound in H.
  eapply Forall_impl; [|exact H]. intros cp Hcp. cbv beta.
  eapply Forall_impl; [|exact (utf8_encode_bytes cp Hcp)].
  intros b Hb. now apply form_encode_byte_safe.
Qed.

Lemma safe_app (a b : jsstring) : safe a -> safe b -> safe (a ++ b).
Proof. intros Ha Hb. apply Forall_app. now split. Qed.

Lemma units_app (a b : jsstring) : units a -> units b -> units (a ++ b).
Proof. intros Ha Hb. apply Forall_app. now split. Qed.

Lemma URLSearchParams_safe (params : list (jsstring * jsstring)) :
  Forall (fun kv => units (fst kv) /\ units (snd kv)) params ->
  safe (URLSearchParams_toString params).
Proof.
  induction params as [|[k v] rest IH]; intro H; [constructor|].
  inversion_clear H as [|? ? [Hk Hv] Hrest]. simpl in Hk, Hv.
  assert (Hkv : safe (form_urlencode k ++ [61%N] ++ form_urlencode v)).
  { apply safe_app; [now apply form_urlencode_safe|].
    apply safe_app; [now repeat constructor | now apply form_urlencode_safe]. }
  destruct rest as [|kv rest]; [exact Hkv|].
  change (URLSearchParams_toString ((k, v) :: kv :: rest))
    with (form_urlencode k ++ [61%N] ++ form_urlencode v ++ [38%N]
          ++ URLSearchParams_toString (kv :: rest)).
  apply safe_app; [now apply form_urlencode_safe|].
  apply safe_app; [now repeat constructor|].
  apply safe_app; [now apply form_urlencode_safe|].
  apply safe_app; [now repeat constructor | now apply IH].
Qed.

Lemma ascii_units (s : jsstring) :
  Forall (fun c => (c < 128)%N) s -> units s.
Proof. apply Forall_impl. intros; lia. Qed.

Lemma js_ascii (s : string) : Forall (fun c => (c < 256)%N) (js s).
Proof.
  unfold js. induction s as [|a s IH]; [constructor|].
  cbn [list_ascii_of_string map]. constructor; [|exact IH].
  apply N_ascii_bounded.
Qed.

Lemma js_units (s : string) : units (js s).
Proof. eapply Forall_impl; [|apply js_ascii]. intros; cbv beta in *; lia. Qed.

Lemma uri_unreserved_ascii (c : code_unit) :
  uri_unreserved c = true -> (c < 128)%N.
Proof.
  unfold uri_unreserved, is_alnum. cbn [existsb].
  rewrite !orb_true_iff, !andb_true_iff, !N.leb_le, !N.eqb_eq.
  intros [H|H]; [lia|].
  repeat (destruct H as [H|H]; [lia|]). discriminate.
Qed.

Lemma flat_percent_ascii (cp : N) :
  (cp < 1114112)%N ->
  Forall (fun c => (c < 128)%N) (flat_map percent_byte (utf8_encode cp)).
Proof.
  intro H. apply Forall_flat_map.
  eapply Forall_impl; [|exact (utf8_encode_bytes cp H)].
  intros b Hb. now apply percent_byte_ascii.
Qed.

(** What [encodeURIComponent] returns is ASCII. *)
Lemma encodeURIComponent_ascii (s : jsstring) : forall e,
  units s -> encodeURIComponent s = Some e ->
  Forall (fun c => (c < 128)%N) e.
Proof.
  unfold units. induction s as [|c|c lo s IH1 IH2] using list_ind2;
    intros e H.
  - intro E. inversion E. constructor.
  - inversion_clear H as [|? ? Hc _]. cbn [encodeURIComponent option_map].
    destruct (uri_unreserved c) eqn:Eu.
    + intro E. inversion E. repeat constructor.
      now apply uri_unreserved_ascii.
    + destruct (is_low_surrogate c); [discriminate|].
      destruct (is_high_surrogate c); [discriminate|].
      intro E. inversion E. rewrite app_nil_r.
      apply flat_percent_ascii. lia.
  - inversion_clear H as [|? ? Hc H']. pose proof H' as H''.
    inversion_clear H'' as [|? ? Hlo Hs].
    change (encodeURIComponent (c :: lo :: s)) with
      (if uri_unreserved c
       then option_map (cons c) (encodeURIComponent (lo :: s))
       else if is_low_surrogate c then None
       else if is_high_surrogate c then
         if is_low_surrogate lo then
           option_map
             (app (flat_map percent_byte (utf8_encode (surrogate_pair c lo))))
             (encodeURIComponent s)
         else None
       else option_map (app (flat_map percent_byte (utf8_encode c)))
                       (encodeURIComponent (lo :: s))).
    destruct (uri_unreserved c) eqn:Eu.
    + destruct (encodeURIComponent (lo :: s)) as [e'|]; [|discriminate].
      intro E. inversion E. constructor.
      * now apply uri_unreserved_ascii.
      * now apply IH2.
    + destruct (is_low_surrogate c); [discriminate|].
      destruct (is_high_surrogate c) eqn:Ehi.
      * destruct (is_low_surrogate lo) eqn:Elo; [|discriminate].
        destruct (encodeURIComponent s) as [e'|]; [|discriminate].
        intro E. inversion E. apply Forall_app. split.
        -- apply flat_percent_ascii. now apply surrogate_pair_bound.
        -- now apply IH1.
      * destruct (encodeURIComponent (lo :: s)) as [e'|]; [|discriminate].
        intro E. inversion E. apply Forall_app. split.
        -- apply flat_percent_ascii. lia.
        -- now apply IH2.
Qed.

Lemma join_units (sep : jsstring) (l : list jsstring) :
  units sep -> Forall units l -> units (join sep l).
Proof.
  intros Hsep H. induction H as [|x l Hx Hl IH]; [constructor|].
  destruct l as [|y l]; [exact Hx|].
  change (join sep (x :: y :: l)) with (x ++ sep ++ join sep (y :: l)).
  apply units_app; [exact Hx|]. apply units_app; [exact Hsep | exact IH].
Qed.

Lemma search_query_value_units (query : jsstring) (o : ArxivSearchOptions)
    (v : jsstring) :
  units query -> Forall units (or_default (categories o) []) ->
  search_query_value query o = Some v -> units v.
Proof.
  intros Hq Hc. unfold search_query_value.
  destruct (encodeURIComponent query) as [e|] eqn:E.
  - pose proof (ascii_units e (encodeURIComponent_ascii query e Hq E)) as He.
    destruct (categories o) as [[|cat cats]|]; cbn [option_map];
      intro H; apply Some_eq in H; rewrite <- H;
      try (apply units_app; [apply js_units | exact He]).
    apply units_app; [apply js_units|].
    apply units_app; [apply js_units|].
    apply units_app; [exact He|].
    apply units_app; [apply js_units|].
    apply units_app; [|apply js_units].
    apply join_units; [apply js_units|].
    cbn [or_default] in Hc. clear - Hc.
    induction Hc as [|x l Hx Hl IH]; [constructor|].
    cbn [map]. constructor; [|exact IH].
    apply units_app; [apply js_units | exact Hx].
  - destruct (categories o) as [[|cat cats]|]; discriminate.
Qed.

(** X18: whatever the query and the categories, the URL that
    [buildArxivQueryUrl] returns is made of ASCII letters, digits and the
    characters [* - . _ % + & = : / ?] only: no space, quote, bracket or
    non-ASCII character reaches the request line. *)
Theorem X18_query_url_is_safe (query : jsstring) (options : ArxivSearchOptions)
    (url : jsstring) :
  is_js_string query = true ->
  forallb is_js_string (or_default (categories options) []) = true ->
  buildArxivQueryUrl query options = Some url ->
  forallb url_safe url = true.
Proof.
  intros Hq Hc. apply units_forallb in Hq.
  assert (Hc' : Forall units (or_default (categories options) [])).
  { apply Forall_forall. intros c Hin. apply units_forallb.
    rewrite forallb_forall in Hc. now apply Hc. }
  unfold buildArxivQueryUrl.
  destruct (search_query_value query options) as [v|] eqn:E; [|discriminate].
  apply (search_query_value_units query options v Hq Hc') in E.
  intro H. apply Some_eq in H. rewrite <- H. apply safe_forallb.
  apply safe_app; [now apply safe_forallb|].
  apply URLSearchParams_safe.
  repeat constructor; cbn [fst snd]; try apply js_units; try exact E.
  - destruct (or_default (sortBy options) relevance); apply js_units.
  - destruct (or_default (sortOrder options) descending); apply js_units.
Qed.

Lemma X18_query_url_is_safe_witness :
  exists url,
    buildArxivQueryUrl (js "large language  (models) & 'agents'")
      (mkOptions None None None None (Some [js "cs.AI"; js "stat ML"]))
    = Some url
    /\ forallb url_safe url = true.
Proof.
  eexists. split; [reflexivity|].
  apply (X18_query_url_is_safe
           (js "large language  (models) & 'agents'")
           (mkOptions None None None None (Some [js "cs.AI"; js "stat ML"])));
    reflexivity.
Defined.

(** ** Queries that need no escaping *)









(* ===================================================================== *)
(** * Papers                                                              *)
(* ===================================================================== *)

Lemma truthy_values_nonempty (l : list (option jsstring)) :
  Forall nonempty (truthy_values l).
Proof.
  unfold truthy_values. apply Forall_flat_map, Forall_forall.
  intros [s|] _; [|constructor].
  destruct (truthy s) eqn:E; [|constructor].
  repeat constructor. now apply truthy_nonempty.
Qed.

Lemma versioned_iff_version (x : jsstring) :
  versioned (normalizeArxivId x) = None <-> version (normalizeArxivId x) = None.
Proof.
  unfold normalizeArxivId.
  destruct (versionMatch _) as [[can [ds|]]|]; cbn; try tauto.
  destruct (truthy ds); cbn; [split; discriminate | tauto].
Qed.

Lemma parsed_paper_entry (parse : jsstring -> XmlParseOutcome)
    (xml : jsstring) (p : ArxivPaper) :
  In p (parseArxivAtom parse xml) -> exists e, parseEntry e = Some p.
Proof.
  unfold parseArxivAtom.
  destruct (parse xml) as [|doc]; [contradiction|].
  destruct (feed doc) as [f|]; [|contradiction].
  destruct (feed_entry f) as [entries|]; [|contradiction].
  intro H. apply in_flat_map in H as (e & _ & H). exists e.
  destruct (parseEntry e) as [q|]; [|contradiction].
  destruct H as [->|[]]. reflexivity.
Qed.

Lemma parseEntry_fields (e : AtomEntry) (p : ArxivPaper) :
  parseEntry e = Some p ->
  exists i, entry_id e = Some i /\ i <> []
    /\ arxivId p = canonical (normalizeArxivId i)
    /\ arxivIdVersioned p = versioned (normalizeArxivId i)
    /\ paper_version p = version (normalizeArxivId i)
    /\ Some (paper_published p) = entry_published e
    /\ paper_published p <> []
    /\ authors p
       = truthy_values (map name (or_default (entry_author e) []))
    /\ paper_categories p
       = match truthy_values (map term (or_default (entry_category e) []))
         with
         | [] => None
         | c :: cs => Some (c :: cs)
         end.
Proof.
  intro H.
  apply parseEntry_inv in H as (i & t & d & Hi & Hne & _ & _ & Hd & Hdne & _ & ->).
  exists i. unfold entry_id. rewrite Hi, Hd.
  cbn [text_of arxivId arxivIdVersioned paper_version paper_published authors
       paper_categories].
  repeat split; trivial.
Qed.

(** X20: every paper [parseArxivAtom] returns has a non-empty id and a
    non-empty publication date; its versioned id and its version number
    are present together or absent together; no author name and no
    category is the empty string, and the list of categories is absent
    rather than empty. *)
Theorem X20_paper_invariants (parse : jsstring -> XmlParseOutcome)
    (xml : jsstring) (p : ArxivPaper) :
  In p (parseArxivAtom parse xml) ->
  arxivId p <> []
  /\ paper_published p <> []
  /\ (arxivIdVersioned p = None <-> paper_version p = None)
  /\ Forall nonempty (authors p)
  /\ paper_categories p <> Some []
  /\ (forall cats, paper_categories p = Some cats -> Forall nonempty cats).
Proof.
  intro H. apply parsed_paper_entry in H as (e & H).
  apply parseEntry_fields in H
    as (i & _ & Hi & Eid & Evd & Ev & _ & Hpub & Eauth & Ecat).
  split; [|split; [|split; [|split; [|split]]]].
  - rewrite Eid. now apply canonical_nonempty.
  - exact Hpub.
  - rewrite Evd, Ev. apply versioned_iff_version.
  - rewrite Eauth. apply truthy_values_nonempty.
  - rewrite Ecat.
    destruct (truthy_values (map term (or_default (entry_category e) [])));
      intro E; discriminate E.
  - intros cats. rewrite Ecat.
    pose proof (truthy_values_nonempty
                  (map term (or_default (entry_category e) []))) as Hc.
    revert Hc.
    destruct (truthy_values (map term (or_default (entry_category e) [])));
      intros Hc E; [discriminate E|].
    apply Some_eq in E. now subst cats.
Qed.

Lemma X20_paper_invariants_witness :
  arxivId paper_ok <> [] /\ paper_categories paper_ok <> Some [].
Proof.
  destruct (X20_paper_invariants (fun _ => feed_of [entry_no_title; entry_ok])
              (js "<feed/>") paper_ok (or_introl eq_refl))
    as (H1 & _ & _ & _ & H2 & _).
  exact (conj H1 H2).
Defined.

Lemma parsed_ids (entries : list AtomEntry) :
  map arxivId
    (flat_map (fun entry => match parseEntry entry with
                            | Some paper => [paper]
                            | None => []
                            end) entries)
  = map entry_canonical_id (filter well_formed entries).
Proof.
  induction entries as [|e entries IH]; [reflexivity|].
  cbn [flat_map filter]. rewrite <- (parseEntry_some_iff e).
  destruct (parseEntry e) as [p|] eqn:E; [|exact IH].
  cbn [app map]. rewrite IH. f_equal.
  apply parseEntry_fields in E as (i & Ei & _ & Eid & _).
  unfold entry_canonical_id. now rewrite Ei.
Qed.

(** X21: the papers of a feed come in the order of the feed, one for
    each entry that has [id], [title] and [published], whose [id] and
    [title] are strings and whose [summary], when it has one, is a
    string as well; the id of each paper is the canonical id of the
    entry's identifier URI.  (An entry whose title or summary reads as a
    number is skipped.) *)
Theorem X21_papers_in_feed_order (parse : jsstring -> XmlParseOutcome)
    (xml : jsstring) (entries : list AtomEntry) :
  parse xml = XmlParsed (mkDocument (Some (mkFeed (Some entries)))) ->
  map arxivId (parseArxivAtom parse xml)
  = map entry_canonical_id (filter well_formed entries).
Proof.
  intro H. unfold parseArxivAtom. rewrite H. cbn [feed feed_entry].
  apply parsed_ids.
Qed.

Lemma X21_papers_in_feed_order_witness :
  map arxivId
    (parseArxivAtom
       (fun _ => feed_of [entry_two_pdf; entry_no_title;
                          entry_numeric_title; entry_ok])
       (js "<feed/>"))
  = map entry_canonical_id [entry_two_pdf; entry_ok].
Proof.
  exact (X21_papers_in_feed_order
           (fun _ => feed_of [entry_two_pdf; entry_no_title;
                              entry_numeric_title; entry_ok])
           (js "<feed/>")
           [entry_two_pdf; entry_no_title; entry_numeric_title; entry_ok]
           eq_refl).
Defined.

(** ** Identifiers given to the tools *)

(** X22: saving or removing a paper by any valid form of its identifier
    (versioned, abstract-page URL, PDF URL) is the same operation as
    saving or removing it by its canonical id: same result, same library
    afterwards, same request. *)
Theorem X22_tools_accept_any_form (w : World) (agent : Agent) (x : jsstring)
    (tags : option (list jsstring)) :
  valid_raw_id x = true ->
  savePaper w agent x tags
  = savePaper w agent (canonical (normalizeArxivId x)) tags
  /\ removeSavedPaper agent x
     = removeSavedPaper agent (canonical (normalizeArxivId x))
  /\ fetchArxivPaperById (fetchImpl w) (xml_parse w) x
     = fetchArxivPaperById (fetchImpl w) (xml_parse w)
         (canonical (normalizeArxivId x)).
Proof.
  intro H. apply valid_raw_id_canonical in H as (B & HB & E).
  pose proof (normalize_base_shape B HB) as EB.
  unfold savePaper, removeSavedPaper, fetchArxivPaperById, fetch_url_by_id.
  rewrite E, !EB. split; [reflexivity | split; reflexivity].
Qed.

Lemma X22_tools_accept_any_form_witness :
  savePaper (world_of_feed [entry_ok]) empty_agent
    (js "https://arxiv.org/pdf/2301.01234v2.pdf") (Some [js "ml"])
  = savePaper (world_of_feed [entry_ok]) empty_agent
      (canonical (normalizeArxivId
                    (js "https://arxiv.org/pdf/2301.01234v2.pdf")))
      (Some [js "ml"]).
Proof.
  exact (proj1 (X22_tools_accept_any_form (world_of_feed [entry_ok])
                  empty_agent (js "https://arxiv.org/pdf/2301.01234v2.pdf")
                  (Some [js "ml"]) eq_refl)).
Defined.

(* ===================================================================== *)
(** * src/lib/storage.ts: the storage fallback                            *)
(* ===================================================================== *)

Import Storage.

Lemma getItem_removeItem (key : jsstring) (its : Items) :
  getItem key (removeItem key its) = None.
Proof.
  unfold getItem, removeItem. induction its as [|[k v] its IH]; [reflexivity|].
  cbn [filter fst]. destruct (str_eqb k key) eqn:E; cbn [negb]; [exact IH|].
  cbn [find fst]. now rewrite E.
Qed.

Lemma getItem_removeItem_other (key key' : jsstring) (its : Items) :
  key' <> key -> getItem key' (removeItem key its) = getItem key' its.
Proof.
  intro Hne. unfold getItem, removeItem.
  induction its as [|[k v] its IH]; [reflexivity|].
  cbn [filter fst find]. destruct (str_eqb k key) eqn:E; cbn [negb].
  - apply str_eqb_eq in E. subst k.
    assert (E' : str_eqb key key' = false)
      by (apply str_eqb_neq; congruence).
    now rewrite E'.
  - cbn [find fst]. now destruct (str_eqb k key').
Qed.

Lemma getItem_setItem (key value : jsstring) (its : Items) :
  getItem key (setItem key value its) = Some value.
Proof.
  unfold getItem, setItem. cbn [find fst]. now rewrite str_eqb_refl.
Qed.

Lemma getItem_setItem_other (key key' value : jsstring) (its : Items) :
  key' <> key -> getItem key' (setItem key value its) = getItem key' its.
Proof.
  intro Hne. unfold setItem.
  assert (E' : str_eqb key key' = false) by (apply str_eqb_neq; congruence).
  unfold getItem at 1. cbn [find fst]. rewrite E'.
  now apply getItem_removeItem_other.
Qed.

Lemma try_getItem_removed (key : jsstring) (s : WebStorage) :
  try_getItem key (try_removeItem key s) = None.
Proof.
  unfold try_getItem, try_removeItem.
  destruct (readable s) eqn:E; cbn [readable items]; rewrite ?E;
    [apply getItem_removeItem | reflexivity].
Qed.

Lemma try_getItem_removed_other (key key' : jsstring) (s : WebStorage) :
  key' <> key ->
  try_getItem key' (try_removeItem key s) = try_getItem key' s.
Proof.
  intro Hne. unfold try_getItem, try_removeItem.
  destruct (readable s) eqn:E; cbn [readable items]; rewrite ?E;
    [now apply getItem_removeItem_other | reflexivity].
Qed.

Lemma try_setItem_get (key value : jsstring) (s s' : WebStorage) :
  try_setItem key value s = Some s' -> try_getItem key s' = Some value.
Proof.
  unfold try_setItem, try_getItem.
  destruct (readable s) eqn:E; cbn [andb]; [|discriminate].
  destruct (writable s); [|discriminate].
  intro H. apply Some_eq in H. subst s'. cbn [readable items].
  apply getItem_setItem.
Qed.

Lemma try_setItem_get_other (key key' value : jsstring) (s s' : WebStorage) :
  key' <> key -> try_setItem key value s = Some s' ->
  try_getItem key' s' = try_getItem key' s.
Proof.
  intro Hne. unfold try_setItem, try_getItem.
  destruct (readable s) eqn:E; cbn [andb]; [|discriminate].
  destruct (writable s); [|discriminate].
  intro H. apply Some_eq in H. subst s'. cbn [readable items].
  now apply getItem_setItem_other.
Qed.

(** X23: a value written after the key was removed is the value read
    back, and the read reports the storage the write reported, whichever
    of the three storages took it. *)
Theorem X23_remove_set_get (b : Browser) (key value defaultValue : jsstring) :
  let written := safeSetItem (safeRemoveItem b key) key value in
  safeGetItem (snd written) key defaultValue
  = mkStorageResult value (fst written).
Proof.
  cbv zeta. unfold safeSetItem, safeRemoveItem.
  cbn [localStorage sessionStorage memoryStorage].
  destruct (try_setItem key value (try_removeItem key (localStorage b)))
    as [l|] eqn:El.
  - cbn [fst snd]. unfold safeGetItem. cbn [localStorage].
    now rewrite (try_setItem_get _ _ _ _ El).
  - destruct (try_setItem key value (try_removeItem key (sessionStorage b)))
      as [s|] eqn:Es; cbn [fst snd]; unfold safeGetItem;
      cbn [localStorage sessionStorage memoryStorage];
      rewrite try_getItem_removed.
    + now rewrite (try_setItem_get _ _ _ _ Es).
    + now rewrite try_getItem_removed, getItem_setItem.
Qed.

(** X24: without the removal the round trip can fail: when local storage
    holds a value for the key and takes no write, the new value goes to
    another storage and every later read still returns the old value, as
    persistent. *)
Theorem X24_stale_value_shadows (b : Browser)
    (key old value defaultValue : jsstring) :
  try_getItem key (localStorage b) = Some old ->
  writable (localStorage b) = false ->
  fst (safeSetItem b key value) <> persistent
  /\ safeGetItem (snd (safeSetItem b key value)) key defaultValue
     = mkStorageResult old persistent.
Proof.
  intros Hold Hw. unfold safeSetItem.
  assert (El : try_setItem key value (localStorage b) = None).
  { unfold try_setItem. now rewrite Hw, andb_false_r. }
  rewrite El.
  destruct (try_setItem key value (sessionStorage b)); cbn [fst snd];
    (split; [discriminate|]); unfold safeGetItem; cbn [localStorage];
    now rewrite Hold.
Qed.

Lemma X24_stale_value_shadows_witness :
  safeGetItem
    (snd (safeSetItem
            (mkBrowser (mkWebStorage true false [(js "theme", js "dark")])
                       (mkWebStorage true true []) [])
            (js "theme") (js "light")))
    (js "theme") (js "system")
  = mkStorageResult (js "dark") persistent.
Proof.
  exact (proj2 (X24_stale_value_shadows
                  (mkBrowser (mkWebStorage true false [(js "theme", js "dark")])
                             (mkWebStorage true true []) [])
                  (js "theme") (js "dark") (js "light") (js "system")
                  eq_refl eq_refl)).
Defined.

(** X25: after [safeRemoveItem] a read of the key finds nothing in any
    storage: it returns the default value, with type memory. *)
Theorem X25_remove_then_get (b : Browser) (key defaultValue : jsstring) :
  safeGetItem (safeRemoveItem b key) key defaultValue
  = mkStorageResult defaultValue memory.
Proof.
  unfold safeGetItem, safeRemoveItem.
  cbn [localStorage sessionStorage memoryStorage].
  now rewrite !try_getItem_removed, getItem_removeItem.
Qed.

(** X26: writing or removing a key, and probing for persistent storage,
    change what is read for no other key (the probe spares every key but
    its own test key). *)
Theorem X26_other_keys_untouched (b : Browser)
    (key key' value defaultValue : jsstring) :
  key' <> key ->
  safeGetItem (snd (safeSetItem b key value)) key' defaultValue
  = safeGetItem b key' defaultValue
  /\ safeGetItem (safeRemoveItem b key) key' defaultValue
     = safeGetItem b key' defaultValue
  /\ (key' <> testKey ->
      safeGetItem (snd (isPersistentStorageAvailable b)) key' defaultValue
      = safeGetItem b key' defaultValue).
Proof.
  intro Hne. split; [|split].
  - unfold safeSetItem.
    destruct (try_setItem key value (localStorage b)) as [l|] eqn:El.
    + cbn [snd]. unfold safeGetItem.
      cbn [localStorage sessionStorage memoryStorage].
      now rewrite (try_setItem_get_other _ _ _ _ _ Hne El).
    + destruct (try_setItem key value (sessionStorage b)) as [s|] eqn:Es;
        cbn [snd]; unfold safeGetItem;
        cbn [localStorage sessionStorage memoryStorage].
      * now rewrite (try_setItem_get_other _ _ _ _ _ Hne Es).
      * now rewrite (getItem_setItem_other _ _ _ _ Hne).
  - unfold safeGetItem, safeRemoveItem.
    cbn [localStorage sessionStorage memoryStorage].
    now rewrite !(try_getItem_removed_other _ _ _ Hne),
      (getItem_removeItem_other _ _ _ Hne).
  - intro Ht. unfold isPersistentStorageAvailable.
    destruct (try_setItem testKey (js "test") (localStorage b)) as [l|] eqn:El;
      [|reflexivity].
    cbn [snd]. unfold safeGetItem.
    cbn [localStorage sessionStorage memoryStorage].
    now rewrite (try_getItem_removed_other _ _ _ Ht),
      (try_setItem_get_other _ _ _ _ _ Ht El).
Qed.

Lemma X26_other_keys_untouched_witness :
  safeGetItem
    (snd (safeSetItem
            (mkBrowser (mkWebStorage true true [(js "theme", js "dark")])
                       (mkWebStorage true true []) [])
            (js "userId") (js "u1")))
    (js "theme") (js "system")
  = safeGetItem
      (mkBrowser (mkWebStorage true true [(js "theme", js "dark")])
                 (mkWebStorage true true []) [])
      (js "theme") (js "system").
Proof.
  refine (proj1 (X26_other_keys_untouched
                   (mkBrowser (mkWebStorage true true [(js "theme", js "dark")])
                              (mkWebStorage true true []) [])
                   (js "userId") (js "theme") (js "u1") (js "system") _)).
  intro H. discriminate H.
Defined.
